(** * pavilion/series.py: test series and the series manager

    A shallow embedding of [lib/pavilion/series.py]: the dictionary merge
    [union_dictionary], on values and on list objects, the loader
    [test_obj_from_id], the series registry [TestSeries] (creation, loading
    by id, adding tests, the last series of the user) and the dependency
    scheduler of [SeriesManager.__init__] with the methods it calls.

    Python dictionaries keyed by strings or integers are finite maps
    ([gmap]); lists stay lists; an operation that may raise returns either
    the exception or its result, and a method that mutates its object before
    raising returns the object as it stands at the raise. *)

From stdpp Require Import gmap strings list fin_maps.
From Stdlib Require Import ZArith Lia DecimalString.

Set Warnings "-clear-no-such-hyp".

Local Open Scope string_scope.
Local Open Scope list_scope.

(** ** Python values and exceptions *)

(** The exceptions that cross the functions of this file. [OSError] and the
    exceptions of [pavilion.test_run] come from the collaborators; the rest
    are raised or left uncaught by [series.py] itself. *)
Inductive exn : Type :=
  | KeyError (key : string)
  | ValueError (what : string)
  | TypeError
  | AttributeError (attribute : string)
  | OSError
  | TestRunError
  | TestRunNotFoundError
  | TestSeriesError (msg : string).

(** A value of a configuration field that the code compares with a string
    literal. *)
Inductive pyval : Type :=
  | PyStr (s : string)
  | PyBool (b : bool)
  | PyInt (z : Z)
  | PyNone.

(** [v == s] for a string literal [s]: only a string equals a string. *)
Definition py_eq_str (v : pyval) (s : string) : bool :=
  match v with
  | PyStr s' => bool_decide (s' = s)
  | _ => false
  end.

(** [list(set(l))]: the elements of [l], each once, in the iteration order
    of the set, which Python leaves unspecified. The order is a parameter. *)
Class SetOrder := {
  list_of_set : list string → list string;
  list_of_set_NoDup : ∀ l, NoDup (list_of_set l);
  list_of_set_elem_of : ∀ l x, x ∈ list_of_set l ↔ x ∈ l
}.

(** One such order: first occurrences, left to right. *)
#[refine] Instance first_occurrence_order : SetOrder := {
  list_of_set := remove_dups
}.
Proof.
  - apply NoDup_remove_dups.
  - intros l x. apply elem_of_remove_dups.
Defined.

(** [l.remove(x)]: drops the first occurrence; [ValueError] when there is
    none. *)
Fixpoint py_remove (x : string) (l : list string) : exn + list string :=
  match l with
  | [] => inl (ValueError "list.remove(x): x not in list")
  | y :: l' =>
      if decide (x = y) then inr l'
      else match py_remove x l' with
           | inl e => inl e
           | inr r => inr (y :: r)
           end
  end.

(** ** [union_dictionary] on values

    The function on dictionaries whose lists are read as values. It is
    what the code computes when no list object sits under two keys of
    [dict1] or in both dictionaries; [UnionDictionaryStore] below has the
    lists as objects and [extend] in place. *)

Module UnionDictionary.
Section Merge.
Context {order : SetOrder}.

(** Body of [for key, list_value in dict1.items()], on the pair
    ([new_dict], [dict2_keys]). *)
Definition first_loop_body (dict2 : gmap string (list string))
    (acc : gmap string (list string) * list string)
    (item : string * list string)
    : exn + (gmap string (list string) * list string) :=
  let '(new_dict, dict2_keys) := acc in
  let '(key, list_value) := item in
  let new_dict := <[key := list_value]> new_dict in
  match dict2 !! key with
  | Some list2 =>
      let extended := list_value ++ list2 in
      match py_remove key dict2_keys with
      | inl e => inl e
      | inr dict2_keys =>
          inr (<[key := list_of_set extended]> new_dict, dict2_keys)
      end
  | None => inr (new_dict, dict2_keys)
  end.

Fixpoint first_loop (dict2 : gmap string (list string))
    (items : list (string * list string))
    (acc : gmap string (list string) * list string)
    : exn + (gmap string (list string) * list string) :=
  match items with
  | [] => inr acc
  | item :: items =>
      match first_loop_body dict2 acc item with
      | inl e => inl e
      | inr acc => first_loop dict2 items acc
      end
  end.

(** [for key in dict2_keys: new_dict[key] = dict2[key]] *)
Fixpoint second_loop (dict2 : gmap string (list string))
    (dict2_keys : list string) (new_dict : gmap string (list string))
    : exn + gmap string (list string) :=
  match dict2_keys with
  | [] => inr new_dict
  | key :: dict2_keys =>
      match dict2 !! key with
      | None => inl (KeyError key)
      | Some list2 => second_loop dict2 dict2_keys (<[key := list2]> new_dict)
      end
  end.

Definition union_dictionary (dict1 dict2 : gmap string (list string))
    : exn + gmap string (list string) :=
  let new_dict : gmap string (list string) := ∅ in
  let dict2_keys := (map_to_list dict2).*1 in
  match first_loop dict2 (map_to_list dict1) (new_dict, dict2_keys) with
  | inl e => inl e
  | inr (new_dict, dict2_keys) => second_loop dict2 dict2_keys new_dict
  end.

(** What the merge computes for one key. *)
Definition merged_value (v1 v2 : option (list string))
    : option (list string) :=
  match v1, v2 with
  | Some l1, Some l2 => Some (list_of_set (l1 ++ l2))
  | Some l1, None => Some l1
  | None, Some l2 => Some l2
  | None, None => None
  end.

End Merge.
End UnionDictionary.

(** ** [union_dictionary] on list objects

    The lists of the two dictionaries are objects: [extend] changes the
    list of the first dictionary where it stands, and the dictionary
    returned shares the lists it did not rebuild. A list object is a
    location of a store; the first dictionary is given by its items in
    the order of its iteration. *)

Module UnionDictionaryStore.

Abbreviation store := (gmap positive (list string)).

Section Merge.
Context {order : SetOrder}.

(** The lists a dictionary holds, read in a store. *)
Definition read (h : store) (d : gmap string positive)
    : gmap string (list string) :=
  (λ list_object, h !!! list_object) <$> d.

Definition first_loop_body (dict2 : gmap string positive)
    (acc : gmap string positive * list string * store)
    (item : string * positive)
    : exn + (gmap string positive * list string * store) :=
  let '(new_dict, dict2_keys, h) := acc in
  let '(key, list_value) := item in
  let new_dict := <[key := list_value]> new_dict in
  match dict2 !! key with
  | Some list2 =>
      let h := <[list_value := (h !!! list_value) ++ (h !!! list2)]> h in
      match py_remove key dict2_keys with
      | inl e => inl e
      | inr dict2_keys =>
          let copy := fresh (dom h) in
          let h := <[copy := list_of_set (h !!! list_value)]> h in
          inr (<[key := copy]> new_dict, dict2_keys, h)
      end
  | None => inr (new_dict, dict2_keys, h)
  end.

Fixpoint first_loop (dict2 : gmap string positive)
    (items : list (string * positive))
    (acc : gmap string positive * list string * store)
    : exn + (gmap string positive * list string * store) :=
  match items with
  | [] => inr acc
  | item :: items =>
      match first_loop_body dict2 acc item with
      | inl e => inl e
      | inr acc => first_loop dict2 items acc
      end
  end.

Fixpoint second_loop (dict2 : gmap string positive)
    (dict2_keys : list string) (new_dict : gmap string positive)
    : exn + gmap string positive :=
  match dict2_keys with
  | [] => inr new_dict
  | key :: dict2_keys =>
      match dict2 !! key with
      | None => inl (KeyError key)
      | Some list2 => second_loop dict2 dict2_keys (<[key := list2]> new_dict)
      end
  end.

(** [union_dictionary(dict1, dict2)], with [dict1_items] the items of
    [dict1]: the dictionary returned and the store it leaves. *)
Definition union_dictionary (dict1_items : list (string * positive))
    (dict2 : gmap string positive) (h : store)
    : exn + (gmap string positive * store) :=
  let new_dict : gmap string positive := ∅ in
  let dict2_keys := (map_to_list dict2).*1 in
  match first_loop dict2 dict1_items (new_dict, dict2_keys, h) with
  | inl e => inl e
  | inr (new_dict, dict2_keys, h) =>
      match second_loop dict2 dict2_keys new_dict with
      | inl e => inl e
      | inr new_dict => inr (new_dict, h)
      end
  end.

End Merge.
End UnionDictionaryStore.

(** ** Test runs, the file system and the collaborators *)

(** A resolved test configuration, as far as [series.py] reads it: the two
    conditional dictionaries, which [SeriesManager] may delete, and the
    other keys. *)
Record config : Type := {
  cfg_only_if : option (gmap string (list string));
  cfg_not_if : option (gmap string (list string));
  cfg_other : list (string * string)
}.

(** A [TestRun] object: its id, its directory, the configuration it was
    made from, the entries of its status file (state and note, oldest
    first) and whether [set_run_complete] was called on it. *)
Record TestRun : Type := {
  id : Z;
  path : string;
  test_config : config;
  status : list (string * string);
  run_complete : bool
}.

(** A directory entry of a series directory. *)
Inductive node : Type :=
  | Symlink (target : string)
  | Directory
  | File.

(** The part of the working directory [series.py] touches: the series
    directories under [working_dir/series], by name, each with its entries
    in [os.listdir] order; the paths that are directories, against which
    the links resolve; and the files of [working_dir/users], absent when
    they cannot be opened for writing. *)
Record FS : Type := {
  series_root : gmap string (list (string * node));
  directories : gset string;
  users_dir : option (gmap string string)
}.

Inductive log_record : Type :=
  | BadTestId (link_name : string)
  | ErrorLoadingTest (test_id : Z)
  | PollutedSeriesDirectory (series_dir : string)
  | CouldNotSaveSeriesId (file_name : string).

(** The world outside the Python objects: the file system, the number of
    seconds slept so far, and the log. *)
Record World : Type := {
  fs : FS;
  now : nat;
  logged : list log_record
}.

Definition set_fs (w : World) (f : FS) : World :=
  {| fs := f; now := now w; logged := logged w |}.

Definition log_info (w : World) (r : log_record) : World :=
  {| fs := fs w; now := now w; logged := logged w ++ [r] |}.

(** [time.sleep(1)] *)
Definition sleep (w : World) : World :=
  {| fs := fs w; now := S (now w); logged := logged w |}.

(** The functions [series.py] calls and does not define.
    - [make_id_name i]: the last component of [utils.make_id_path(dir, i)];
    - [py_int s]: [int(s)], [None] for [ValueError];
    - [get_login]: [utils.get_login()];
    - [create_id_dir]: [TestRun.create_id_dir(series_path)], the new id and
      the file system with its directory;
    - [TestRun_load]: [TestRun.load(pav_cfg, test_id)];
    - [TestRun_new]: [TestRun(pav_cfg, config)], the new test run and the
      file system with its directory;
    - [load_raw_configs tests host modes]: the resolver's method;
    - [run_cmd_run args]: [run_cmd.run(pav_cfg, args)], yielding
      [run_cmd.last_tests] and the file system it leaves;
    - [RUN_COMPLETE_exists n t]: whether [t.path/'RUN_COMPLETE'] exists
      after [n] seconds;
    - [results_result n t]: [t.results['result']] at that time;
    - [STATES_COMPLETE]: the constant [STATES.COMPLETE] of
      [pavilion.status_file]. *)
Class Collaborators := {
  make_id_name : Z → string;
  py_int : string → option Z;
  get_login : string;
  create_id_dir : FS → exn + (Z * FS);
  TestRun_load : FS → Z → exn + TestRun;
  TestRun_new : config → FS → exn + (TestRun * FS);
  load_raw_configs : list string → list string → list string
                     → exn + list config;
  run_cmd_run : list string → FS → exn + (list TestRun * FS);
  RUN_COMPLETE_exists : nat → TestRun → bool;
  results_result : nat → TestRun → pyval;
  STATES_COMPLETE : string
}.

(** The two collaborators that act on the file system, in a world. *)
Definition run_cmd `{Collaborators} (args : list string) (w : World)
    : exn + (list TestRun * World) :=
  match run_cmd_run args (fs w) with
  | inl e => inl e
  | inr (last_tests, f) => inr (last_tests, set_fs w f)
  end.

Definition new_TestRun `{Collaborators} (c : config) (w : World)
    : exn + (TestRun * World) :=
  match TestRun_new c (fs w) with
  | inl e => inl e
  | inr (test, f) => inr (test, set_fs w f)
  end.

(** [str(i)] for an integer. *)
Definition py_str (i : Z) : string := NilZero.string_of_int (Z.to_int i).

(** [s[1:]] *)
Definition drop_first (s : string) : string :=
  match s with
  | EmptyString => EmptyString
  | String _ rest => rest
  end.

(** [s.strip()]: the characters of a string are code points below 256,
    and those for which [str.isspace] holds are the tab to the carriage
    return, the four separators, the space, the next line and the
    no-break space. *)
Definition is_space (c : Ascii.ascii) : bool :=
  let n := Ascii.nat_of_ascii c in
  bool_decide (9 ≤ n ≤ 13)%nat || bool_decide (28 ≤ n ≤ 32)%nat
  || bool_decide (n = 133%nat) || bool_decide (n = 160%nat).

Fixpoint lstrip (s : string) : string :=
  match s with
  | EmptyString => EmptyString
  | String c rest => if is_space c then lstrip rest else s
  end.

Fixpoint rstrip (s : string) : string :=
  match s with
  | EmptyString => EmptyString
  | String c rest =>
      match rstrip rest with
      | EmptyString => if is_space c then EmptyString
                       else String c EmptyString
      | kept => String c kept
      end
  end.

Definition py_strip (s : string) : string := rstrip (lstrip s).

(** [isinstance(e, OSError)], for the exceptions of this file. *)
Definition is_OSError (e : exn) : bool :=
  match e with
  | OSError => true
  | _ => false
  end.

(** [link.symlink_to(target)] for a link named [link_name] in the series
    directory [series_dir]: [OSError] when the directory is missing or the
    name is taken. *)
Definition symlink_to (f : FS) (series_dir link_name target : string)
    : exn + FS :=
  match series_root f !! series_dir with
  | None => inl OSError
  | Some entries =>
      if bool_decide (link_name ∈ entries.*1) then inl OSError
      else inr {| series_root :=
                    <[series_dir := entries ++ [(link_name, Symlink target)]]>
                      (series_root f);
                  directories := directories f;
                  users_dir := users_dir f |}
  end.

(** [p.is_symlink() and p.is_dir()]: [is_dir] follows the link. *)
Definition is_symlink (n : node) : bool :=
  match n with
  | Symlink _ => true
  | _ => false
  end.

Definition is_dir (f : FS) (n : node) : bool :=
  match n with
  | Symlink target => bool_decide (target ∈ directories f)
  | Directory => true
  | File => false
  end.

(** ** [TestSeries] *)

Module Registry.

(** The object: [self.tests] and [self._id]; [self.path] is the directory
    [make_id_name _id] of the series root. *)
Record TestSeries : Type := {
  tests : gmap Z TestRun;
  _id : Z
}.

(** What [from_id] accepts for [id_]. *)
Inductive id_arg : Type :=
  | IdStr (s : string)
  | IdInt (i : Z).

Section Registry.
Context {env : Collaborators}.

(** [{test.id: test for test in tests}] *)
Definition tests_by_id (l : list TestRun) : gmap Z TestRun :=
  foldl (λ m test, <[id test := test]> m) ∅ l.

(** The property [id]. *)
Definition series_id (self : TestSeries) : string :=
  "s" +:+ py_str (_id self).

Definition series_dir (self : TestSeries) : string :=
  make_id_name (_id self).

(** [test_obj_from_id] with a list of ids; a single id is the list of
    that id. *)
Fixpoint test_obj_from_id (f : FS) (test_ids : list Z)
    : exn + (list TestRun * list Z) :=
  match test_ids with
  | [] => inr ([], [])
  | test_id :: rest =>
      match TestRun_load f test_id with
      | inr test =>
          match test_obj_from_id f rest with
          | inl e => inl e
          | inr (objs, failed) => inr (test :: objs, failed)
          end
      | inl TestRunError | inl TestRunNotFoundError =>
          match test_obj_from_id f rest with
          | inl e => inl e
          | inr (objs, failed) => inr (objs, test_id :: failed)
          end
      | inl e => inl e
      end
  end.

(** [_save_series_id]. The handler of a failed write calls
    [self._logger.warning]; [has_logger] tells whether the attribute
    [_logger] of the object is set when the method runs. Where it is not,
    the handler raises [AttributeError]. *)
Definition _save_series_id (has_logger : bool) (self : TestSeries)
    (w : World) : exn + World :=
  let last_series_fn := get_login +:+ ".series" in
  match users_dir (fs w) with
  | Some files =>
      inr (set_fs w {| series_root := series_root (fs w);
                       directories := directories (fs w);
                       users_dir :=
                         Some (<[last_series_fn := series_id self]> files) |})
  | None =>
      if has_logger
      then inr (log_info w (CouldNotSaveSeriesId last_series_fn))
      else inl (AttributeError "_logger")
  end.

(** The loop of [__init__] that links the tests into the new directory:
    the exception raised, if any, and the file system as it stands
    then. *)
Fixpoint link_tests (dir : string) (l : list TestRun) (f : FS)
    : option exn * FS :=
  match l with
  | [] => (None, f)
  | test :: rest =>
      match symlink_to f dir (make_id_name (id test)) (path test) with
      | inl e =>
          if is_OSError e
          then (Some (TestSeriesError "Could not link test in series"), f)
          else (Some e, f)
      | inr f => link_tests dir rest f
      end
  end.

(** [TestSeries(pav_cfg, tests, _id)]. An absent [tests] is [None]. The
    world is returned as it stands when the constructor returns or
    raises. A series made from scratch saves its id before [self._logger]
    is assigned, which is the last statement of the constructor. *)
Definition TestSeries_init (w : World) (tests_arg : option (list TestRun))
    (_id_arg : option Z) : (exn + TestSeries) * World :=
  let tests_list := default [] tests_arg in
  let tests_map := tests_by_id tests_list in
  match _id_arg with
  | None =>
      match create_id_dir (fs w) with
      | inl e =>
          if is_OSError e
          then (inl (TestSeriesError
                       "Could not get id or series directory"), w)
          else (inl e, w)
      | inr (new_id, f) =>
          match link_tests (make_id_name new_id) tests_list f with
          | (Some e, f) => (inl e, set_fs w f)
          | (None, f) =>
              let self := {| tests := tests_map; _id := new_id |} in
              match _save_series_id false self (set_fs w f) with
              | inl e => (inl e, set_fs w f)
              | inr w => (inr self, w)
              end
          end
      end
  | Some i => (inr {| tests := tests_map; _id := i |}, w)
  end.

(** The loop of [from_id] over [os.listdir(series_path)]. *)
Fixpoint load_entries (series_path : string)
    (entries : list (string * node)) (loaded : list TestRun) (w : World)
    : (exn + list TestRun) * World :=
  match entries with
  | [] => (inr loaded, w)
  | (name, n) :: rest =>
      if is_symlink n && is_dir (fs w) n then
        match py_int name with
        | None => load_entries series_path rest loaded
                    (log_info w (BadTestId name))
        | Some test_id =>
            match TestRun_load (fs w) test_id with
            | inr test =>
                load_entries series_path rest (loaded ++ [test]) w
            | inl TestRunError =>
                load_entries series_path rest loaded
                  (log_info w (ErrorLoadingTest test_id))
            | inl e => (inl e, w)
            end
        end
      else (inl (ValueError name),
            log_info w (PollutedSeriesDirectory series_path))
  end.

(** [TestSeries.from_id(pav_cfg, id_)] *)
Definition from_id (w : World) (id_ : id_arg)
    : (exn + TestSeries) * World :=
  let parsed :=
    match id_ with
    | IdStr s =>
        match py_int (drop_first s) with
        | Some i => inr i
        | None => inl (ValueError (drop_first s))
        end
    | IdInt i => inr i
    end in
  match parsed with
  | inl e => (inl e, w)
  | inr i =>
      let series_path := make_id_name i in
      match series_root (fs w) !! series_path with
      | None => (inl (TestSeriesError "No such series found"), w)
      | Some entries =>
          match load_entries series_path entries [] w with
          | (inl e, w) => (inl e, w)
          | (inr loaded, w) => TestSeries_init w (Some loaded) (Some i)
          end
      end
  end.

(** [self.add_tests(test_objs)]: the exception raised, if any, with the
    object and the world as they stand then. *)
Fixpoint add_tests (self : TestSeries) (test_objs : list TestRun)
    (w : World) : option exn * TestSeries * World :=
  match test_objs with
  | [] => (None, self, w)
  | test :: rest =>
      let self := {| tests := <[id test := test]> (tests self);
                     _id := _id self |} in
      match symlink_to (fs w) (series_dir self) (make_id_name (id test))
              (path test) with
      | inl e =>
          if is_OSError e
          then (Some (TestSeriesError "Could not link test in series"),
                self, w)
          else (Some e, self, w)
      | inr f => add_tests self rest (set_fs w f)
      end
  end.

(** The entry [__init__] and [add_tests] make for a test, and whether a
    test can be loaded back. *)
Definition link_of (test : TestRun) : string * node :=
  (make_id_name (id test), Symlink (path test)).


(** Whether the test of an id can be loaded. *)
Definition loads_id (f : FS) (test_id : Z) : bool :=
  match TestRun_load f test_id with
  | inr _ => true
  | inl _ => false
  end.

(** What [load_user_series_id] does: it returns [None] when the file is
    not there, the stripped text of the file, or [None] after a warning
    when the file cannot be opened or read. *)
Inductive user_series_id : Type :=
  | NoSeriesFile
  | SeriesIdRead (text : string)
  | FailedToRead (file_name : string).

Definition returned_id (o : user_series_id) : option string :=
  match o with
  | SeriesIdRead text => Some text
  | NoSeriesFile | FailedToRead _ => None
  end.

(** [TestSeries.load_user_series_id(pav_cfg)]. The file is there when the
    users directory holds it; [readable] tells whether a file that is
    there can be opened and read. *)
Definition load_user_series_id (readable : string → bool) (w : World)
    : user_series_id :=
  let last_series_fn := get_login +:+ ".series" in
  match users_dir (fs w) ≫= (.!! last_series_fn) with
  | None => NoSeriesFile
  | Some text =>
      if readable last_series_fn then SeriesIdRead (py_strip text)
      else FailedToRead last_series_fn
  end.

End Registry.
End Registry.

(** ** [SeriesManager] *)

Module Scheduler.
Import Registry.

(** The section of one test in the series file,
    [series_cfg['series'][test_name]]. *)
Record series_test : Type := {
  modes : list string;
  depends_on : list string;
  depends_pass : pyval;
  only_if : gmap string (list string);
  not_if : gmap string (list string)
}.

(** [series_cfg]: the sections of the tests in file order, and the modes of
    the whole series. *)
Record series_config : Type := {
  series : list (string * series_test);
  universal_modes : list string
}.

(** [self.test_info[test_name]]; [obj] is absent until [run_test]. *)
Record TestInfo : Type := {
  configs : list config;
  args : list string;
  prev : list string;
  next : list string;
  obj : option (list TestRun)
}.

(** What the manager did, in order: a call of [run_test], a test moved to
    [finished] by [check_and_update], a test skipped, and the start of an
    iteration of the [while] loop. *)
Inductive event : Type :=
  | Launched (test_name : string)
  | Completed (test_name : string)
  | Skipped (test_name : string)
  | Polled.

Record SeriesManager : Type := {
  series_obj : TestSeries;
  series_section : list (string * series_test);
  dep_graph : gmap string (list string);
  test_info : gmap string TestInfo;
  all_tests : list string;
  started : list string;
  finished : list string;
  not_started : list string;
  trace : list event
}.

(** A method returns, or raises with the object and the world as they
    stand then. *)
Inductive outcome : Type :=
  | Ok (self : SeriesManager) (w : World)
  | Raise (e : exn) (self : SeriesManager) (w : World).

(** The constructor returns, raises, or is still in its loop when the
    fuel is spent. *)
Inductive run : Type :=
  | Returned (self : SeriesManager) (w : World)
  | Raised (e : exn) (self : SeriesManager) (w : World)
  | Looping (self : SeriesManager) (w : World).

Definition and_then (o : outcome) (k : SeriesManager → World → outcome)
    : outcome :=
  match o with
  | Ok self w => k self w
  | Raise e self w => Raise e self w
  end.

Definition set_test_info (self : SeriesManager)
    (ti : gmap string TestInfo) : SeriesManager :=
  {| series_obj := series_obj self; series_section := series_section self;
     dep_graph := dep_graph self; test_info := ti;
     all_tests := all_tests self; started := started self;
     finished := finished self; not_started := not_started self;
     trace := trace self |}.

Definition set_series_obj (self : SeriesManager) (so : TestSeries)
    : SeriesManager :=
  {| series_obj := so; series_section := series_section self;
     dep_graph := dep_graph self; test_info := test_info self;
     all_tests := all_tests self; started := started self;
     finished := finished self; not_started := not_started self;
     trace := trace self |}.

Definition set_started (self : SeriesManager) (l : list string)
    : SeriesManager :=
  {| series_obj := series_obj self; series_section := series_section self;
     dep_graph := dep_graph self; test_info := test_info self;
     all_tests := all_tests self; started := l;
     finished := finished self; not_started := not_started self;
     trace := trace self |}.

Definition set_finished (self : SeriesManager) (l : list string)
    : SeriesManager :=
  {| series_obj := series_obj self; series_section := series_section self;
     dep_graph := dep_graph self; test_info := test_info self;
     all_tests := all_tests self; started := started self;
     finished := l; not_started := not_started self;
     trace := trace self |}.

Definition set_not_started (self : SeriesManager) (l : list string)
    : SeriesManager :=
  {| series_obj := series_obj self; series_section := series_section self;
     dep_graph := dep_graph self; test_info := test_info self;
     all_tests := all_tests self; started := started self;
     finished := finished self; not_started := l;
     trace := trace self |}.

Definition record (self : SeriesManager) (ev : event) : SeriesManager :=
  {| series_obj := series_obj self; series_section := series_section self;
     dep_graph := dep_graph self; test_info := test_info self;
     all_tests := all_tests self; started := started self;
     finished := finished self; not_started := not_started self;
     trace := trace self ++ [ev] |}.

(** [d[key]] on the series section. *)
Fixpoint section_lookup (section : list (string * series_test))
    (key : string) : option series_test :=
  match section with
  | [] => None
  | (k, v) :: rest => if decide (k = key) then Some v
                      else section_lookup rest key
  end.

Definition set_obj (info : TestInfo) (l : list TestRun) : TestInfo :=
  {| configs := configs info; args := args info; prev := prev info;
     next := next info; obj := Some l |}.

Definition set_configs (info : TestInfo) (l : list config) : TestInfo :=
  {| configs := l; args := args info; prev := prev info;
     next := next info; obj := obj info |}.

(** [del config['only_if']] and [del config['not_if']] *)
Definition del_only_if (c : config) : config :=
  {| cfg_only_if := None; cfg_not_if := cfg_not_if c;
     cfg_other := cfg_other c |}.

Definition del_not_if (c : config) : config :=
  {| cfg_only_if := cfg_only_if c; cfg_not_if := None;
     cfg_other := cfg_other c |}.

(** [test.status.set(state, note)] and [test.set_run_complete()] *)
Definition status_set (t : TestRun) (state note : string) : TestRun :=
  {| id := id t; path := path t; test_config := test_config t;
     status := status t ++ [(state, note)]; run_complete := run_complete t |}.

Definition set_run_complete (t : TestRun) : TestRun :=
  {| id := id t; path := path t; test_config := test_config t;
     status := status t; run_complete := true |}.

Definition skip_note : string := "Skipping. Previous test did not PASS.".

Section Scheduler.
Context {order : SetOrder} {env : Collaborators}.

(** *** Setting up *)

(** [make_dep_graph] *)
Definition make_dep_graph (section : list (string * series_test))
    : gmap string (list string) :=
  foldl (λ g item, <[item.1 := depends_on item.2]> g) ∅ section.

(** The two merges done to each raw configuration of a test. The lists
    of a configuration are read as values, as [UnionDictionary] does: the
    configurations the resolver gives are taken to hold lists of their
    own. *)
Definition merge_conditions (test_cfg : series_test) (raw : config)
    : exn + config :=
  match cfg_only_if raw with
  | None => inl (KeyError "only_if")
  | Some raw_only_if =>
      match UnionDictionary.union_dictionary raw_only_if
              (only_if test_cfg) with
      | inl e => inl e
      | inr merged_only_if =>
          match cfg_not_if raw with
          | None => inl (KeyError "not_if")
          | Some raw_not_if =>
              match UnionDictionary.union_dictionary raw_not_if
                      (not_if test_cfg) with
              | inl e => inl e
              | inr merged_not_if =>
                  inr {| cfg_only_if := Some merged_only_if;
                         cfg_not_if := Some merged_not_if;
                         cfg_other := cfg_other raw |}
              end
          end
      end
  end.

Fixpoint merge_all (test_cfg : series_test) (raws : list config)
    : exn + list config :=
  match raws with
  | [] => inr []
  | raw :: rest =>
      match merge_conditions test_cfg raw with
      | inl e => inl e
      | inr c =>
          match merge_all test_cfg rest with
          | inl e => inl e
          | inr cs => inr (c :: cs)
          end
      end
  end.

(** [args_list] of a test. *)
Definition args_list (so : TestSeries) (all_modes : list string)
    (test_name : string) : list string :=
  ["run"; "--series-id=" +:+ series_id so]
    ++ map (λ mode, "-m" +:+ mode) all_modes ++ [test_name].

(** The tests that list [test_name] among those they depend on. *)
Definition next_list (g : gmap string (list string))
    (names : list string) (test_name : string) : list string :=
  filter (λ t_n, test_name ∈ default [] (g !! t_n)) names.

(** The entry of one test once the four setting-up loops are done. *)
Definition prepare_test (so : TestSeries) (cfg : series_config)
    (g : gmap string (list string)) (test_name : string)
    (test_cfg : series_test) : exn + TestInfo :=
  let all_modes := universal_modes cfg ++ modes test_cfg in
  match load_raw_configs [test_name] [] all_modes with
  | inl e => inl e
  | inr raw_configs =>
      match merge_all test_cfg raw_configs with
      | inl e => inl e
      | inr merged =>
          inr {| configs := merged;
                 args := args_list so all_modes test_name;
                 prev := default [] (g !! test_name);
                 next := next_list g (series cfg).*1 test_name;
                 obj := None |}
      end
  end.

Fixpoint prepare_all (so : TestSeries) (cfg : series_config)
    (g : gmap string (list string))
    (section : list (string * series_test)) (ti : gmap string TestInfo)
    : exn + gmap string TestInfo :=
  match section with
  | [] => inr ti
  | (test_name, test_cfg) :: rest =>
      match prepare_test so cfg g test_name test_cfg with
      | inl e => inl e
      | inr info => prepare_all so cfg g rest (<[test_name := info]> ti)
      end
  end.

(** The object after the setting-up loops, before any test is run. *)
Definition set_up (so : TestSeries) (cfg : series_config)
    : exn + SeriesManager :=
  let g := make_dep_graph (series cfg) in
  match prepare_all so cfg g (series cfg) ∅ with
  | inl e => inl e
  | inr ti =>
      inr {| series_obj := so; series_section := series cfg;
             dep_graph := g; test_info := ti;
             all_tests := (series cfg).*1;
             started := []; finished := []; not_started := [];
             trace := [] |}
  end.

(** *** The methods *)

Definition run_test (test_name : string) (self : SeriesManager)
    (w : World) : outcome :=
  match test_info self !! test_name with
  | None => Raise (KeyError test_name) self w
  | Some info =>
      match run_cmd (args info) w with
      | inl e => Raise e self w
      | inr (last_tests, w) =>
          let self :=
            set_test_info self
              (<[test_name := set_obj info last_tests]> (test_info self)) in
          let self := set_started self (started self ++ [test_name]) in
          Ok (record self (Launched test_name)) w
      end
  end.

Definition is_done (self : SeriesManager) (w : World)
    (test_name : string) : exn + bool :=
  match test_info self !! test_name with
  | None => inl (KeyError test_name)
  | Some info =>
      match obj info with
      | None => inr false
      | Some test_obj_list =>
          inr (forallb (RUN_COMPLETE_exists (now w)) test_obj_list)
      end
  end.

Fixpoint all_tests_passed (self : SeriesManager) (w : World)
    (test_names : list string) : exn + bool :=
  match test_names with
  | [] => inr true
  | test_name :: rest =>
      match test_info self !! test_name with
      | None => inl (KeyError test_name)
      | Some info =>
          match obj info with
          | None => inr false
          | Some test_obj_list =>
              if forallb (λ t, py_eq_str (results_result (now w) t) "PASS")
                   test_obj_list
              then all_tests_passed self w rest
              else inr false
          end
      end
  end.

(** One turn of the loop of [check_and_update]. *)
Definition update_one (test_name : string) (self : SeriesManager)
    (w : World) : outcome :=
  match is_done self w test_name with
  | inl e => Raise e self w
  | inr false => Ok self w
  | inr true =>
      match py_remove test_name (started self) with
      | inl e => Raise e self w
      | inr l =>
          let self := set_started self l in
          let self := set_finished self (finished self ++ [test_name]) in
          Ok (record self (Completed test_name)) w
      end
  end.

Fixpoint for_each (body : string → SeriesManager → World → outcome)
    (names : list string) (self : SeriesManager) (w : World) : outcome :=
  match names with
  | [] => Ok self w
  | name :: rest => and_then (body name self w) (for_each body rest)
  end.

Definition check_and_update (self : SeriesManager) (w : World) : outcome :=
  let temp_started := started self in
  for_each update_one temp_started self w.

(** *** The constructor's loops *)

(** [self.not_started.remove(test_name)] *)
Definition remove_not_started (test_name : string) (self : SeriesManager)
    (w : World) : outcome :=
  match py_remove test_name (not_started self) with
  | inl e => Raise e self w
  | inr l => Ok (set_not_started self l) w
  end.

(** The loop over the configurations of a skipped test; [seen] are the
    configurations already handled, [todo] the others. *)
Fixpoint skip_configs (test_name : string) (info : TestInfo)
    (seen todo : list config) (self : SeriesManager) (w : World)
    : outcome :=
  let store l s :=
    set_test_info s (<[test_name := set_configs info l]> (test_info s)) in
  match todo with
  | [] => Ok self w
  | config :: rest =>
      match cfg_only_if config with
      | None => Raise (KeyError "only_if") self w
      | Some _ =>
          let config := del_only_if config in
          match cfg_not_if config with
          | None =>
              Raise (KeyError "not_if")
                (store (seen ++ config :: rest) self) w
          | Some _ =>
              let config := del_not_if config in
              let self := store (seen ++ config :: rest) self in
              match new_TestRun config w with
              | inl e => Raise e self w
              | inr (skipped_test, w) =>
                  let skipped_test :=
                    status_set skipped_test STATES_COMPLETE skip_note in
                  let skipped_test := set_run_complete skipped_test in
                  match add_tests (series_obj self) [skipped_test] w with
                  | (Some e, so, w) => Raise e (set_series_obj self so) w
                  | (None, so, w) =>
                      skip_configs test_name info (seen ++ [config]) rest
                        (set_series_obj self so) w
                  end
              end
          end
      end
  end.

(** [all(wait in self.finished for wait in prev)] *)
Definition ready (self : SeriesManager) (prev_list : list string) : bool :=
  forallb (λ wait, bool_decide (wait ∈ finished self)) prev_list.

(** The two statements of both launching branches:
    [self.run_test(test_name)] and [self.not_started.remove(test_name)]. *)
Definition launch (test_name : string) (self : SeriesManager) (w : World)
    : outcome :=
  and_then (run_test test_name self w) (remove_not_started test_name).

(** The skipping branch: the loop over the configurations, then
    [self.not_started.remove(test_name)] and
    [self.finished.append(test_name)]. *)
Definition skip (test_name : string) (info : TestInfo)
    (self : SeriesManager) (w : World) : outcome :=
  and_then (skip_configs test_name info [] (configs info) self w)
    (λ self w,
       and_then (remove_not_started test_name self w)
         (λ self w,
            let self := set_finished self (finished self ++ [test_name]) in
            Ok (record self (Skipped test_name)) w)).

(** The body of [for test_name in temp_waiting]. *)
Definition evaluate (test_name : string) (self : SeriesManager)
    (w : World) : outcome :=
  match test_info self !! test_name with
  | None => Raise (KeyError test_name) self w
  | Some info =>
      if ready self (prev info) then
        match section_lookup (series_section self) test_name with
        | None => Raise (KeyError test_name) self w
        | Some test_cfg =>
            if py_eq_str (depends_pass test_cfg) "True" then
              match all_tests_passed self w (prev info) with
              | inl e => Raise e self w
              | inr true => launch test_name self w
              | inr false => skip test_name info self w
              end
            else launch test_name self w
        end
      else Ok self w
  end.

(** The body of [for test_name in self.test_info] before the loop. *)
Definition kick_off_one (test_name : string) (self : SeriesManager)
    (w : World) : outcome :=
  match test_info self !! test_name with
  | None => Raise (KeyError test_name) self w
  | Some info =>
      match prev info with
      | [] =>
          and_then (run_test test_name self w)
            (λ self w,
               Ok (set_not_started self
                     (list_of_set
                        (filter (λ t, t ∉ started self) (all_tests self))))
                  w)
      | _ :: _ => Ok self w
      end
  end.

Definition kick_off (self : SeriesManager) (w : World) : outcome :=
  for_each kick_off_one (all_tests self) self w.

(** The body of the [while] loop. *)
Definition poll (self : SeriesManager) (w : World) : outcome :=
  and_then (check_and_update (record self Polled) w)
    (λ self w,
       let temp_waiting := not_started self in
       and_then (for_each evaluate temp_waiting self w)
         (λ self w, Ok self (sleep w))).

(** [while len(self.not_started) != 0], run for at most [fuel] turns. *)
Fixpoint poll_loop (fuel : nat) (self : SeriesManager) (w : World) : run :=
  match not_started self with
  | [] => Returned self w
  | _ :: _ =>
      match fuel with
      | 0 => Looping self w
      | S fuel =>
          match poll self w with
          | Ok self w => poll_loop fuel self w
          | Raise e self w => Raised e self w
          end
      end
  end.

(** The object before the first statement of the constructor. *)
Definition blank (so : TestSeries) (cfg : series_config) : SeriesManager :=
  {| series_obj := so; series_section := series cfg; dep_graph := ∅;
     test_info := ∅; all_tests := []; started := []; finished := [];
     not_started := []; trace := [] |}.

(** [SeriesManager(pav_cfg, series_obj, series_cfg)] *)
Definition SeriesManager_init (fuel : nat) (w : World) (so : TestSeries)
    (cfg : series_config) : run :=
  match set_up so cfg with
  | inl e => Raised e (blank so cfg) w
  | inr self =>
      match kick_off self w with
      | Raise e self w => Raised e self w
      | Ok self w => poll_loop fuel self w
      end
  end.

(** *** Notions used to state the properties *)

(** The object an outcome or a run ends with. *)
Definition state_of (o : outcome) : SeriesManager :=
  match o with
  | Ok self _ => self
  | Raise _ self _ => self
  end.

Definition final (r : run) : SeriesManager :=
  match r with
  | Returned self _ => self
  | Raised _ self _ => self
  | Looping self _ => self
  end.

(** [test_info[test_name]['prev']], when the test is known. *)
Definition prev_of (self : SeriesManager) (test_name : string)
    : option (list string) :=
  prev <$> (test_info self !! test_name).

(** An event that settles what happens to a test: it is launched or
    skipped. *)
Definition decides (ev : event) (test_name : string) : Prop :=
  ev = Launched test_name ∨ ev = Skipped test_name.

(** A test has reached a terminal state within the events [tr]: it was
    moved to [finished], by completion or by skipping. *)
Definition terminal_in (tr : list event) (test_name : string) : Prop :=
  Completed test_name ∈ tr ∨ Skipped test_name ∈ tr.

(** A property of every launch or skip in [tr], given the events before
    it. *)
Definition each_decision (R : list event → event → string → Prop)
    (tr : list event) : Prop :=
  ∀ before ev after test_name,
    tr = before ++ ev :: after → decides ev test_name →
    R before ev test_name.

(** Every launch or skip comes after the terminal event of each of the
    test's prerequisites. *)
Definition gated (pv : string → option (list string)) (tr : list event)
    : Prop :=
  each_decision
    (λ before ev test_name,
       ∀ prev_list, pv test_name = Some prev_list →
         ∀ wait, wait ∈ prev_list → terminal_in before wait) tr.

(** A test without prerequisites is launched, and before the first turn
    of the loop; a test with prerequisites is decided within the loop. *)
Definition roots_first (pv : string → option (list string))
    (tr : list event) : Prop :=
  each_decision
    (λ before ev test_name,
       ∀ prev_list, pv test_name = Some prev_list →
         match prev_list with
         | [] => ev = Launched test_name ∧ Polled ∉ before
         | _ :: _ => Polled ∈ before
         end) tr.

(** What the loops keep, for the prerequisites [pv]: the events are
    gated, every finished test has its terminal event, and the [prev]
    lists are those of [pv]. *)
Definition gating_inv (pv : string → option (list string))
    (self : SeriesManager) : Prop :=
  gated pv (trace self) ∧
  (∀ wait, wait ∈ finished self → terminal_in (trace self) wait) ∧
  (∀ test_name, prev_of self test_name = pv test_name).


Definition kick_off_inv (pv : string → option (list string))
    (self : SeriesManager) : Prop :=
  roots_first pv (trace self) ∧ (Polled ∉ trace self) ∧
  (∀ test_name, prev_of self test_name = pv test_name).




(** The lists and the events of [s'] are those of [s]. *)
Definition lists_kept (s s' : SeriesManager) : Prop :=
  all_tests s' = all_tests s ∧ series_section s' = series_section s ∧
  started s' = started s ∧ finished s' = finished s ∧
  not_started s' = not_started s ∧ trace s' = trace s.

(** Every test of the series is in exactly one of the three lists. *)
Definition partitioned (self : SeriesManager) : Prop :=
  NoDup (not_started self ++ started self ++ finished self) ∧
  ∀ test_name,
    test_name ∈ all_tests self ↔
    test_name ∈ not_started self ++ started self ++ finished self.

(** The names in the three lists. *)
Definition members (self : SeriesManager) : list string :=
  not_started self ++ started self ++ finished self.

(** The tests are in the three lists, each once: with names that are all
    different, this is [partitioned]. *)
Definition lists_inv (self : SeriesManager) : Prop :=
  NoDup (all_tests self) ∧ members self ≡ₚ all_tests self.

(** The dependencies of a series name tests of the series and go down
    along [rank]: the graph has no cycle. *)
Definition acyclic_by (rank : string → nat) (cfg : series_config) : Prop :=
  ∀ test_name test_cfg wait,
    (test_name, test_cfg) ∈ series cfg → wait ∈ depends_on test_cfg →
    wait ∈ (series cfg).*1 ∧ (rank wait < rank test_name)%nat.

(** A test run has its completion marker from some time on, and every
    test run the run command yields does. *)
Definition completes (t : TestRun) : Prop :=
  ∃ T : nat, ∀ k, (T ≤ k)%nat → RUN_COMPLETE_exists k t = true.

Definition eventually_complete : Prop :=
  ∀ args f last_tests f' t,
    run_cmd_run args f = inr (last_tests, f') → t ∈ last_tests →
    completes t.

(** What the loop keeps when the graph has no cycle: on top of
    [lists_inv], the tests are known, their [prev] lists are those of [pv],
    which name tests and go down along [rank], a started test has its test
    runs, and every test run completes. *)
Record sched_inv (pv : string → option (list string))
    (rank : string → nat) (self : SeriesManager) : Prop := {
  inv_lists : lists_inv self;
  inv_known : ∀ n, n ∈ all_tests self → is_Some (test_info self !! n);
  inv_prev : ∀ n, prev_of self n = pv n;
  inv_rank : ∀ n ps p, pv n = Some ps → p ∈ ps →
                       p ∈ all_tests self ∧ (rank p < rank n)%nat;
  inv_obj : ∀ n, n ∈ started self →
                 ∃ info l, test_info self !! n = Some info ∧
                           obj info = Some l;
  inv_completes : ∀ n info l t, test_info self !! n = Some info →
                                obj info = Some l → t ∈ l → completes t
}.




(** An exception that comes from outside the manager: one a collaborator
    raised, or the error of a link that could not be made. *)
Definition external (e : exn) : Prop :=
  (∃ args f, run_cmd_run args f = inl e) ∨
  (∃ c f, TestRun_new c f = inl e) ∨
  (∃ tests host modes, load_raw_configs tests host modes = inl e) ∨
  e = TestSeriesError "Could not link test in series".

(** A configuration that still has its two conditional dictionaries, and
    the resolver yielding only such configurations. *)
Definition conditions_kept (c : config) : Prop :=
  is_Some (cfg_only_if c) ∧ is_Some (cfg_not_if c).

Definition raw_configs_complete : Prop :=
  ∀ tests host modes l,
    load_raw_configs tests host modes = inr l → Forall conditions_kept l.

(** What the loop keeps of the series file: the section and the names are
    those of [cfg], and a test not yet started has its configurations
    untouched. *)
Record safe_inv (cfg : series_config) (self : SeriesManager) : Prop := {
  safe_section : series_section self = series cfg;
  safe_names : all_tests self = (series cfg).*1;
  safe_configs : ∀ n info, n ∈ not_started self →
                           test_info self !! n = Some info →
                           Forall conditions_kept (configs info)
}.

(** An outcome or a run that did not raise, or raised an exception from
    outside. *)
Definition no_fault (o : outcome) : Prop :=
  match o with
  | Ok _ _ => True
  | Raise e _ _ => external e
  end.

Definition no_fault_run (r : run) : Prop :=
  match r with
  | Raised e _ _ => external e
  | _ => True
  end.

(** The world an outcome ends with. *)
Definition world_of (o : outcome) : World :=
  match o with
  | Ok _ w => w
  | Raise _ _ w => w
  end.

(** The tests launched or skipped within the events [tr], in order, and
    the number of turns of the loop begun within them. *)
Definition decision (ev : event) : option string :=
  match ev with
  | Launched test_name | Skipped test_name => Some test_name
  | Completed _ | Polled => None
  end.

Definition decided (tr : list event) : list string := omap decision tr.

Definition is_Polled (ev : event) : bool :=
  match ev with
  | Polled => true
  | _ => false
  end.

Definition turns (tr : list event) : nat :=
  length (filter (λ ev, is_Polled ev) tr).

(** A test that was launched and whose test runs all have the result
    ['PASS']. *)
Definition passed (self : SeriesManager) (w : World) (test_name : string)
    : Prop :=
  ∃ info test_obj_list,
    test_info self !! test_name = Some info ∧
    obj info = Some test_obj_list ∧
    ∀ t, t ∈ test_obj_list → results_result (now w) t = PyStr "PASS".

(** From [s] to [s'] tests have only moved forward: what was finished
    still is, nothing new waits, what is started was started or waiting,
    and the events of [s] are the first events of [s']. *)
Definition moved_forward (s s' : SeriesManager) : Prop :=
  (∀ n, n ∈ finished s → n ∈ finished s') ∧
  (∀ n, n ∈ not_started s' → n ∈ not_started s) ∧
  (∀ n, n ∈ started s' → n ∈ started s ∨ n ∈ not_started s) ∧
  (∀ n, n ∈ finished s' →
        n ∈ finished s ∨ n ∈ started s ∨ n ∈ not_started s) ∧
  trace s `prefix_of` trace s'.

(** Every completion within the events [tr] comes after the launch of
    its test. *)
Definition completed_after_launch (tr : list event) : Prop :=
  ∀ before after n,
    tr = before ++ Completed n :: after → Launched n ∈ before.


(** [is_done] has returned [True]. *)
Definition done_now (self : SeriesManager) (w : World)
    (test_name : string) : bool :=
  match is_done self w test_name with
  | inr b => b
  | inl _ => false
  end.

End Scheduler.
End Scheduler.

(** ** A sample installation

    One way the collaborators can behave, to run the functions on: ids are
    written with seven digits; a new test run takes the next free number
    and gets a directory; every launch makes one test run; a test run is
    complete from the second second on; all results are the same given
    value. *)

Module Sample.
Import Registry Scheduler.

Definition zero_padded (i : Z) : string :=
  let digits := py_str i in
  String.concat "" (replicate (7 - String.length digits) "0") +:+ digits.

Definition decimal (s : string) : option Z :=
  Z.of_int <$> NilZero.int_of_string s.

Definition test_dir (i : Z) : string := "test_runs/" +:+ zero_padded i.

Definition blank_config : config :=
  {| cfg_only_if := Some ∅; cfg_not_if := Some ∅; cfg_other := [] |}.

Definition stored_run (i : Z) (c : config) : TestRun :=
  {| id := i; path := test_dir i; test_config := c; status := [];
     run_complete := false |}.

Definition new_run (c : config) (f : FS) : TestRun * FS :=
  let i := Z.of_nat (S (size (directories f))) in
  (stored_run i c,
   {| series_root := series_root f;
      directories := {[test_dir i]} ∪ directories f;
      users_dir := users_dir f |}).

Definition new_series_dir (f : FS) : exn + (Z * FS) :=
  let i := Z.of_nat (S (size (series_root f))) in
  match series_root f !! zero_padded i with
  | Some _ => inl OSError
  | None => inr (i, {| series_root := <[zero_padded i := []]> (series_root f);
                       directories := directories f;
                       users_dir := users_dir f |})
  end.

(** A stored test run loads when its directory is there and holds no file
    named [corrupt]. *)
Definition load_run (f : FS) (i : Z) : exn + TestRun :=
  if bool_decide (test_dir i ∈ directories f) then
    if bool_decide (test_dir i +:+ "/corrupt" ∈ directories f)
    then inl TestRunError
    else inr (stored_run i blank_config)
  else inl TestRunNotFoundError.

Definition collaborators (result : pyval) : Collaborators :=
  {| make_id_name := zero_padded;
     py_int := decimal;
     get_login := "tester";
     create_id_dir := new_series_dir;
     TestRun_load := load_run;
     TestRun_new := λ c f, inr (new_run c f);
     load_raw_configs := λ _ _ _, inr [blank_config];
     run_cmd_run := λ _ f, let '(t, f) := new_run blank_config f in
                           inr ([t], f);
     RUN_COMPLETE_exists := λ n _, bool_decide (2 ≤ n)%nat;
     results_result := λ _ _, result;
     STATES_COMPLETE := "COMPLETE" |}.

Definition passing : Collaborators := collaborators (PyStr "PASS").
Definition failing : Collaborators := collaborators (PyStr "FAIL").

(** A working directory with the empty directory of series 1. *)
Definition start : World :=
  {| fs := {| series_root := {[ "0000001" := [] ]};
              directories := ∅;
              users_dir := Some ∅ |};
     now := 0;
     logged := [] |}.

Definition series_1 : TestSeries := {| tests := ∅; _id := 1 |}.

Definition test_section (deps : list string) (gate : pyval) : series_test :=
  {| modes := []; depends_on := deps; depends_pass := gate;
     only_if := ∅; not_if := ∅ |}.

(** One test; a test and a second that needs the first to pass; two tests
    that wait for each other. *)
Definition single : series_config :=
  {| series := [("A", test_section [] (PyStr "False"))];
     universal_modes := [] |}.

Definition chain : series_config :=
  {| series := [("A", test_section [] (PyStr "False"));
                ("B", test_section ["A"] (PyStr "True"))];
     universal_modes := [] |}.

Definition cycle : series_config :=
  {| series := [("A", test_section ["B"] (PyStr "False"));
                ("B", test_section ["A"] (PyStr "False"))];
     universal_modes := [] |}.

(** The same with [depends_pass] written ['true']. *)
Definition chain_lower : series_config :=
  {| series := [("A", test_section [] (PyStr "False"));
                ("B", test_section ["A"] (PyStr "true"))];
     universal_modes := [] |}.

(** The manager and the world once the tests without prerequisites were
    launched, two seconds have passed and [check_and_update] has run. *)
Definition after_first_tests `{Collaborators} (cfg : series_config)
    : SeriesManager * World :=
  match set_up series_1 cfg with
  | inl _ => (blank series_1 cfg, start)
  | inr self =>
      match kick_off self start with
      | Raise _ self w => (self, w)
      | Ok self w =>
          match check_and_update self (sleep (sleep w)) with
          | Ok self w | Raise _ self w => (self, w)
          end
      end
  end.

(** Three stored test runs, the second of them corrupt. *)
Definition three_runs : World :=
  {| fs := {| series_root := ∅;
              directories := {[ test_dir 1; test_dir 2; test_dir 3;
                                test_dir 2 +:+ "/corrupt" ]};
              users_dir := Some ∅ |};
     now := 0;
     logged := [] |}.

(** The same collaborators with a test run 2 whose directory cannot be
    read. *)
Definition unreadable : Collaborators :=
  {| make_id_name := zero_padded;
     py_int := decimal;
     get_login := "tester";
     create_id_dir := new_series_dir;
     TestRun_load := λ f i, if decide (i = 2%Z) then inl OSError
                            else load_run f i;
     TestRun_new := λ c f, inr (new_run c f);
     load_raw_configs := λ _ _ _, inr [blank_config];
     run_cmd_run := λ _ f, let '(t, f) := new_run blank_config f in
                           inr ([t], f);
     RUN_COMPLETE_exists := λ n _, bool_decide (2 ≤ n)%nat;
     results_result := λ _ _, PyStr "PASS";
     STATES_COMPLETE := "COMPLETE" |}.






(** The three stored test runs and a series 1 whose second link is named
    after a test run that is not stored. *)
Definition stray_link : World :=
  set_fs three_runs
    {| series_root :=
         {[ "0000001" := [("0000001", Symlink (test_dir 1));
                          ("0000004", Symlink (test_dir 1));
                          ("0000003", Symlink (test_dir 3))] ]};
       directories := directories (fs three_runs);
       users_dir := users_dir (fs three_runs) |}.

(** The three stored test runs in a working directory whose users
    directory cannot be written. *)
Definition no_users_dir : World :=
  {| fs := {| series_root := series_root (fs three_runs);
              directories := directories (fs three_runs);
              users_dir := None |};
     now := 0;
     logged := [] |}.

(** The manager once set up, and the manager and the world once the tests
    without prerequisites were launched. *)
Definition prepared `{Collaborators} (cfg : series_config) : SeriesManager :=
  match set_up series_1 cfg with
  | inl _ => blank series_1 cfg
  | inr self => self
  end.

Definition launched `{Collaborators} (cfg : series_config)
    : SeriesManager * World :=
  match kick_off (prepared cfg) start with
  | Ok self w | Raise _ self w => (self, w)
  end.
End Sample.

(** * Properties *)

(** ** [list.remove] *)

Lemma py_remove_NoDup (x : string) (l : list string) :
  NoDup l → x ∈ l →
  ∃ r, py_remove x l = inr r ∧ NoDup r ∧ ∀ y, y ∈ r ↔ y ∈ l ∧ y ≠ x.
Proof.
  induction l as [|y l IH]; intros Hnd Hin.
  - by apply elem_of_nil in Hin.
  - apply NoDup_cons in Hnd as [Hy Hnd]. simpl.
    destruct (decide (x = y)) as [->|Hne].
    + exists l. split_and!; [done..|].
      intros z. rewrite elem_of_cons. naive_solver.
    + apply elem_of_cons in Hin as [?|Hin]; [done|].
      destruct (IH Hnd Hin) as (r & -> & Hr & Hmem).
      exists (y :: r). split_and!; [done| |].
      * apply NoDup_cons. split; [|done]. rewrite Hmem. naive_solver.
      * intros z. rewrite !elem_of_cons, Hmem. naive_solver.
Qed.

(** ** [union_dictionary] *)

Module UnionDictionaryFacts.
Import UnionDictionary.
Section Merge.
Context {order : SetOrder}.
Abbreviation dict := (gmap string (list string)).

Lemma first_loop_spec (dict2 : dict) (items : list (string * list string))
    (new_dict : dict) (dict2_keys : list string) :
  NoDup items.*1 → NoDup dict2_keys →
  (∀ k, k ∈ items.*1 → is_Some (dict2 !! k) → k ∈ dict2_keys) →
  ∃ new_dict' dict2_keys',
    first_loop dict2 items (new_dict, dict2_keys)
      = inr (new_dict', dict2_keys') ∧
    NoDup dict2_keys' ∧
    (∀ k, k ∈ dict2_keys' ↔
          k ∈ dict2_keys ∧ ¬ (k ∈ items.*1 ∧ is_Some (dict2 !! k))) ∧
    (∀ k, new_dict' !! k =
          match (list_to_map items : gmap string (list string)) !! k with
          | Some l1 => merged_value (Some l1) (dict2 !! k)
          | None => new_dict !! k
          end).
Proof.
  revert new_dict dict2_keys.
  induction items as [|[key l1] items IH]; intros new_dict ks Hnd Hks Hin.
  - exists new_dict, ks. simpl. split_and!; [done..| |done].
    intros k. rewrite elem_of_nil. naive_solver.
  - rewrite fmap_cons in Hnd. apply NoDup_cons in Hnd as [Hkey Hnd].
    change (key ∉ items.*1) in Hkey.
    cbn [first_loop first_loop_body].
    destruct (dict2 !! key) as [l2|] eqn:Hk2.
    + destruct (py_remove_NoDup key ks Hks) as (ks1 & -> & Hks1 & Hmem1).
      { apply Hin; [simpl; left|by rewrite Hk2]. }
      destruct (IH (<[key:=list_of_set (l1 ++ l2)]> (<[key:=l1]> new_dict))
                  ks1 Hnd Hks1) as (nd' & ks' & -> & Hnd' & Hmem' & Hlk).
      { intros k Hk Hsome. apply Hmem1. split.
        - apply Hin; [simpl; by right|done].
        - intros ->. done. }
      exists nd', ks'. split_and!; [done..| |].
      * intros k. rewrite Hmem', Hmem1. simpl. rewrite elem_of_cons.
        split.
        -- intros [[? ?] ?]. naive_solver.
        -- intros [? Hn]. split_and!; [done| |naive_solver].
           intros ->. apply Hn. split; [by left|by rewrite Hk2].
      * intros k. rewrite Hlk, list_to_map_cons.
        destruct (decide (k = key)) as [->|Hne].
        -- pose proof (not_elem_of_list_to_map_1 (M:=gmap string) items key Hkey) as HN.
           rewrite HN, !lookup_insert_eq, Hk2. done.
        -- rewrite !(lookup_insert_ne _ key k) by congruence. done.
    + destruct (IH (<[key:=l1]> new_dict) ks Hnd Hks)
        as (nd' & ks' & -> & Hnd' & Hmem' & Hlk).
      { intros k Hk Hsome. apply Hin; [simpl; by right|done]. }
      exists nd', ks'. split_and!; [done..| |].
      * intros k. rewrite Hmem'. simpl. rewrite elem_of_cons.
        split.
        -- intros [? Hn]. split; [done|]. intros [[->|?] Hs].
           ++ rewrite Hk2 in Hs. by destruct Hs.
           ++ naive_solver.
        -- naive_solver.
      * intros k. rewrite Hlk, list_to_map_cons.
        destruct (decide (k = key)) as [->|Hne].
        -- pose proof (not_elem_of_list_to_map_1 (M:=gmap string) items key Hkey) as HN.
           rewrite HN, !lookup_insert_eq, Hk2. done.
        -- rewrite !(lookup_insert_ne _ key k) by congruence. done.
Qed.

Lemma second_loop_spec (dict2 : dict) (dict2_keys : list string)
    (new_dict : dict) :
  (∀ k, k ∈ dict2_keys → is_Some (dict2 !! k)) →
  ∃ r, second_loop dict2 dict2_keys new_dict = inr r ∧
    ∀ k, r !! k = if decide (k ∈ dict2_keys) then dict2 !! k
                  else new_dict !! k.
Proof.
  revert new_dict.
  induction dict2_keys as [|key ks IH]; intros new_dict Hks.
  - exists new_dict. split; [done|]. intros k.
    destruct (decide (k ∈ [])) as [H|]; [by apply elem_of_nil in H|done].
  - simpl. destruct (Hks key) as [l2 Hl2]; [by left|]. rewrite Hl2.
    destruct (IH (<[key:=l2]> new_dict)) as (r & -> & Hr).
    { intros k Hk. apply Hks. by right. }
    exists r. split; [done|]. intros k. rewrite Hr.
    destruct (decide (k ∈ ks)) as [Hin|Hnin].
    + rewrite decide_True; [done|by right].
    + destruct (decide (k = key)) as [->|Hne].
      * rewrite lookup_insert_eq, decide_True; [done|by left].
      * rewrite lookup_insert_ne by done.
        rewrite decide_False; [done|].
        rewrite elem_of_cons. naive_solver.
Qed.

(** The function never raises, and computes the key-wise merge. *)
Lemma union_dictionary_merge (dict1 dict2 : dict) :
  union_dictionary dict1 dict2 = inr (merge merged_value dict1 dict2).
Proof.
  unfold union_dictionary.
  destruct (first_loop_spec dict2 (map_to_list dict1) ∅
              (map_to_list dict2).*1)
    as (nd & ks & -> & Hks & Hmem & Hlk).
  { apply NoDup_fst_map_to_list. }
  { apply NoDup_fst_map_to_list. }
  { intros k _ [v Hv]. apply list_elem_of_fmap.
    exists (k, v). split; [done|]. by apply elem_of_map_to_list. }
  destruct (second_loop_spec dict2 ks nd) as (r & -> & Hr).
  { intros k Hk. apply Hmem in Hk as [Hk _].
    apply list_elem_of_fmap in Hk as ([k' v] & -> & Hkv).
    apply elem_of_map_to_list in Hkv. by exists v. }
  f_equal. apply map_eq. intros k.
  rewrite Hr, lookup_merge, Hlk, list_to_map_to_list, lookup_empty.
  assert (Hin2 : k ∈ (map_to_list dict2).*1 ↔ is_Some (dict2 !! k)).
  { rewrite list_elem_of_fmap. split.
    - intros ([k' v] & -> & Hkv). apply elem_of_map_to_list in Hkv.
      by exists v.
    - intros [v Hv]. exists (k, v). split; [done|].
      by apply elem_of_map_to_list. }
  assert (Hin1 : k ∈ (map_to_list dict1).*1 ↔ is_Some (dict1 !! k)).
  { rewrite list_elem_of_fmap. split.
    - intros ([k' v] & -> & Hkv). apply elem_of_map_to_list in Hkv.
      by exists v.
    - intros [v Hv]. exists (k, v). split; [done|].
      by apply elem_of_map_to_list. }
  destruct (decide (k ∈ ks)) as [Hk|Hk].
  - apply Hmem in Hk as [Hk2 Hn]. apply Hin2 in Hk2 as [l2 Hl2].
    rewrite Hl2. destruct (dict1 !! k) as [l1|] eqn:Hl1; [|done].
    exfalso. apply Hn. split; [|by rewrite Hl2]. apply Hin1. by exists l1.
  - destruct (dict1 !! k) as [l1|] eqn:Hl1; [done|].
    destruct (dict2 !! k) as [l2|] eqn:Hl2; [|done].
    exfalso. apply Hk, Hmem. split.
    + apply Hin2. by exists l2.
    + intros [H1 _]. apply Hin1 in H1 as [? ?]. congruence.
Qed.

(** On values, the merge has the keys of its two arguments; a key of both
    maps to a duplicate-free list holding exactly the elements of the two
    value lists; a key of one argument only keeps that argument's list. *)
Lemma union_dictionary_on_values (dict1 dict2 : dict) :
  ∃ merged : dict,
    union_dictionary dict1 dict2 = inr merged ∧
    dom merged = dom dict1 ∪ dom dict2 ∧
    (∀ key l1 l2, dict1 !! key = Some l1 → dict2 !! key = Some l2 →
       ∃ l, merged !! key = Some l ∧ NoDup l ∧
            ∀ x, x ∈ l ↔ x ∈ l1 ∨ x ∈ l2) ∧
    (∀ key l1, dict1 !! key = Some l1 → dict2 !! key = None →
       merged !! key = Some l1) ∧
    (∀ key l2, dict1 !! key = None → dict2 !! key = Some l2 →
       merged !! key = Some l2).
Proof.
  exists (merge merged_value dict1 dict2).
  split; [apply union_dictionary_merge|].
  split_and!.
  - apply set_eq. intros k.
    rewrite elem_of_union, !elem_of_dom, lookup_merge.
    destruct (dict1 !! k), (dict2 !! k); simpl;
      rewrite <- ?not_eq_None_Some; naive_solver.
  - intros key l1 l2 H1 H2. rewrite lookup_merge, H1, H2. simpl.
    eexists. split; [done|]. split; [apply list_of_set_NoDup|].
    intros x. rewrite list_of_set_elem_of. apply elem_of_app.
  - intros key l1 H1 H2. by rewrite lookup_merge, H1, H2.
  - intros key l2 H1 H2. by rewrite lookup_merge, H1, H2.
Qed.

(** X1. Merging with the empty dictionary, on either side, returns the
    other dictionary as it is: no key is added and no list is rebuilt. *)
Theorem union_dictionary_with_empty (d : gmap string (list string)) :
  union_dictionary d ∅ = inr d ∧ union_dictionary ∅ d = inr d.
Proof.
  rewrite !union_dictionary_merge.
  split; f_equal; apply map_eq; intros k;
    rewrite lookup_merge, lookup_empty; by destruct (d !! k).
Qed.

(** On values, the two orders of the arguments give dictionaries with
    the same keys, and under each key lists with the same elements. *)
Lemma union_dictionary_on_values_commutes
    (dict1 dict2 : gmap string (list string)) :
  ∃ merged merged',
    union_dictionary dict1 dict2 = inr merged ∧
    union_dictionary dict2 dict1 = inr merged' ∧
    dom merged = dom merged' ∧
    ∀ key l, merged !! key = Some l →
      ∃ l', merged' !! key = Some l' ∧ ∀ x, x ∈ l ↔ x ∈ l'.
Proof.
  rewrite !union_dictionary_merge. eexists _, _.
  split_and!; [done..| |].
  - apply set_eq. intros k. rewrite !elem_of_dom, !lookup_merge.
    destruct (dict1 !! k), (dict2 !! k); simpl;
      rewrite <- ?not_eq_None_Some; naive_solver.
  - intros key l. rewrite !lookup_merge.
    destruct (dict1 !! key) as [l1|], (dict2 !! key) as [l2|]; simpl;
      intros [= <-]; eexists; (split; [done|]); try done.
    intros x. rewrite !list_of_set_elem_of, !elem_of_app. tauto.
Qed.
End Merge.

(** The only_if of a test that adds a value to a shared key and a key of
    its own. *)
Example union_dictionary_example :
  union_dictionary
    (<["user" := ["alice"; "bob"]]> (<["sys_os" := ["linux"]]> ∅))
    (<["user" := ["bob"; "carol"]]> (<["weekday" := ["Monday"]]> ∅))
  = inr (<["user" := ["alice"; "bob"; "carol"]]>
          (<["sys_os" := ["linux"]]> (<["weekday" := ["Monday"]]> ∅))).
Proof. vm_compute. reflexivity. Qed.

End UnionDictionaryFacts.

(** ** [union_dictionary] on list objects *)

Module UnionDictionaryStoreFacts.
Import UnionDictionaryStore.
Section Merge.
Context {order : SetOrder}.

Lemma first_loop_store (dict2 : gmap string positive)
    (items : list (string * positive)) (new_dict : gmap string positive)
    (dict2_keys : list string) (h : store) :
  NoDup items.*1 → NoDup items.*2 → NoDup dict2_keys →
  (∀ k, k ∈ items.*1 → is_Some (dict2 !! k) → k ∈ dict2_keys) →
  (∀ l, l ∈ items.*2 → l ∈ dom h) →
  (∀ k l, dict2 !! k = Some l → l ∈ dom h ∧ l ∉ items.*2) →
  ∃ new_dict' dict2_keys' h',
    first_loop dict2 items (new_dict, dict2_keys, h)
      = inr (new_dict', dict2_keys', h') ∧
    NoDup dict2_keys' ∧
    (∀ k, k ∈ dict2_keys' ↔
          k ∈ dict2_keys ∧ ¬ (k ∈ items.*1 ∧ is_Some (dict2 !! k))) ∧
    dom h ⊆ dom h' ∧
    (∀ x, x ∈ dom h → x ∉ items.*2 → h' !!! x = h !!! x) ∧
    (∀ k, k ∉ items.*1 → new_dict' !! k = new_dict !! k) ∧
    (∀ k l1, (k, l1) ∈ items →
       match dict2 !! k with
       | Some l2 =>
           h' !!! l1 = h !!! l1 ++ h !!! l2 ∧
           ∃ copy, new_dict' !! k = Some copy ∧ (copy ∉ dom h) ∧
                   h' !!! copy = list_of_set (h !!! l1 ++ h !!! l2)
       | None => new_dict' !! k = Some l1 ∧ h' !!! l1 = h !!! l1
       end).
Proof.
  revert new_dict dict2_keys h.
  induction items as [|[key l1] items IH];
    intros nd ks h Hnd1 Hnd2 Hks Hin Hdom Hd2.
  - exists nd, ks, h. simpl. split_and!; try done.
    + intros k. rewrite elem_of_nil. naive_solver.
    + intros k l Hk. by apply elem_of_nil in Hk.
  - rewrite fmap_cons in Hnd1. rewrite fmap_cons in Hnd2.
    apply NoDup_cons in Hnd1 as [Hkey Hnd1].
    apply NoDup_cons in Hnd2 as [Hl1 Hnd2].
    change (key ∉ items.*1) in Hkey. change (l1 ∉ items.*2) in Hl1.
    assert (Hl1dom : l1 ∈ dom h) by (apply Hdom; simpl; by left).
    cbn [first_loop first_loop_body].
    destruct (dict2 !! key) as [l2|] eqn:Hk2.
    + destruct (py_remove_NoDup key ks Hks) as (ks1 & -> & Hks1 & Hmem1).
      { apply Hin; [simpl; by left|by rewrite Hk2]. }
      destruct (Hd2 key l2 Hk2) as [Hl2dom Hl2not].
      set (h1 := <[l1 := h !!! l1 ++ h !!! l2]> h).
      set (copy := fresh (dom h1)).
      assert (Hcopy : copy ∉ dom h1) by apply is_fresh.
      assert (Hdom1 : dom h ⊆ dom h1).
      { unfold h1. apply dom_insert_subseteq. }
      assert (Hcopy0 : copy ∉ dom h) by set_solver.
      assert (Hh1 : h1 !!! l1 = h !!! l1 ++ h !!! l2).
      { unfold h1. by rewrite lookup_total_insert_eq. }
      rewrite Hh1.
      set (h2 := <[copy := list_of_set (h !!! l1 ++ h !!! l2)]> h1).
      assert (Hdom2 : dom h1 ⊆ dom h2).
      { unfold h2. apply dom_insert_subseteq. }
      assert (Hframe2 : ∀ x, x ∈ dom h → x ≠ l1 → h2 !!! x = h !!! x).
      { intros x Hx Hne. unfold h2, h1.
        rewrite lookup_total_insert_ne by (intros ->; done).
        by rewrite lookup_total_insert_ne. }
      destruct (IH (<[key := copy]> (<[key := l1]> nd)) ks1 h2 Hnd1 Hnd2 Hks1)
        as (nd' & ks' & h' & -> & Hks' & Hmem' & Hdom' & Hframe & Hnd' & Hit).
      { intros k Hk Hsome. apply Hmem1. split.
        - apply Hin; [simpl; by right|done].
        - intros ->. done. }
      { intros l Hl. apply Hdom2, Hdom1, Hdom. simpl. by right. }
      { intros k l Hkl. destruct (Hd2 k l Hkl) as [Hld Hln]. split.
        - by apply Hdom2, Hdom1.
        - intros Hl. apply Hln. simpl. by right. }
      exists nd', ks', h'. split_and!; [done|done| | | | |].
      * intros k. rewrite Hmem', Hmem1. simpl. rewrite elem_of_cons.
        split.
        -- intros [[? ?] ?]. naive_solver.
        -- intros [? Hn]. split_and!; [done| |naive_solver].
           intros ->. apply Hn. split; [by left|by rewrite Hk2].
      * set_solver.
      * intros x Hx Hnot. simpl in Hnot. apply not_elem_of_cons in Hnot
          as [Hne Hnot].
        rewrite Hframe; [by apply Hframe2| |done]. by apply Hdom2, Hdom1.
      * intros k Hk. simpl in Hk. apply not_elem_of_cons in Hk as [Hne Hk].
        rewrite Hnd' by done. by rewrite !lookup_insert_ne.
      * intros k l Hkl. apply elem_of_cons in Hkl as [[= -> ->]|Hkl].
        -- rewrite Hk2. split.
           ++ rewrite Hframe; [|by apply Hdom2, Hdom1|done].
              unfold h2. rewrite lookup_total_insert_ne by (intros ->; done).
              done.
           ++ exists copy. split_and!; [|done|].
              ** rewrite Hnd' by done. apply lookup_insert_eq.
              ** rewrite Hframe.
                 --- unfold h2. by rewrite lookup_total_insert_eq.
                 --- apply elem_of_dom. unfold h2.
                     rewrite lookup_insert_eq. by eexists.
                 --- intros Hc. apply Hcopy0, Hdom. simpl. by right.
        -- assert (Hl : l ∈ items.*2).
           { apply list_elem_of_fmap. by exists (k, l). }
           assert (Hne : l ≠ l1) by (intros ->; done).
           assert (Hld : l ∈ dom h) by (apply Hdom; simpl; by right).
           specialize (Hit k l Hkl).
           destruct (dict2 !! k) as [l2'|] eqn:Hk2'.
           ++ destruct Hit as (Hext & c & Hc & Hcn & Hcv).
              destruct (Hd2 k l2' Hk2') as [Hl2d Hl2n].
              assert (Hne2 : l2' ≠ l1).
              { intros ->. apply Hl2n. simpl. by left. }
              rewrite !Hframe2 in Hext, Hcv by done.
              split; [done|]. exists c. split_and!; [done| |done].
              intros Hcd. by apply Hcn, Hdom2, Hdom1.
           ++ destruct Hit as [Hc Hv]. by rewrite Hframe2 in Hv.
    + destruct (IH (<[key := l1]> nd) ks h Hnd1 Hnd2 Hks)
        as (nd' & ks' & h' & -> & Hks' & Hmem' & Hdom' & Hframe & Hnd' & Hit).
      { intros k Hk Hsome. apply Hin; [simpl; by right|done]. }
      { intros l Hl. apply Hdom. simpl. by right. }
      { intros k l Hkl. destruct (Hd2 k l Hkl) as [Hld Hln]. split; [done|].
        intros Hl. apply Hln. simpl. by right. }
      exists nd', ks', h'. split_and!; [done|done| |done| | |].
      * intros k. rewrite Hmem'. simpl. rewrite elem_of_cons.
        split.
        -- intros [? Hn]. split; [done|]. intros [[->|?] Hs].
           ++ rewrite Hk2 in Hs. by destruct Hs.
           ++ naive_solver.
        -- naive_solver.
      * intros x Hx Hnot. simpl in Hnot. apply not_elem_of_cons in Hnot
          as [Hne Hnot]. by apply Hframe.
      * intros k Hk. simpl in Hk. apply not_elem_of_cons in Hk as [Hne Hk].
        rewrite Hnd' by done. by rewrite lookup_insert_ne.
      * intros k l Hkl. apply elem_of_cons in Hkl as [[= -> ->]|Hkl];
          [|by apply Hit].
        rewrite Hk2. split.
        -- rewrite Hnd' by done. apply lookup_insert_eq.
        -- by apply Hframe.
Qed.

Lemma second_loop_store (dict2 : gmap string positive)
    (dict2_keys : list string) (new_dict : gmap string positive) :
  (∀ k, k ∈ dict2_keys → is_Some (dict2 !! k)) →
  ∃ r, second_loop dict2 dict2_keys new_dict = inr r ∧
    ∀ k, r !! k = if decide (k ∈ dict2_keys) then dict2 !! k
                  else new_dict !! k.
Proof.
  revert new_dict.
  induction dict2_keys as [|key ks IH]; intros new_dict Hks.
  - exists new_dict. split; [done|]. intros k.
    destruct (decide (k ∈ [])) as [H|]; [by apply elem_of_nil in H|done].
  - simpl. destruct (Hks key) as [l2 Hl2]; [by left|]. rewrite Hl2.
    destruct (IH (<[key:=l2]> new_dict)) as (r & -> & Hr).
    { intros k Hk. apply Hks. by right. }
    exists r. split; [done|]. intros k. rewrite Hr.
    destruct (decide (k ∈ ks)) as [Hin|Hnin].
    + rewrite decide_True; [done|by right].
    + destruct (decide (k = key)) as [->|Hne].
      * rewrite lookup_insert_eq, decide_True; [done|by left].
      * rewrite lookup_insert_ne by done.
        rewrite decide_False; [done|].
        rewrite elem_of_cons. naive_solver.
Qed.

(** The first loop whatever lists are shared: no list loses a value, and
    the list under a key of the first dictionary holds at least what the
    two dictionaries held under it. *)
Lemma first_loop_shared (dict2 : gmap string positive)
    (items : list (string * positive)) (new_dict : gmap string positive)
    (dict2_keys : list string) (h : store) :
  NoDup items.*1 → NoDup dict2_keys →
  (∀ k, k ∈ items.*1 → is_Some (dict2 !! k) → k ∈ dict2_keys) →
  ∃ new_dict' dict2_keys' h',
    first_loop dict2 items (new_dict, dict2_keys, h)
      = inr (new_dict', dict2_keys', h') ∧
    NoDup dict2_keys' ∧
    (∀ k, k ∈ dict2_keys' ↔
          k ∈ dict2_keys ∧ ¬ (k ∈ items.*1 ∧ is_Some (dict2 !! k))) ∧
    (∀ x v, v ∈ h !!! x → v ∈ h' !!! x) ∧
    (∀ k, k ∉ items.*1 → new_dict' !! k = new_dict !! k) ∧
    (∀ k l1, (k, l1) ∈ items →
       ∃ l', new_dict' !! k = Some l' ∧
         (∀ v, v ∈ h !!! l1 → v ∈ h' !!! l') ∧
         (∀ l2, dict2 !! k = Some l2 →
                ∀ v, v ∈ h !!! l2 → v ∈ h' !!! l')).
Proof.
  revert new_dict dict2_keys h.
  induction items as [|[key l1] items IH]; intros nd ks h Hnd1 Hks Hin.
  - exists nd, ks, h. simpl. split_and!; try done.
    + intros k. rewrite elem_of_nil. naive_solver.
    + intros k l Hk. by apply elem_of_nil in Hk.
  - rewrite fmap_cons in Hnd1. apply NoDup_cons in Hnd1 as [Hkey Hnd1].
    change (key ∉ items.*1) in Hkey.
    cbn [first_loop first_loop_body].
    destruct (dict2 !! key) as [l2|] eqn:Hk2.
    + destruct (py_remove_NoDup key ks Hks) as (ks1 & -> & Hks1 & Hmem1).
      { apply Hin; [simpl; by left|by rewrite Hk2]. }
      set (h1 := <[l1 := h !!! l1 ++ h !!! l2]> h).
      set (copy := fresh (dom h1)).
      assert (Hcopy : copy ∉ dom h1) by apply is_fresh.
      assert (Hh1 : h1 !!! l1 = h !!! l1 ++ h !!! l2).
      { unfold h1. by rewrite lookup_total_insert_eq. }
      rewrite Hh1.
      set (h2 := <[copy := list_of_set (h !!! l1 ++ h !!! l2)]> h1).
      assert (Hgrow1 : ∀ x v, v ∈ h !!! x → v ∈ h1 !!! x).
      { intros x v Hv. unfold h1. destruct (decide (x = l1)) as [->|Hne].
        - rewrite lookup_total_insert_eq. apply elem_of_app. by left.
        - by rewrite lookup_total_insert_ne. }
      assert (Hgrow2 : ∀ x v, v ∈ h !!! x → v ∈ h2 !!! x).
      { intros x v Hv. apply Hgrow1 in Hv. unfold h2.
        destruct (decide (x = copy)) as [->|Hne].
        - apply not_elem_of_dom in Hcopy.
          rewrite lookup_total_alt, Hcopy in Hv. by apply elem_of_nil in Hv.
        - by rewrite lookup_total_insert_ne. }
      destruct (IH (<[key := copy]> (<[key := l1]> nd)) ks1 h2 Hnd1 Hks1)
        as (nd' & ks' & h' & -> & Hks' & Hmem' & Hgrow & Hnd' & Hit).
      { intros k Hk Hsome. apply Hmem1. split.
        - apply Hin; [simpl; by right|done].
        - intros ->. done. }
      exists nd', ks', h'. split_and!; [done|done| | | |].
      * intros k. rewrite Hmem', Hmem1. simpl. rewrite elem_of_cons.
        split.
        -- intros [[? ?] ?]. naive_solver.
        -- intros [? Hn]. split_and!; [done| |naive_solver].
           intros ->. apply Hn. split; [by left|by rewrite Hk2].
      * intros x v Hv. by apply Hgrow, Hgrow2.
      * intros k Hk. simpl in Hk. apply not_elem_of_cons in Hk as [Hne Hk].
        rewrite Hnd' by done. by rewrite !lookup_insert_ne.
      * intros k l Hkl. apply elem_of_cons in Hkl as [[= -> ->]|Hkl].
        -- exists copy.
           assert (Hheld : ∀ v, v ∈ h !!! l1 ++ h !!! l2 → v ∈ h' !!! copy).
           { intros v Hv. apply Hgrow. unfold h2.
             rewrite lookup_total_insert_eq. by apply list_of_set_elem_of. }
           split_and!.
           ++ rewrite Hnd' by done. apply lookup_insert_eq.
           ++ intros v Hv. apply Hheld, elem_of_app. by left.
           ++ intros l2' Hl2' v Hv. assert (l2' = l2) as -> by congruence.
              apply Hheld, elem_of_app. by right.
        -- destruct (Hit k l Hkl) as (l' & Hl' & Hfirst & Hsecond).
           exists l'. split_and!; [done| |].
           ++ intros v Hv. by apply Hfirst, Hgrow2.
           ++ intros l2' Hl2' v Hv. by apply (Hsecond l2' Hl2'), Hgrow2.
    + destruct (IH (<[key := l1]> nd) ks h Hnd1 Hks)
        as (nd' & ks' & h' & -> & Hks' & Hmem' & Hgrow & Hnd' & Hit).
      { intros k Hk Hsome. apply Hin; [simpl; by right|done]. }
      exists nd', ks', h'. split_and!; [done|done| |done| |].
      * intros k. rewrite Hmem'. simpl. rewrite elem_of_cons.
        split.
        -- intros [? Hn]. split; [done|]. intros [[->|?] Hs].
           ++ rewrite Hk2 in Hs. by destruct Hs.
           ++ naive_solver.
        -- naive_solver.
      * intros k Hk. simpl in Hk. apply not_elem_of_cons in Hk as [Hne Hk].
        rewrite Hnd' by done. by rewrite lookup_insert_ne.
      * intros k l Hkl. apply elem_of_cons in Hkl as [[= -> ->]|Hkl];
          [|by apply Hit].
        exists l1. split_and!.
        -- rewrite Hnd' by done. apply lookup_insert_eq.
        -- intros v Hv. by apply Hgrow.
        -- intros l2 Hl2. congruence.
Qed.

(** What [union_dictionary] does to dictionaries none of whose lists is
    shared: it returns, agrees with the function on values, and leaves the
    store as described. *)
Lemma union_dictionary_store
    (dict1_items : list (string * positive)) (dict2 : gmap string positive)
    (h : store) :
  NoDup dict1_items.*1 → NoDup dict1_items.*2 →
  (∀ l, l ∈ dict1_items.*2 → l ∈ dom h) →
  (∀ k l, dict2 !! k = Some l → l ∈ dom h ∧ l ∉ dict1_items.*2) →
  ∃ new_dict h',
    union_dictionary dict1_items dict2 h = inr (new_dict, h') ∧
    UnionDictionary.union_dictionary
      (read h (list_to_map dict1_items)) (read h dict2)
      = inr (read h' new_dict) ∧
    (∀ key l1, (key, l1) ∈ dict1_items →
       match dict2 !! key with
       | Some l2 =>
           h' !!! l1 = h !!! l1 ++ h !!! l2 ∧
           ∃ copy, new_dict !! key = Some copy ∧ (copy ∉ dom h)
       | None => new_dict !! key = Some l1 ∧ h' !!! l1 = h !!! l1
       end) ∧
    (∀ key l2, dict2 !! key = Some l2 →
       h' !!! l2 = h !!! l2 ∧
       (key ∉ dict1_items.*1 → new_dict !! key = Some l2)).
Proof.
  intros Hnd1 Hnd2 Hdom Hd2. unfold union_dictionary.
  assert (Hin2 : ∀ k, k ∈ (map_to_list dict2).*1 ↔ is_Some (dict2 !! k)).
  { intros k. rewrite list_elem_of_fmap. split.
    - intros ([k' v] & -> & Hkv). apply elem_of_map_to_list in Hkv.
      by exists v.
    - intros [v Hv]. exists (k, v). split; [done|].
      by apply elem_of_map_to_list. }
  destruct (first_loop_store dict2 dict1_items ∅ (map_to_list dict2).*1 h
              Hnd1 Hnd2)
    as (nd & ks & h' & -> & Hks & Hmem & Hdom' & Hframe & Hnd & Hit);
    [apply NoDup_fst_map_to_list| |done|done|].
  { intros k _ Hk. by apply Hin2. }
  destruct (second_loop_store dict2 ks nd) as (r & -> & Hr).
  { intros k Hk. apply Hmem in Hk as [Hk _]. by apply Hin2. }
  assert (Hfst : ∀ k l, (k, l) ∈ dict1_items → k ∈ dict1_items.*1).
  { intros k l Hkl. apply list_elem_of_fmap. by exists (k, l). }
  assert (Hkeep : ∀ k l, (k, l) ∈ dict1_items → r !! k = nd !! k).
  { intros k l Hkl. rewrite Hr.
    destruct (decide (k ∈ ks)) as [Hk|Hk]; [|done].
    apply Hmem in Hk as [Hk2 Hn]. destruct (dict2 !! k) as [l2|] eqn:Hl2.
    - exfalso. apply Hn. split; [by eapply Hfst|by eexists].
    - apply Hin2 in Hk2 as [? ?]. congruence. }
  assert (Honly2 : ∀ k l2, dict2 !! k = Some l2 → k ∉ dict1_items.*1 →
                           r !! k = Some l2).
  { intros k l2 Hl2 Hk. rewrite Hr, decide_True; [done|].
    apply Hmem. split; [apply Hin2; by eexists|]. tauto. }
  exists r, h'. split_and!; [done| | |].
  - rewrite UnionDictionaryFacts.union_dictionary_merge. f_equal.
    apply map_eq. intros k. unfold read.
    rewrite lookup_merge, !lookup_fmap.
    destruct (list_to_map dict1_items !! k) as [l1|] eqn:H1.
    + apply elem_of_list_to_map in H1; [|done].
      rewrite (Hkeep k l1 H1). specialize (Hit k l1 H1).
      destruct (dict2 !! k) as [l2|] eqn:H2; simpl.
      * destruct Hit as (_ & c & -> & _ & Hc). simpl. by rewrite Hc.
      * destruct Hit as [-> Hv]. simpl. by rewrite Hv.
    + apply not_elem_of_list_to_map in H1.
      destruct (dict2 !! k) as [l2|] eqn:H2; simpl.
      * rewrite (Honly2 k l2 H2 H1). simpl.
        destruct (Hd2 k l2 H2) as [Hld Hln]. by rewrite Hframe.
      * rewrite Hr. rewrite decide_False.
        -- rewrite Hnd by done. by rewrite lookup_empty.
        -- intros Hk. apply Hmem in Hk as [Hk _]. apply Hin2 in Hk as [? ?].
           congruence.
  - intros key l1 Hkl. rewrite (Hkeep key l1 Hkl). specialize (Hit key l1 Hkl).
    destruct (dict2 !! key) as [l2|]; [|done].
    destruct Hit as (Hext & c & Hc & Hcn & _). split; [done|]. by exists c.
  - intros key l2 H2. destruct (Hd2 key l2 H2) as [Hld Hln]. split.
    + by apply Hframe.
    + by apply Honly2.
Qed.

(** X30. With no list shared between two keys of the first dictionary or
    between the two dictionaries, [union_dictionary] returns the key-wise
    merge of what the dictionaries held, and on the way changes its first
    argument: under a key of both, the list of the first dictionary has
    been extended in place with the list of the second, and the dictionary
    returned holds a new list; under a key of the first only it holds the
    very list of the first, under a key of the second only the very list
    of the second, whose lists are left as they were. *)
Theorem union_dictionary_extends_the_lists_of_dict1
    (dict1_items : list (string * positive)) (dict2 : gmap string positive)
    (h : store) :
  NoDup dict1_items.*1 → NoDup dict1_items.*2 →
  (∀ l, l ∈ dict1_items.*2 → l ∈ dom h) →
  (∀ k l, dict2 !! k = Some l → l ∈ dom h ∧ l ∉ dict1_items.*2) →
  ∃ new_dict h',
    union_dictionary dict1_items dict2 h = inr (new_dict, h') ∧
    UnionDictionary.union_dictionary
      (read h (list_to_map dict1_items)) (read h dict2)
      = inr (read h' new_dict) ∧
    (∀ key l1, (key, l1) ∈ dict1_items →
       match dict2 !! key with
       | Some l2 =>
           h' !!! l1 = h !!! l1 ++ h !!! l2 ∧
           ∃ copy, new_dict !! key = Some copy ∧ (copy ∉ dom h)
       | None => new_dict !! key = Some l1 ∧ h' !!! l1 = h !!! l1
       end) ∧
    (∀ key l2, dict2 !! key = Some l2 →
       h' !!! l2 = h !!! l2 ∧
       (key ∉ dict1_items.*1 → new_dict !! key = Some l2)).
Proof.
  intros Hnd1 Hnd2 Hdom Hd2.
  destruct (union_dictionary_store dict1_items dict2 h Hnd1 Hnd2 Hdom Hd2)
    as (new_dict & h' & Hrun & Hvalues & Hfirst & Hsecond).
  exists new_dict, h'. by split_and!.
Qed.

(** C4. For two dictionaries none of whose lists is shared (no list
    object under two keys of the first, none in both dictionaries),
    [union_dictionary] returns a dictionary whose keys are the keys of its
    two arguments; a key of both maps to a duplicate-free list holding
    exactly the elements of the two lists the arguments held; a key of one
    argument only maps to the list that argument held. *)
Theorem union_dictionary_keys_and_values
    (dict1_items : list (string * positive)) (dict2 : gmap string positive)
    (h : store) :
  NoDup dict1_items.*1 → NoDup dict1_items.*2 →
  (∀ l, l ∈ dict1_items.*2 → l ∈ dom h) →
  (∀ k l, dict2 !! k = Some l → l ∈ dom h ∧ l ∉ dict1_items.*2) →
  ∃ new_dict h',
    union_dictionary dict1_items dict2 h = inr (new_dict, h') ∧
    dom (read h' new_dict)
      = dom (read h (list_to_map dict1_items)) ∪ dom (read h dict2) ∧
    (∀ key l1 l2,
       read h (list_to_map dict1_items) !! key = Some l1 →
       read h dict2 !! key = Some l2 →
       ∃ l, read h' new_dict !! key = Some l ∧ NoDup l ∧
            ∀ x, x ∈ l ↔ x ∈ l1 ∨ x ∈ l2) ∧
    (∀ key l1,
       read h (list_to_map dict1_items) !! key = Some l1 →
       read h dict2 !! key = None →
       read h' new_dict !! key = Some l1) ∧
    (∀ key l2,
       read h (list_to_map dict1_items) !! key = None →
       read h dict2 !! key = Some l2 →
       read h' new_dict !! key = Some l2).
Proof.
  intros Hnd1 Hnd2 Hdom Hd2.
  destruct (union_dictionary_store dict1_items dict2 h Hnd1 Hnd2 Hdom Hd2)
    as (new_dict & h' & Hrun & Hvalues & _).
  destruct (UnionDictionaryFacts.union_dictionary_on_values
              (read h (list_to_map dict1_items)) (read h dict2))
    as (merged & Hmerged & Hkeys & Hboth & Hfirst & Hsecond).
  rewrite Hvalues in Hmerged. injection Hmerged as <-.
  exists new_dict, h'. by split_and!.
Qed.

(** X2. With no list shared within or between the two dictionaries, the
    two orders of the arguments give dictionaries with the same keys, and
    under each key lists with the same elements: the merge commutes up to
    the order and the repetitions within the lists. *)
Theorem union_dictionary_commutes_up_to_order
    (dict1_items dict2_items : list (string * positive)) (h : store) :
  NoDup dict1_items.*1 → NoDup dict2_items.*1 →
  NoDup (dict1_items.*2 ++ dict2_items.*2) →
  (∀ l, l ∈ dict1_items.*2 ++ dict2_items.*2 → l ∈ dom h) →
  ∃ new_dict h1 new_dict' h2,
    union_dictionary dict1_items (list_to_map dict2_items) h
      = inr (new_dict, h1) ∧
    union_dictionary dict2_items (list_to_map dict1_items) h
      = inr (new_dict', h2) ∧
    dom new_dict = dom new_dict' ∧
    ∀ key l, read h1 new_dict !! key = Some l →
      ∃ l', read h2 new_dict' !! key = Some l' ∧ ∀ x, x ∈ l ↔ x ∈ l'.
Proof.
  intros Hk1 Hk2 Hlists Hdom.
  apply NoDup_app in Hlists as (Hl1 & Hapart & Hl2).
  assert (Hother : ∀ (items : list (string * positive)) k l,
            NoDup items.*1 →
            (list_to_map items : gmap string positive) !! k = Some l →
            l ∈ items.*2).
  { intros items k l Hnd Hkl. apply elem_of_list_to_map in Hkl; [|done].
    apply list_elem_of_fmap. by exists (k, l). }
  destruct (union_dictionary_store dict1_items (list_to_map dict2_items) h)
    as (new_dict & h1 & Hrun1 & Hvalues1 & _); [done|done| | |].
  { intros l Hl. apply Hdom, elem_of_app. by left. }
  { intros k l Hkl. apply Hother in Hkl; [|done]. split.
    - apply Hdom, elem_of_app. by right.
    - intros Hl. by apply (Hapart l). }
  destruct (union_dictionary_store dict2_items (list_to_map dict1_items) h)
    as (new_dict' & h2 & Hrun2 & Hvalues2 & _); [done|done| | |].
  { intros l Hl. apply Hdom, elem_of_app. by right. }
  { intros k l Hkl. apply Hother in Hkl; [|done]. split.
    - apply Hdom, elem_of_app. by left.
    - by apply Hapart. }
  destruct (UnionDictionaryFacts.union_dictionary_on_values_commutes
              (read h (list_to_map dict1_items))
              (read h (list_to_map dict2_items)))
    as (merged & merged' & Hm & Hm' & Hkeys & Hsame).
  rewrite Hvalues1 in Hm. rewrite Hvalues2 in Hm'.
  injection Hm as <-. injection Hm' as <-.
  exists new_dict, h1, new_dict', h2. split_and!; [done|done| |done].
  unfold read in Hkeys. by rewrite !dom_fmap_L in Hkeys.
Qed.

(** X31. Whatever lists the two dictionaries share, [union_dictionary]
    returns; the dictionary returned has the keys of its two arguments; no
    list of the store has lost a value; and the list returned under a key
    holds at least the values each argument held under that key. *)
Theorem union_dictionary_only_adds_values
    (dict1_items : list (string * positive)) (dict2 : gmap string positive)
    (h : store) :
  NoDup dict1_items.*1 →
  ∃ new_dict h',
    union_dictionary dict1_items dict2 h = inr (new_dict, h') ∧
    dom new_dict
      = dom (list_to_map dict1_items : gmap string positive) ∪ dom dict2 ∧
    (∀ x v, v ∈ h !!! x → v ∈ h' !!! x) ∧
    (∀ key l,
       (list_to_map dict1_items : gmap string positive) !! key = Some l ∨
       dict2 !! key = Some l →
       ∃ l', new_dict !! key = Some l' ∧
             ∀ v, v ∈ h !!! l → v ∈ h' !!! l').
Proof.
  intros Hnd1. unfold union_dictionary.
  assert (Hin2 : ∀ k, k ∈ (map_to_list dict2).*1 ↔ is_Some (dict2 !! k)).
  { intros k. rewrite list_elem_of_fmap. split.
    - intros ([k' v] & -> & Hkv). apply elem_of_map_to_list in Hkv.
      by exists v.
    - intros [v Hv]. exists (k, v). split; [done|].
      by apply elem_of_map_to_list. }
  destruct (first_loop_shared dict2 dict1_items ∅ (map_to_list dict2).*1 h
              Hnd1)
    as (nd & ks & h' & -> & Hks & Hmem & Hgrow & Hnd & Hit);
    [apply NoDup_fst_map_to_list| |].
  { intros k _ Hk. by apply Hin2. }
  destruct (second_loop_store dict2 ks nd)
    as (r & -> & Hr).
  { intros k Hk. apply Hmem in Hk as [Hk _]. by apply Hin2. }
  assert (Hfst : ∀ k l, (k, l) ∈ dict1_items → k ∈ dict1_items.*1).
  { intros k l Hkl. apply list_elem_of_fmap. by exists (k, l). }
  assert (Hone : ∀ k, k ∈ dict1_items.*1 → r !! k = nd !! k).
  { intros k Hk. rewrite Hr.
    destruct (decide (k ∈ ks)) as [Hks'|Hks']; [|done].
    apply Hmem in Hks' as [Hk2 Hn]. destruct (dict2 !! k) as [l2|] eqn:Hl2.
    - exfalso. apply Hn. split; [done|by eexists].
    - apply Hin2 in Hk2 as [? ?]. congruence. }
  assert (Honly2 : ∀ k l2, dict2 !! k = Some l2 → k ∉ dict1_items.*1 →
                           r !! k = Some l2).
  { intros k l2 Hl2 Hk. rewrite Hr, decide_True; [done|].
    apply Hmem. split; [apply Hin2; by eexists|]. tauto. }
  exists r, h'. split_and!; [done| |done|].
  - apply set_eq. intros k. rewrite elem_of_union, !elem_of_dom.
    destruct (decide (k ∈ dict1_items.*1)) as [Hk|Hk].
    + rewrite (Hone k Hk).
      apply list_elem_of_fmap in Hk as ([k' l] & Heq & Hkl).
      simpl in Heq. subst k'.
      destruct (Hit k l Hkl) as (l' & -> & _).
      split; [|by eexists]. intros _. left.
      exists l. by apply elem_of_list_to_map.
    + rewrite (not_elem_of_list_to_map_1 _ _ Hk).
      destruct (dict2 !! k) as [l2|] eqn:Hl2.
      * rewrite (Honly2 k l2 Hl2 Hk). split; [by right|by eexists].
      * rewrite Hr, decide_False.
        -- rewrite Hnd by done. rewrite lookup_empty. split; [done|].
           by intros [[? ?]|[? ?]].
        -- intros Hk'. apply Hmem in Hk' as [Hk' _].
           apply Hin2 in Hk' as [? ?]. congruence.
  - intros key l [Hl|Hl].
    + apply elem_of_list_to_map in Hl; [|done].
      rewrite (Hone key (Hfst key l Hl)).
      destruct (Hit key l Hl) as (l' & Hl' & Hfirst & _). by exists l'.
    + destruct (decide (key ∈ dict1_items.*1)) as [Hk|Hk].
      * rewrite (Hone key Hk).
        apply list_elem_of_fmap in Hk as ([k' l1] & Heq & Hkl).
        simpl in Heq. subst k'.
        destruct (Hit key l1 Hkl) as (l' & Hl' & _ & Hsecond).
        exists l'. split; [done|]. by apply Hsecond.
      * exists l. split; [by apply Honly2|]. intros v Hv. by apply Hgrow.
Qed.
End Merge.

(** A list shared by two keys of the first dictionary is extended under
    the first key before it is read under the second: the second key gets
    the values added to the first. *)
Example union_dictionary_shared_list :
  let h : store := {[ 1%positive := ["x"]; 2%positive := ["y"];
                      3%positive := ["z"] ]} in
  let dict2 : gmap string positive :=
    {[ "a" := 2%positive; "b" := 3%positive ]} in
  match union_dictionary [("a", 1%positive); ("b", 1%positive)] dict2 h with
  | inr (new_dict, h') =>
      read h' new_dict = {[ "a" := ["x"; "y"]; "b" := ["x"; "y"; "z"] ]} ∧
      h' !!! 1%positive = ["x"; "y"; "z"]
  | inl _ => False
  end.
Proof. vm_compute. split; reflexivity. Qed.

(** With a list under two keys of the first dictionary: the key ["b"] is
    in the first dictionary only, and the values returned under it are not
    the values the dictionary held under it. *)
Lemma shared_list_is_not_carried_through :
  let h : store := {[ 1%positive := ["x"]; 2%positive := ["y"] ]} in
  let dict1_items := [("a", 1%positive); ("b", 1%positive)] in
  let dict2 : gmap string positive := {[ "a" := 2%positive ]} in
  ∃ new_dict h',
    union_dictionary dict1_items dict2 h = inr (new_dict, h') ∧
    read h (list_to_map dict1_items) !! "b" = Some ["x"] ∧
    read h dict2 !! "b" = None ∧
    read h' new_dict !! "b" = Some ["x"; "y"].
Proof.
  intros h dict1_items dict2.
  destruct (union_dictionary dict1_items dict2 h) as [e|[new_dict h']]
    eqn:Hrun.
  { vm_compute in Hrun. discriminate Hrun. }
  exists new_dict, h'. split; [reflexivity|].
  vm_compute in Hrun. injection Hrun as <- <-.
  split_and!; vm_compute; reflexivity.
Qed.

Lemma union_dictionary_keys_and_values_witness :
  let h : store := {[ 1%positive := ["alice"; "bob"]; 2%positive := ["linux"];
                      3%positive := ["bob"; "carol"];
                      4%positive := ["Monday"] ]} in
  let dict2 : gmap string positive :=
    {[ "user" := 3%positive; "weekday" := 4%positive ]} in
  ∃ new_dict h',
    union_dictionary [("user", 1%positive); ("sys_os", 2%positive)] dict2 h
      = inr (new_dict, h') ∧
    (∃ l, read h' new_dict !! "user" = Some l ∧ NoDup l ∧
          ∀ x, x ∈ l ↔ x ∈ ["alice"; "bob"] ∨ x ∈ ["bob"; "carol"]) ∧
    read h' new_dict !! "sys_os" = Some ["linux"] ∧
    read h' new_dict !! "weekday" = Some ["Monday"].
Proof.
  intros h dict2.
  destruct (union_dictionary_keys_and_values
              [("user", 1%positive); ("sys_os", 2%positive)] dict2 h)
    as (new_dict & h' & Hrun & _ & Hboth & Hfirst & Hsecond).
  - apply (bool_decide_unpack _). vm_compute. exact I.
  - apply (bool_decide_unpack _). vm_compute. exact I.
  - intros l Hl. simpl in Hl.
    repeat (apply elem_of_cons in Hl as [->|Hl];
            [apply (bool_decide_unpack _); vm_compute; exact I|]).
    by apply elem_of_nil in Hl.
  - intros k l Hkl. unfold dict2 in Hkl.
    apply lookup_insert_Some in Hkl as [[<- <-]|[_ Hkl]];
      [|apply lookup_singleton_Some in Hkl as [<- <-]];
      (split; apply (bool_decide_unpack _); vm_compute; exact I).
  - exists new_dict, h'. split_and!; [exact Hrun| | |].
    + apply Hboth; vm_compute; reflexivity.
    + apply Hfirst; vm_compute; reflexivity.
    + apply Hsecond; vm_compute; reflexivity.
Defined.

Lemma union_dictionary_commutes_up_to_order_witness :
  let h : store := {[ 1%positive := ["alice"; "bob"]; 2%positive := ["linux"];
                      3%positive := ["bob"; "carol"];
                      4%positive := ["Monday"] ]} in
  let dict1_items := [("user", 1%positive); ("sys_os", 2%positive)] in
  let dict2_items := [("user", 3%positive); ("weekday", 4%positive)] in
  ∃ new_dict h1 new_dict' h2,
    union_dictionary dict1_items (list_to_map dict2_items) h
      = inr (new_dict, h1) ∧
    union_dictionary dict2_items (list_to_map dict1_items) h
      = inr (new_dict', h2) ∧
    read h1 new_dict !! "user" = Some ["alice"; "bob"; "carol"] ∧
    ∃ l', read h2 new_dict' !! "user" = Some l' ∧
          ∀ x, x ∈ ["alice"; "bob"; "carol"] ↔ x ∈ l'.
Proof.
  intros h dict1_items dict2_items.
  destruct (union_dictionary_commutes_up_to_order dict1_items dict2_items h)
    as (new_dict & h1 & new_dict' & h2 & Hrun1 & Hrun2 & _ & Hsame).
  - apply (bool_decide_unpack _). vm_compute. exact I.
  - apply (bool_decide_unpack _). vm_compute. exact I.
  - apply (bool_decide_unpack _). vm_compute. exact I.
  - intros l Hl. simpl in Hl.
    repeat (apply elem_of_cons in Hl as [->|Hl];
            [apply (bool_decide_unpack _); vm_compute; exact I|]).
    by apply elem_of_nil in Hl.
  - exists new_dict, h1, new_dict', h2.
    assert (Huser : read h1 new_dict !! "user"
                    = Some ["alice"; "bob"; "carol"]).
    { vm_compute in Hrun1. injection Hrun1 as <- <-. vm_compute.
      reflexivity. }
    split_and!; [exact Hrun1|exact Hrun2|exact Huser|].
    apply Hsame, Huser.
Defined.

Lemma union_dictionary_only_adds_values_witness :
  let h : store := {[ 1%positive := ["x"]; 2%positive := ["y"];
                      3%positive := ["z"] ]} in
  let dict2 : gmap string positive :=
    {[ "a" := 2%positive; "b" := 3%positive ]} in
  ∃ new_dict h' under_b,
    union_dictionary [("a", 1%positive); ("b", 1%positive)] dict2 h
      = inr (new_dict, h') ∧
    dom new_dict = {[ "a"; "b" ]} ∧
    new_dict !! "b" = Some under_b ∧
    "x" ∈ h' !!! under_b ∧ "z" ∈ h' !!! under_b.
Proof.
  intros h dict2.
  destruct (union_dictionary_only_adds_values
              [("a", 1%positive); ("b", 1%positive)] dict2 h)
    as (new_dict & h' & Hrun & Hkeys & _ & Hheld).
  - apply (bool_decide_unpack _). vm_compute. exact I.
  - destruct (Hheld "b" 1%positive) as (under_b & Hb & Hfirst);
      [left; vm_compute; reflexivity|].
    destruct (Hheld "b" 3%positive) as (under_b' & Hb' & Hsecond);
      [right; vm_compute; reflexivity|].
    assert (under_b' = under_b) as -> by congruence.
    exists new_dict, h', under_b.
    split_and!; [exact Hrun| |exact Hb| |].
    + rewrite Hkeys. apply (bool_decide_unpack _). vm_compute. exact I.
    + apply Hfirst. vm_compute. left.
    + apply Hsecond. vm_compute. left.
Defined.

Lemma union_dictionary_extends_the_lists_of_dict1_witness :
  let h : store := {[ 1%positive := ["alice"; "bob"]; 2%positive := ["linux"];
                      3%positive := ["bob"; "carol"];
                      4%positive := ["Monday"] ]} in
  let dict2 : gmap string positive :=
    {[ "user" := 3%positive; "weekday" := 4%positive ]} in
  ∃ new_dict h',
    union_dictionary [("user", 1%positive); ("sys_os", 2%positive)] dict2 h
      = inr (new_dict, h') ∧
    h' !!! 1%positive = ["alice"; "bob"; "bob"; "carol"].
Proof.
  intros h dict2.
  destruct (union_dictionary_extends_the_lists_of_dict1
              [("user", 1%positive); ("sys_os", 2%positive)] dict2 h)
    as (new_dict & h' & Hrun & _ & Hext & _).
  - apply (bool_decide_unpack _). vm_compute. exact I.
  - apply (bool_decide_unpack _). vm_compute. exact I.
  - intros l Hl. simpl in Hl.
    repeat (apply elem_of_cons in Hl as [->|Hl];
            [apply (bool_decide_unpack _); vm_compute; exact I|]).
    by apply elem_of_nil in Hl.
  - intros k l Hkl. unfold dict2 in Hkl.
    apply lookup_insert_Some in Hkl as [[<- <-]|[_ Hkl]];
      [|apply lookup_singleton_Some in Hkl as [<- <-]];
      (split; apply (bool_decide_unpack _); vm_compute; exact I).
  - exists new_dict, h'. split; [exact Hrun|].
    apply (Hext "user" 1%positive). left.
Defined.

End UnionDictionaryStoreFacts.

(** ** [TestSeries] *)

Module RegistryFacts.
Import Registry.
Section Registry.
Context {env : Collaborators}.

Lemma symlink_to_inr (f f' : FS) (d n tgt : string) :
  symlink_to f d n tgt = inr f' →
  ∃ entries, series_root f !! d = Some entries ∧ (n ∉ entries.*1) ∧
    series_root f' = <[d := entries ++ [(n, Symlink tgt)]]> (series_root f) ∧
    directories f' = directories f ∧ users_dir f' = users_dir f.
Proof.
  unfold symlink_to. destruct (series_root f !! d) as [entries|]; [|done].
  case_bool_decide; [done|]. intros [= <-]. by exists entries.
Qed.

Lemma symlink_to_inl (f : FS) (d n tgt : string) (e : exn) :
  symlink_to f d n tgt = inl e → e = OSError.
Proof.
  unfold symlink_to. destruct (series_root f !! d); [|congruence].
  case_bool_decide; congruence.
Qed.

(** *** The dictionary of tests *)

Lemma foldl_insert_notin (l : list TestRun) (m : gmap Z TestRun) (k : Z) :
  k ∉ map id l →
  (foldl (λ m test, <[id test := test]> m) m l) !! k = m !! k.
Proof.
  revert m. induction l as [|t l IH]; intros m Hk; [done|].
  simpl in *. rewrite not_elem_of_cons in Hk. destruct Hk as [Hne Hk].
  rewrite IH by done. by rewrite lookup_insert_ne.
Qed.

Lemma foldl_insert_in (l : list TestRun) (m : gmap Z TestRun)
    (t : TestRun) :
  NoDup (map id l) → t ∈ l →
  (foldl (λ m test, <[id test := test]> m) m l) !! id t = Some t.
Proof.
  revert m. induction l as [|t' l IH]; intros m Hnd Hin.
  - by apply elem_of_nil in Hin.
  - simpl in *. apply NoDup_cons in Hnd as [Hnotin Hnd].
    apply elem_of_cons in Hin as [->|Hin].
    + rewrite foldl_insert_notin by done. apply lookup_insert_eq.
    + by apply IH.
Qed.

Lemma foldl_insert_dom (l : list TestRun) (m : gmap Z TestRun) (k : Z)
    (t : TestRun) :
  (foldl (λ m test, <[id test := test]> m) m l) !! k = Some t →
  m !! k = Some t ∨ (t ∈ l ∧ id t = k).
Proof.
  revert m. induction l as [|t' l IH]; intros m H; [by left|].
  simpl in H. apply IH in H as [H|[H1 H2]].
  - destruct (decide (id t' = k)) as [<-|Hne].
    + rewrite lookup_insert_eq in H. injection H as ->.
      right. split; [by left|done].
    + rewrite lookup_insert_ne in H by done. by left.
  - right. split; [by right|done].
Qed.

Lemma NoDup_names_ids (l : list TestRun) :
  NoDup (map (λ t, make_id_name (id t)) l) → NoDup (map id l).
Proof.
  intros H. apply (NoDup_fmap_1 make_id_name).
  rewrite <- list_fmap_compose. exact H.
Qed.

(** *** Linking *)

Lemma link_tests_ok (dir : string) (l : list TestRun) (f f' : FS)
    (entries : list (string * node)) :
  series_root f !! dir = Some entries →
  link_tests dir l f = (None, f') →
  series_root f' = <[dir := entries ++ map link_of l]> (series_root f) ∧
  directories f' = directories f ∧ users_dir f' = users_dir f ∧
  NoDup (map (λ t, make_id_name (id t)) l) ∧
  (∀ t, t ∈ l → make_id_name (id t) ∉ (entries.*1)).
Proof.
  revert f entries. induction l as [|t l IH]; intros f entries Hdir Hlink.
  - simpl in *. injection Hlink as <-. rewrite app_nil_r.
    rewrite insert_id by done. split_and!; try done.
    + constructor.
    + intros t Ht. by apply elem_of_nil in Ht.
  - simpl in Hlink.
    destruct (symlink_to f dir (make_id_name (id t)) (path t))
      as [e|f1] eqn:Hsym.
    { destruct (is_OSError e); congruence. }
    apply symlink_to_inr in Hsym
      as (entries' & Hdir' & Hfree & Hroot & Hdirs & Husers).
    assert (entries' = entries) as -> by congruence.
    destruct (IH f1 (entries ++ [link_of t])) as (Hr & Hd & Hu & Hnd & Hnot).
    { rewrite Hroot. apply lookup_insert_eq. }
    { done. }
    split_and!.
    + rewrite Hr, Hroot, insert_insert_eq. simpl.
      by rewrite <- app_assoc.
    + congruence.
    + congruence.
    + simpl. apply NoDup_cons. split; [|done].
      intros Hin. apply list_elem_of_fmap in Hin as (t' & Heq & Ht').
      apply (Hnot t' Ht'). rewrite fmap_app, elem_of_app. right.
      simpl. rewrite <- Heq. by left.
    + intros t' Ht'. apply elem_of_cons in Ht' as [->|Ht']; [done|].
      intros Hin. apply (Hnot t' Ht'). rewrite fmap_app, elem_of_app.
      by left.
Qed.

Lemma add_tests_app (self : TestSeries) (l1 l2 : list TestRun) (w : World) :
  add_tests self (l1 ++ l2) w =
  match add_tests self l1 w with
  | (None, self', w') => add_tests self' l2 w'
  | raised => raised
  end.
Proof.
  revert self w. induction l1 as [|t l1 IH]; intros self w; [done|].
  simpl.
  destruct (symlink_to _ _ _ _) as [e|f]; [by destruct (is_OSError e)|].
  apply IH.
Qed.

Lemma add_tests_ok (self self' : TestSeries) (l : list TestRun)
    (w w' : World) (entries : list (string * node)) :
  series_root (fs w) !! series_dir self = Some entries →
  add_tests self l w = (None, self', w') →
  _id self' = _id self ∧
  tests self' = foldl (λ m test, <[id test := test]> m) (tests self) l ∧
  series_root (fs w') =
    <[series_dir self := entries ++ map link_of l]> (series_root (fs w)) ∧
  directories (fs w') = directories (fs w) ∧
  users_dir (fs w') = users_dir (fs w) ∧
  now w' = now w ∧ logged w' = logged w ∧
  NoDup (map (λ t, make_id_name (id t)) l) ∧
  (∀ t, t ∈ l → make_id_name (id t) ∉ (entries.*1)).
Proof.
  revert self w entries.
  induction l as [|t l IH]; intros self w entries Hdir Hadd.
  - simpl in *. injection Hadd as <- <-. rewrite app_nil_r.
    rewrite insert_id by done. split_and!; try done.
    + constructor.
    + intros t Ht. by apply elem_of_nil in Ht.
  - simpl in Hadd. unfold series_dir in *. simpl in Hadd.
    destruct (symlink_to (fs w) (make_id_name (_id self))
                (make_id_name (id t)) (path t)) as [e|f1] eqn:Hsym.
    { destruct (is_OSError e); congruence. }
    apply symlink_to_inr in Hsym
      as (entries' & Hdir' & Hfree & Hroot & Hdirs & Husers).
    assert (entries' = entries) as -> by congruence.
    apply (IH _ _ (entries ++ [link_of t])) in Hadd
      as (Hid & Htests & Hr & Hd & Hu & Hnow & Hlog & Hnd & Hnot).
    2:{ simpl. rewrite Hroot. apply lookup_insert_eq. }
    simpl in *. split_and!; try congruence.
    + rewrite Hr, Hroot, insert_insert_eq. by rewrite <- app_assoc.
    + apply NoDup_cons. split; [|done].
      intros Hin. apply list_elem_of_fmap in Hin as (t' & Heq & Ht').
      apply (Hnot t' Ht'). rewrite fmap_app, elem_of_app. right.
      simpl. rewrite <- Heq. by left.
    + intros t' Ht'. apply elem_of_cons in Ht' as [->|Ht']; [done|].
      intros Hin. apply (Hnot t' Ht'). rewrite fmap_app, elem_of_app.
      by left.
Qed.


Lemma add_tests_now (so : TestSeries) (l : list TestRun) (w : World) :
  now (add_tests so l w).2 = now w.
Proof.
  revert so w. induction l as [|t l IH]; intros so w; [done|].
  simpl. destruct (symlink_to (fs w) _ _ _) as [e|f].
  - by destruct (is_OSError e).
  - by rewrite IH.
Qed.

Lemma add_tests_error (so so' : TestSeries) (l : list TestRun)
    (w w' : World) (e : exn) :
  add_tests so l w = (Some e, so', w') →
  e = TestSeriesError "Could not link test in series".
Proof.
  revert so w. induction l as [|t l IH]; intros so w; [done|].
  simpl. destruct (symlink_to (fs w) _ _ _) as [e'|f] eqn:Hsym.
  - apply symlink_to_inl in Hsym as ->. simpl. by intros [= <- _ _].
  - apply IH.
Qed.

(** Without a directory for the series no link can be made. *)
Lemma add_tests_needs_dir (self self' : TestSeries) (t : TestRun)
    (l : list TestRun) (w w' : World) :
  add_tests self (t :: l) w = (None, self', w') →
  is_Some (series_root (fs w) !! series_dir self).
Proof.
  simpl. unfold series_dir. simpl.
  destruct (symlink_to (fs w) _ _ _) as [e|f1] eqn:Hsym.
  { destruct (is_OSError e); congruence. }
  apply symlink_to_inr in Hsym as (entries & Hdir & _). intros _.
  by exists entries.
Qed.

(** *** [add_tests] *)

(** C10. [add_tests] is not atomic. When the tests before the i-th were
    linked and the link of the i-th cannot be made, the call raises
    [TestSeriesError]; the object then holds the i-th test and the earlier
    ones in [tests], the series directory holds the links of the earlier
    ones, and the later tests are not looked at. *)
Theorem add_tests_not_atomic (self self_i : TestSeries) (w w_i : World)
    (earlier later : list TestRun) (test : TestRun) :
  add_tests self earlier w = (None, self_i, w_i) →
  symlink_to (fs w_i) (series_dir self) (make_id_name (id test))
    (path test) = inl OSError →
  ∃ self',
    add_tests self (earlier ++ test :: later) w
      = (Some (TestSeriesError "Could not link test in series"),
         self', w_i) ∧
    tests self' = <[id test := test]> (tests self_i) ∧
    tests self' !! id test = Some test ∧
    (∀ t, t ∈ earlier → is_Some (tests self' !! id t)) ∧
    (∀ t, t ∈ earlier → id t ≠ id test → tests self' !! id t = Some t) ∧
    (∀ t, t ∈ earlier →
       ∃ entries, series_root (fs w_i) !! series_dir self = Some entries ∧
                  link_of t ∈ entries).
Proof.
  intros Hearlier Hfail.
  assert (Hfacts :
    _id self_i = _id self ∧
    (∀ t, t ∈ earlier → tests self_i !! id t = Some t) ∧
    (∀ t, t ∈ earlier →
       ∃ entries, series_root (fs w_i) !! series_dir self = Some entries ∧
                  link_of t ∈ entries)).
  { destruct earlier as [|t0 earlier'].
    - simpl in Hearlier. injection Hearlier as <- <-.
      split_and!; [done|intros t Ht; by apply elem_of_nil in Ht..].
    - destruct (add_tests_needs_dir _ _ _ _ _ _ Hearlier) as [entries Hdir].
      destruct (add_tests_ok _ _ _ _ _ _ Hdir Hearlier)
        as (Hid & Htests & Hroot & _ & _ & _ & _ & Hnd & _).
      split_and!; [done| |].
      + intros t Ht. rewrite Htests.
        apply foldl_insert_in; [by apply NoDup_names_ids|done].
      + intros t Ht. exists (entries ++ map link_of (t0 :: earlier')).
        split; [rewrite Hroot; apply lookup_insert_eq|].
        apply elem_of_app. right. apply list_elem_of_In, in_map.
        by apply list_elem_of_In. }
  destruct Hfacts as (Hid & Hin & Hlinked).
  eexists. split_and!.
  - rewrite add_tests_app, Hearlier. simpl. unfold series_dir in *. simpl.
    rewrite Hid, Hfail. simpl. reflexivity.
  - done.
  - simpl. apply lookup_insert_eq.
  - intros t Ht. simpl. destruct (decide (id test = id t)) as [->|Hne].
    + rewrite lookup_insert_eq. by eexists.
    + rewrite lookup_insert_ne by done. rewrite Hin by done. by eexists.
  - intros t Ht Hne. simpl. rewrite lookup_insert_ne by done. by apply Hin.
  - done.
Qed.

(** *** [from_id] *)

Lemma load_entries_app (sp : string) (l1 l2 : list (string * node))
    (loaded : list TestRun) (w : World) :
  load_entries sp (l1 ++ l2) loaded w =
  match load_entries sp l1 loaded w with
  | (inr loaded1, w1) => load_entries sp l2 loaded1 w1
  | raised => raised
  end.
Proof.
  revert loaded w.
  induction l1 as [|[name n] l1 IH]; intros loaded w; [done|].
  simpl. destruct (is_symlink n && is_dir (fs w) n); [|done].
  destruct (py_int name) as [test_id|]; [|apply IH].
  destruct (TestRun_load (fs w) test_id) as [[]|test]; try done; apply IH.
Qed.

(** The loop only adds to the log. *)
Lemma load_entries_world (sp : string) (l : list (string * node))
    (loaded : list TestRun) (w : World) :
  fs (load_entries sp l loaded w).2 = fs w ∧
  now (load_entries sp l loaded w).2 = now w.
Proof.
  revert loaded w. induction l as [|[name n] l IH]; intros loaded w; [done|].
  simpl. destruct (is_symlink n && is_dir (fs w) n); [|done].
  destruct (py_int name) as [test_id|].
  - destruct (TestRun_load (fs w) test_id) as [[]|test];
      first [done | apply IH | apply (IH _ (log_info w _))].
  - apply (IH _ (log_info w _)).
Qed.

(** What it returns does not depend on the log. *)
Lemma load_entries_value (sp : string) (l : list (string * node))
    (loaded : list TestRun) (w w' : World) :
  fs w = fs w' →
  (load_entries sp l loaded w).1 = (load_entries sp l loaded w').1.
Proof.
  revert loaded w w'.
  induction l as [|[name n] l IH]; intros loaded w w' Hfs; [done|].
  simpl. rewrite <- Hfs.
  destruct (is_symlink n && is_dir (fs w) n); [|done].
  destruct (py_int name) as [test_id|].
  - destruct (TestRun_load (fs w) test_id) as [[]|test];
      first [done | by apply IH].
  - by apply IH.
Qed.

(** An entry that is not a link to a directory stops the loop with an
    exception, wherever it stands. *)
Lemma load_entries_polluted (sp : string) (l : list (string * node))
    (loaded : list TestRun) (w : World) (name : string) (n : node) :
  (name, n) ∈ l → is_symlink n && is_dir (fs w) n = false →
  ∃ e w', load_entries sp l loaded w = (inl e, w').
Proof.
  revert loaded w.
  induction l as [|[name' n'] l IH]; intros loaded w Hin Hbad.
  - by apply elem_of_nil in Hin.
  - simpl. apply elem_of_cons in Hin as [[= <- <-]|Hin].
    + rewrite Hbad. by eexists _, _.
    + destruct (is_symlink n' && is_dir (fs w) n'); [|by eexists _, _].
      destruct (py_int name') as [test_id|].
      * destruct (TestRun_load (fs w) test_id) as [[]|test];
          try (by eexists _, _); by apply IH.
      * by apply IH.
Qed.

(** So does a link to a directory whose name is a number and whose
    test raises another exception than [TestRunError] when loaded. *)
Lemma load_entries_fatal (sp : string) (l : list (string * node))
    (loaded : list TestRun) (w : World) (name : string) (n : node) :
  (name, n) ∈ l →
  is_symlink n && is_dir (fs w) n = false ∨
  (∃ test_id e, py_int name = Some test_id ∧
                TestRun_load (fs w) test_id = inl e ∧ e ≠ TestRunError) →
  ∃ e w', load_entries sp l loaded w = (inl e, w').
Proof.
  intros Hin [Hbad|(test_id & e & Hint & Hload & He)].
  { by eapply load_entries_polluted. }
  revert loaded w Hload.
  induction l as [|[name' n'] l IH]; intros loaded w Hload.
  - by apply elem_of_nil in Hin.
  - simpl. destruct (is_symlink n' && is_dir (fs w) n'); [|by eexists _, _].
    apply elem_of_cons in Hin as [[= <- <-]|Hin].
    + rewrite Hint, Hload. destruct e; try done; by eexists _, _.
    + destruct (py_int name') as [test_id'|].
      * destruct (TestRun_load (fs w) test_id') as [[]|test];
          try (by eexists _, _); by apply IH.
      * by apply IH.
Qed.

(** C7. Loading a series whose directory is missing raises
    [TestSeriesError]. In the loop over the entries, a link to a directory
    whose name is not a number, or whose test raises [TestRunError] when
    loaded, is logged and left out: what the loop returns is what it
    returns without the entry, and it goes on with the entries after it.
    An entry that is not a link to a directory is logged and raises
    [ValueError] when the loop reaches it, and a directory with such an
    entry never yields a series. A link to a directory whose test raises
    any other exception when loaded is not left out: the exception leaves
    [from_id] when the loop reaches the entry, nothing being logged for
    it, and a directory with such an entry never yields a series. *)
Theorem from_id_error_policy (w : World) (i : Z) :
  (series_root (fs w) !! make_id_name i = None →
     from_id w (IdInt i)
       = (inl (TestSeriesError "No such series found"), w) ∧
     ∀ s, py_int (drop_first s) = Some i →
       from_id w (IdStr s)
         = (inl (TestSeriesError "No such series found"), w)) ∧
  (∀ before after name n loaded,
     is_symlink n && is_dir (fs w) n = true →
     ∀ record,
       (py_int name = None ∧ record = BadTestId name) ∨
       (∃ test_id, py_int name = Some test_id ∧
          TestRun_load (fs w) test_id = inl TestRunError ∧
          record = ErrorLoadingTest test_id) →
       (load_entries (make_id_name i) (before ++ (name, n) :: after)
          loaded w).1
         = (load_entries (make_id_name i) (before ++ after) loaded w).1 ∧
       ∀ loaded1 w1,
         load_entries (make_id_name i) before loaded w = (inr loaded1, w1) →
         load_entries (make_id_name i) (before ++ (name, n) :: after)
           loaded w
           = load_entries (make_id_name i) after loaded1
               (log_info w1 record)) ∧
  (∀ before after name n,
     series_root (fs w) !! make_id_name i
       = Some (before ++ (name, n) :: after) →
     is_symlink n && is_dir (fs w) n = false →
     (∃ e w', from_id w (IdInt i) = (inl e, w')) ∧
     ∀ loaded1 w1,
       load_entries (make_id_name i) before [] w = (inr loaded1, w1) →
       from_id w (IdInt i)
         = (inl (ValueError name),
            log_info w1 (PollutedSeriesDirectory (make_id_name i)))) ∧
  (∀ before after name n test_id e,
     series_root (fs w) !! make_id_name i
       = Some (before ++ (name, n) :: after) →
     is_symlink n && is_dir (fs w) n = true →
     py_int name = Some test_id →
     TestRun_load (fs w) test_id = inl e → e ≠ TestRunError →
     (∃ e' w', from_id w (IdInt i) = (inl e', w')) ∧
     ∀ loaded1 w1,
       load_entries (make_id_name i) before [] w = (inr loaded1, w1) →
       from_id w (IdInt i) = (inl e, w1)).
Proof.
  split_and!.
  - intros Hnone. split.
    + unfold from_id. by rewrite Hnone.
    + intros s Hs. unfold from_id. by rewrite Hs, Hnone.
  - intros before after name n loaded Hlink record Hrecord.
    assert (Hstep : ∀ loaded1 w1, fs w1 = fs w →
      load_entries (make_id_name i) ((name, n) :: after) loaded1 w1
        = load_entries (make_id_name i) after loaded1 (log_info w1 record)).
    { intros loaded1 w1 Hfs. simpl. rewrite Hfs, Hlink.
      destruct Hrecord as [[-> ->]|(test_id & -> & -> & ->)]; done. }
    split.
    + rewrite !load_entries_app.
      pose proof (load_entries_world (make_id_name i) before loaded w)
        as [Hfs _].
      destruct (load_entries (make_id_name i) before loaded w)
        as [[e|loaded1] w1]; [done|].
      rewrite Hstep by done. by apply load_entries_value.
    + intros loaded1 w1 Hbefore. rewrite load_entries_app, Hbefore.
      apply Hstep.
      pose proof (load_entries_world (make_id_name i) before loaded w)
        as [Hfs _].
      by rewrite Hbefore in Hfs.
  - intros before after name n Hdir Hbad. split.
    + unfold from_id. rewrite Hdir.
      destruct (load_entries_polluted (make_id_name i)
                  (before ++ (name, n) :: after) [] w name n)
        as (e & w' & ->); [|done|by eexists _, _].
      apply elem_of_app. right. by left.
    + intros loaded1 w1 Hbefore. unfold from_id. rewrite Hdir.
      rewrite load_entries_app, Hbefore. simpl.
      pose proof (load_entries_world (make_id_name i) before [] w)
        as [Hfs _].
      rewrite Hbefore in Hfs. simpl in Hfs. by rewrite Hfs, Hbad.
  - intros before after name n test_id e Hdir Hlink Hint Hload He. split.
    + unfold from_id. rewrite Hdir.
      destruct (load_entries_fatal (make_id_name i)
                  (before ++ (name, n) :: after) [] w name n)
        as (e' & w' & ->); [| |by eexists _, _].
      * apply elem_of_app. right. by left.
      * right. by exists test_id, e.
    + intros loaded1 w1 Hbefore. unfold from_id. rewrite Hdir.
      rewrite load_entries_app, Hbefore. simpl.
      pose proof (load_entries_world (make_id_name i) before [] w)
        as [Hfs _].
      rewrite Hbefore in Hfs. simpl in Hfs.
      rewrite Hfs, Hlink, Hint, Hload. by destruct e.
Qed.

(** *** Creating a series and loading it back *)




(** *** [test_obj_from_id] *)

(** X3. When loading raises nothing but [TestRunError] and
    [TestRunNotFoundError], [test_obj_from_id] returns: the first list
    holds the tests of the ids that load, the second the ids that do not,
    both in the order of the ids, and every id is in one of them. *)
Theorem test_obj_from_id_sorts_the_ids (f : FS) (test_ids : list Z) :
  (∀ i e, i ∈ test_ids → TestRun_load f i = inl e →
          e = TestRunError ∨ e = TestRunNotFoundError) →
  ∃ objs failed,
    test_obj_from_id f test_ids = inr (objs, failed) ∧
    Forall2 (λ i t, TestRun_load f i = inr t)
      (filter (λ i, loads_id f i) test_ids) objs ∧
    failed = filter (λ i, ¬ loads_id f i) test_ids ∧
    (length objs + length failed = length test_ids)%nat.
Proof.
  induction test_ids as [|i l IH]; intros Hcaught.
  - exists [], []. by split_and!.
  - destruct IH as (objs & failed & Hrest & Hobjs & Hfailed & Hlen).
    { intros j e Hj. apply Hcaught. by right. }
    simpl. rewrite Hrest.
    destruct (TestRun_load f i) as [e|t] eqn:Hload.
    + exists objs, (i :: failed).
      assert (Hno : ¬ loads_id f i)
        by (unfold loads_id; rewrite Hload; simpl; tauto).
      rewrite !filter_cons.
      destruct (decide (loads_id f i)); [done|].
      destruct (decide (¬ loads_id f i)); [|done].
      destruct (Hcaught i e) as [-> | ->]; [by left|done|..];
        (split_and!; [done|done|by f_equal|simpl; lia]).
    + exists (t :: objs), failed.
      assert (Hyes : loads_id f i)
        by (unfold loads_id; rewrite Hload; simpl; tauto).
      rewrite !filter_cons.
      destruct (decide (loads_id f i)); [|done].
      destruct (decide (¬ loads_id f i)); [done|].
      split_and!; [done|by constructor|done|simpl; lia].
Qed.

(** X4. An exception of another class is not caught: the first id whose
    load raises one makes [test_obj_from_id] raise it, whatever the ids
    before it gave and whatever comes after. *)
Theorem test_obj_from_id_lets_others_through (f : FS)
    (before after : list Z) (i : Z) (e : exn) :
  (∀ j e', j ∈ before → TestRun_load f j = inl e' →
           e' = TestRunError ∨ e' = TestRunNotFoundError) →
  TestRun_load f i = inl e → e ≠ TestRunError → e ≠ TestRunNotFoundError →
  test_obj_from_id f (before ++ i :: after) = inl e.
Proof.
  intros Hbefore Hload Hne1 Hne2.
  induction before as [|j before IH]; simpl.
  - rewrite Hload. by destruct e.
  - rewrite IH by (intros k e' Hk; apply Hbefore; by right).
    destruct (TestRun_load f j) as [e'|t] eqn:Hj; [|done].
    destruct (Hbefore j e') as [-> | ->]; [by left|done|done..].
Qed.

(** *** [from_id] reads *)

Lemma load_entries_logged (sp : string) (l : list (string * node))
    (loaded : list TestRun) (w : World) :
  logged w `prefix_of` logged (load_entries sp l loaded w).2.
Proof.
  revert loaded w. induction l as [|[name n] l IH]; intros loaded w; [done|].
  simpl.
  assert (Hlog : ∀ r, logged w `prefix_of` logged (log_info w r)).
  { intros r. by apply prefix_app_r. }
  destruct (is_symlink n && is_dir (fs w) n); [|apply Hlog].
  destruct (py_int name) as [test_id|].
  - destruct (TestRun_load (fs w) test_id) as [[]|test];
      first [done | apply IH | (etrans; [apply (Hlog (ErrorLoadingTest test_id))|apply IH])].
  - etrans; [apply (Hlog (BadTestId name))|apply IH].
Qed.

(** X5. [from_id] changes nothing on disk and takes no time, whether it
    returns or raises: the file system and the clock are as before, and
    the log is the old log with records added at its end. *)
Theorem from_id_only_reads_and_logs (w : World) (id_ : id_arg) :
  fs (from_id w id_).2 = fs w ∧ now (from_id w id_).2 = now w ∧
  logged w `prefix_of` logged (from_id w id_).2.
Proof.
  unfold from_id.
  destruct (match id_ with
            | IdStr s => match py_int (drop_first s) with
                         | Some i => inr i
                         | None => inl (ValueError (drop_first s))
                         end
            | IdInt i => inr i
            end) as [e|i]; [done|].
  destruct (series_root (fs w) !! make_id_name i) as [entries|]; [|done].
  pose proof (load_entries_world (make_id_name i) entries [] w) as [Hfs Hnow].
  pose proof (load_entries_logged (make_id_name i) entries [] w) as Hlog.
  destruct (load_entries (make_id_name i) entries [] w) as [[e|loaded] w1];
    done.
Qed.

Lemma load_entries_from_links (sp : string) (l : list (string * node))
    (loaded loaded' : list TestRun) (w w' : World) :
  load_entries sp l loaded w = (inr loaded', w') →
  ∃ more, loaded' = loaded ++ more ∧
    ∀ t, t ∈ more →
      ∃ name target test_id,
        (name, Symlink target) ∈ l ∧ target ∈ directories (fs w) ∧
        py_int name = Some test_id ∧ TestRun_load (fs w) test_id = inr t.
Proof.
  revert loaded w. induction l as [|[name n] l IH]; intros loaded w Hload.
  - injection Hload as <- <-. exists []. rewrite app_nil_r. split; [done|].
    intros t Ht. by apply elem_of_nil in Ht.
  - simpl in Hload.
    destruct (is_symlink n && is_dir (fs w) n) eqn:Hlink; [|done].
    assert (Hrest : ∀ loaded1 r,
      load_entries sp l loaded1 (log_info w r) = (inr loaded', w') →
      ∃ more, loaded' = loaded1 ++ more ∧
        ∀ t, t ∈ more →
          ∃ name0 target test_id,
            (name0, Symlink target) ∈ (name, n) :: l ∧
            target ∈ directories (fs w) ∧
            py_int name0 = Some test_id ∧
            TestRun_load (fs w) test_id = inr t).
    { intros loaded1 r H. apply IH in H as (more & -> & Hmore).
      exists more. split; [done|]. intros t Ht.
      destruct (Hmore t Ht) as (n0 & tg & i & ? & ? & ? & ?).
      exists n0, tg, i. split_and!; [by right|done..]. }
    destruct (py_int name) as [test_id|] eqn:Hint; [|by eapply Hrest].
    destruct (TestRun_load (fs w) test_id) as [e|test] eqn:Ht.
    + destruct e; try done. by eapply Hrest.
    + apply IH in Hload as (more & -> & Hmore).
      exists (test :: more). split; [by rewrite <- app_assoc|].
      intros t Hin. apply elem_of_cons in Hin as [->|Hin].
      * destruct n as [target| |]; try done. simpl in Hlink.
        apply bool_decide_eq_true in Hlink.
        exists name, target, test_id. split_and!; [by left|done..].
      * destruct (Hmore t Hin) as (n0 & tg & i & ? & ? & ? & ?).
        exists n0, tg, i. split_and!; [by right|done..].
Qed.

(** X6. A series that [from_id] returns has the id asked for; every entry
    of its directory is a link to a directory, and every test of the
    series is stored under its own id and was loaded from the number that
    names one of these links. *)
Theorem from_id_tests_come_from_links (w w' : World) (i : Z)
    (self : TestSeries) :
  from_id w (IdInt i) = (inr self, w') →
  _id self = i ∧
  ∃ entries, series_root (fs w) !! make_id_name i = Some entries ∧
    (∀ name n, (name, n) ∈ entries →
               ∃ target, n = Symlink target ∧ target ∈ directories (fs w)) ∧
    ∀ k t, tests self !! k = Some t →
      k = id t ∧
      ∃ name target test_id,
        (name, Symlink target) ∈ entries ∧
        py_int name = Some test_id ∧ TestRun_load (fs w) test_id = inr t.
Proof.
  unfold from_id.
  destruct (series_root (fs w) !! make_id_name i) as [entries|] eqn:Hdir;
    [|done].
  destruct (load_entries (make_id_name i) entries [] w)
    as [[e|loaded] w1] eqn:Hload; [done|].
  simpl. intros [= <- <-]. split; [done|]. exists entries. split; [done|].
  split.
  - intros name n Hin.
    destruct (is_symlink n && is_dir (fs w) n) eqn:Hlink.
    + destruct n as [target| |]; try done. exists target. split; [done|].
      simpl in Hlink. by apply bool_decide_eq_true in Hlink.
    + destruct (load_entries_polluted (make_id_name i) entries [] w name n
                  Hin Hlink) as (e & w2 & Hbad). congruence.
  - intros k t Hk. simpl in Hk.
    apply foldl_insert_dom in Hk as [Hk|[Hin Hid]]; [done|].
    split; [done|].
    apply load_entries_from_links in Hload as (more & -> & Hmore).
    destruct (Hmore t Hin) as (name & target & test_id & ? & ? & ? & ?).
    by exists name, target, test_id.
Qed.

(** *** [add_tests] and the links *)

(** X8. Adding a test whose link name is already that of a test just
    added raises [TestSeriesError]: the link exists. The file system is
    left as it was, but the dictionary of the series now holds the new
    test under its id. *)
Theorem add_tests_again_raises (self self' : TestSeries) (t t' : TestRun)
    (w w' : World) :
  add_tests self [t] w = (None, self', w') →
  make_id_name (id t') = make_id_name (id t) →
  add_tests self' [t'] w'
    = (Some (TestSeriesError "Could not link test in series"),
       {| tests := <[id t' := t']> (tests self'); _id := _id self' |}, w').
Proof.
  simpl. unfold series_dir. simpl.
  destruct (symlink_to (fs w) _ _ _) as [e|f1] eqn:Hsym.
  { by destruct (is_OSError e). }
  intros [= <- <-] Hname. simpl.
  apply symlink_to_inr in Hsym as (entries & Hdir & Hfree & Hroot & _).
  unfold symlink_to. rewrite Hroot, lookup_insert_eq, Hname.
  rewrite bool_decide_eq_true_2; [done|].
  rewrite fmap_app, elem_of_app. right. simpl. by left.
Qed.

Lemma add_tests_free (self : TestSeries) (l : list TestRun) (w : World)
    (entries : list (string * node)) :
  series_root (fs w) !! series_dir self = Some entries →
  NoDup (map (λ t, make_id_name (id t)) l) →
  (∀ t, t ∈ l → make_id_name (id t) ∉ (entries.*1)) →
  ∃ self' w', add_tests self l w = (None, self', w').
Proof.
  revert self w entries.
  induction l as [|t l IH]; intros self w entries Hdir Hnd Hfree.
  - by eexists _, _.
  - simpl in *. apply NoDup_cons in Hnd as [Hnotin Hnd].
    unfold series_dir in *. simpl. unfold symlink_to at 1. rewrite Hdir.
    rewrite bool_decide_eq_false_2 by (apply Hfree; by left).
    apply (IH _ _ (entries ++ [link_of t])); [|done|].
    + simpl. apply lookup_insert_eq.
    + intros t' Ht'. rewrite fmap_app, elem_of_app. intros [Hin|Hin].
      * by apply (Hfree t'); [right|].
      * simpl in Hin. apply list_elem_of_singleton in Hin.
        apply Hnotin. rewrite <- Hin.
        apply list_elem_of_In, (in_map (λ t, make_id_name (id t))).
        by apply list_elem_of_In.
Qed.

(** X9. In a series whose directory exists, [add_tests] returns without
    raising exactly when the link names of the tests are all different and
    none of them is in the directory yet. It then has put every test in
    the dictionary and appended their links, in order, to the directory,
    and has changed nothing else. *)
Theorem add_tests_returns_iff_names_free (self : TestSeries)
    (l : list TestRun) (w : World) (entries : list (string * node)) :
  series_root (fs w) !! series_dir self = Some entries →
  ((add_tests self l w).1.1 = None ↔
   NoDup (map (λ t, make_id_name (id t)) l) ∧
   ∀ t, t ∈ l → make_id_name (id t) ∉ (entries.*1)) ∧
  ∀ self' w',
    add_tests self l w = (None, self', w') →
    _id self' = _id self ∧
    tests self' = foldl (λ m test, <[id test := test]> m) (tests self) l ∧
    fs w' = {| series_root :=
                 <[series_dir self := entries ++ map link_of l]>
                   (series_root (fs w));
               directories := directories (fs w);
               users_dir := users_dir (fs w) |} ∧
    now w' = now w ∧ logged w' = logged w.
Proof.
  intros Hdir. split.
  - split.
    + destruct (add_tests self l w) as [[r self'] w'] eqn:Hadd. simpl.
      intros ->.
      by destruct (add_tests_ok _ _ _ _ _ _ Hdir Hadd)
        as (_ & _ & _ & _ & _ & _ & _ & Hnd & Hfree).
    + intros [Hnd Hfree].
      by destruct (add_tests_free self l w entries Hdir Hnd Hfree)
        as (self' & w' & ->).
  - intros self' w' Hadd.
    destruct (add_tests_ok _ _ _ _ _ _ Hdir Hadd)
      as (Hid & Htests & Hroot & Hdirs & Husers & Hnow & Hlog & _).
    split_and!; [done..| |done|done].
    destruct (fs w') as [r d u]. simpl in *. by subst.
Qed.


(** *** Creating a series *)

Lemma link_tests_frame (dir : string) (l : list TestRun) (f : FS) :
  directories (link_tests dir l f).2 = directories f ∧
  users_dir (link_tests dir l f).2 = users_dir f ∧
  ((link_tests dir l f).1 = None ∨
   (link_tests dir l f).1
     = Some (TestSeriesError "Could not link test in series")).
Proof.
  revert f. induction l as [|t l IH]; intros f; [by split_and!; [..|left]|].
  simpl. destruct (symlink_to f dir _ _) as [e|f1] eqn:Hsym.
  - apply symlink_to_inl in Hsym as ->. simpl. split_and!; [done..|by right].
  - apply symlink_to_inr in Hsym as (entries & _ & _ & _ & Hd & Hu).
    destruct (IH f1) as (? & ? & ?). split_and!; [congruence..|done].
Qed.

Lemma link_tests_NoDup (dir : string) (l : list TestRun) (f f' : FS) :
  link_tests dir l f = (None, f') →
  NoDup (map (λ t, make_id_name (id t)) l).
Proof.
  destruct l as [|t l]; [constructor|]. intros Hlink.
  assert (is_Some (series_root f !! dir)) as [entries Hdir].
  { simpl in Hlink. destruct (symlink_to f dir _ _) as [e|f1] eqn:Hsym.
    - by destruct (is_OSError e).
    - apply symlink_to_inr in Hsym as (entries & ? & _). by exists entries. }
  by destruct (link_tests_ok _ _ _ _ _ Hdir Hlink) as (_ & _ & _ & ? & _).
Qed.

(** X11. A series cannot be created from tests two of which have the
    same link name: the constructor raises [TestSeriesError] once the
    directory is made, and leaves the users directory as it was, the id
    of the series unsaved. *)
Theorem TestSeries_init_needs_distinct_ids (w : World) (l : list TestRun)
    (new_id : Z) (f1 : FS) :
  create_id_dir (fs w) = inr (new_id, f1) →
  ¬ NoDup (map (λ t, make_id_name (id t)) l) →
  ∃ f2,
    TestSeries_init w (Some l) None
      = (inl (TestSeriesError "Could not link test in series"),
         set_fs w f2) ∧
    users_dir f2 = users_dir f1 ∧ directories f2 = directories f1.
Proof.
  intros Hnew Hdup. unfold TestSeries_init. rewrite Hnew. simpl.
  pose proof (link_tests_frame (make_id_name new_id) l f1) as (Hd & Hu & Hr).
  destruct (link_tests (make_id_name new_id) l f1) as [[e|] f2] eqn:Hlink.
  - simpl in *. destruct Hr as [|[= ->]]; [done|]. by exists f2.
  - by apply link_tests_NoDup in Hlink.
Qed.

(** X12. The dictionary built from a list of tests holds, under each id,
    the last test of the list with that id, and nothing under the other
    ids. *)
Theorem tests_by_id_last_wins (l : list TestRun) (i : Z) :
  tests_by_id l !! i = last (filter (λ t, id t = i) l).
Proof.
  unfold tests_by_id. induction l as [|t l IH] using rev_ind; [done|].
  rewrite foldl_app, filter_app. simpl.
  destruct (decide (id t = i)) as [<-|Hne].
  - rewrite lookup_insert_eq, filter_cons_True, filter_nil by done.
    by rewrite last_snoc.
  - rewrite lookup_insert_ne, filter_cons_False, filter_nil by done.
    by rewrite app_nil_r.
Qed.

(** *** The last series of the user *)

Lemma lstrip_no_space (s : string) :
  Forall (λ c, is_space c = false) (String.list_ascii_of_string s) →
  lstrip s = s.
Proof.
  destruct s as [|c s]; [done|]. simpl. intros H.
  apply Forall_cons in H as [-> _]. done.
Qed.

Lemma rstrip_no_space (s : string) :
  Forall (λ c, is_space c = false) (String.list_ascii_of_string s) →
  rstrip s = s.
Proof.
  induction s as [|c s IH]; [done|]. simpl. intros H.
  apply Forall_cons in H as [Hc H]. rewrite (IH H), Hc.
  by destruct s.
Qed.

Lemma string_of_uint_no_space (d : Decimal.uint) :
  Forall (λ c, is_space c = false)
    (String.list_ascii_of_string (NilEmpty.string_of_uint d)).
Proof.
  induction d; simpl; constructor; (done || by vm_compute).
Qed.

Lemma py_str_no_space (i : Z) :
  Forall (λ c, is_space c = false) (String.list_ascii_of_string (py_str i)).
Proof.
  unfold py_str, NilZero.string_of_int.
  destruct (Z.to_int i) as [d|d]; unfold NilZero.string_of_uint.
  - destruct d; try apply string_of_uint_no_space.
    constructor; [by vm_compute|constructor].
  - constructor; [by vm_compute|].
    destruct d; try apply string_of_uint_no_space.
    constructor; [by vm_compute|constructor].
Qed.

Lemma py_strip_series_id (self : TestSeries) :
  py_strip (series_id self) = series_id self.
Proof.
  assert (H : Forall (λ c, is_space c = false)
                (String.list_ascii_of_string (series_id self))).
  { unfold series_id. simpl. constructor; [by vm_compute|].
    apply py_str_no_space. }
  unfold py_strip. by rewrite lstrip_no_space, rstrip_no_space.
Qed.

(** X13. What [_save_series_id] writes, [load_user_series_id] reads
    back: with a users directory that can be written and a file that can be
    read, the method returns and the id loaded is the id of the series
    saved last. *)
Theorem saved_series_id_is_loaded_back (has_logger : bool)
    (self other : TestSeries) (w : World) (readable : string → bool) :
  is_Some (users_dir (fs w)) →
  readable (get_login +:+ ".series") = true →
  ∃ w1 w2 w3,
    _save_series_id has_logger self w = inr w1 ∧
    load_user_series_id readable w1 = SeriesIdRead (series_id self) ∧
    _save_series_id has_logger other w = inr w2 ∧
    _save_series_id has_logger self w2 = inr w3 ∧
    load_user_series_id readable w3 = SeriesIdRead (series_id self).
Proof.
  intros [files Hfiles] Hread.
  unfold load_user_series_id, _save_series_id. rewrite Hfiles. simpl.
  eexists _, _, _. split_and!; try reflexivity; simpl;
    rewrite !lookup_insert_eq, Hread; by rewrite py_strip_series_id.
Qed.

(** X14. A series made from scratch and the file of the user's last
    series. Whenever the constructor returns, it has written the file:
    [load_user_series_id] gives the id of the new series and nothing was
    logged. When the users directory cannot be written, the constructor
    does not return: once the directory of the series is made and the tests
    are linked, the handler of the failed write raises [AttributeError],
    because [self._logger] is assigned only afterwards; the directory and
    the links are left behind and the warning is not logged. *)
Theorem new_series_is_the_last_of_the_user (w : World)
    (tests_arg : option (list TestRun)) (readable : string → bool) :
  readable (get_login +:+ ".series") = true →
  (∀ self w',
     TestSeries_init w tests_arg None = (inr self, w') →
     is_Some (users_dir (fs w')) ∧
     load_user_series_id readable w' = SeriesIdRead (series_id self) ∧
     logged w' = logged w) ∧
  (∀ new_id f1 f2,
     create_id_dir (fs w) = inr (new_id, f1) →
     link_tests (make_id_name new_id) (default [] tests_arg) f1
       = (None, f2) →
     users_dir f2 = None →
     TestSeries_init w tests_arg None
       = (inl (AttributeError "_logger"), set_fs w f2)).
Proof.
  intros Hread. unfold TestSeries_init. split.
  - intros self w'.
    destruct (create_id_dir (fs w)) as [e|[new_id f1]].
    { by destruct (is_OSError e). }
    destruct (link_tests _ _ f1) as [[e|] f2]; [done|].
    unfold _save_series_id. simpl.
    destruct (users_dir f2) as [files|] eqn:Hu; [|done].
    intros [= <- <-]. simpl. split_and!; [done| |done].
    unfold load_user_series_id. simpl.
    rewrite lookup_insert_eq, Hread. by rewrite py_strip_series_id.
  - intros new_id f1 f2 -> Hlink Hu. simpl in *. rewrite Hlink.
    unfold _save_series_id. simpl. by rewrite Hu.
Qed.

Lemma add_tests_dom (so : TestSeries) (l : list TestRun) (w : World) :
  dom (tests so) ⊆ dom (tests (add_tests so l w).1.2).
Proof.
  revert so w. induction l as [|t l IH]; intros so w; [done|].
  simpl. destruct (symlink_to _ _ _ _) as [e|f].
  - destruct (is_OSError e); simpl; set_solver.
  - etrans; [|apply IH]. simpl. set_solver.
Qed.

(** X29. [test_obj_from_id] on two lists of ids put end to end gives
    what it gives on each, put end to end: the loaded tests of the first
    list before those of the second, and so the failed ids; it raises
    what the first list raises, or else what the second raises. *)
Theorem test_obj_from_id_of_two_lists (f : FS) (ids1 ids2 : list Z) :
  test_obj_from_id f (ids1 ++ ids2) =
  match test_obj_from_id f ids1 with
  | inl e => inl e
  | inr (objs1, failed1) =>
      match test_obj_from_id f ids2 with
      | inl e => inl e
      | inr (objs2, failed2) => inr (objs1 ++ objs2, failed1 ++ failed2)
      end
  end.
Proof.
  induction ids1 as [|i ids1 IH]; simpl.
  - by destruct (test_obj_from_id f ids2) as [e|[objs failed]].
  - rewrite IH.
    destruct (TestRun_load f i) as [[]|t]; try done;
      destruct (test_obj_from_id f ids1) as [e|[o1 f1]]; try done;
      destruct (test_obj_from_id f ids2) as [e|[o2 f2]]; done.
Qed.

End Registry.
End RegistryFacts.

(** ** [SeriesManager] *)

Module SchedulerFacts.
Import Registry Scheduler.
Section Scheduler.
Context {order : SetOrder} {env : Collaborators}.

(** *** What each method changes *)

Lemma run_test_Ok (n : string) (self self' : SeriesManager) (w w' : World) :
  run_test n self w = Ok self' w' →
  ∃ info last_tests,
    test_info self !! n = Some info ∧
    run_cmd (args info) w = inr (last_tests, w') ∧
    self' = record
              (set_started
                 (set_test_info self
                    (<[n := set_obj info last_tests]> (test_info self)))
                 (started self ++ [n]))
              (Launched n).
Proof.
  unfold run_test. destruct (test_info self !! n) as [info|]; [|done].
  destruct (run_cmd (args info) w) as [e|[l w1]] eqn:Hrun; [done|].
  intros [= <- <-]. exists info, l. split_and!; done.
Qed.

Lemma run_test_Raise (n : string) (self self' : SeriesManager)
    (w w' : World) (e : exn) :
  run_test n self w = Raise e self' w' → self' = self ∧ w' = w.
Proof.
  unfold run_test. destruct (test_info self !! n) as [info|].
  - destruct (run_cmd (args info) w) as [e'|[l w1]]; [|done].
    by intros [= _ <- <-].
  - by intros [= _ <- <-].
Qed.

Lemma remove_not_started_Ok (n : string) (self self' : SeriesManager)
    (w w' : World) :
  remove_not_started n self w = Ok self' w' →
  ∃ l, py_remove n (not_started self) = inr l ∧
       self' = set_not_started self l ∧ w' = w.
Proof.
  unfold remove_not_started.
  destruct (py_remove n (not_started self)) as [e|l]; [done|].
  intros [= <- <-]. by exists l.
Qed.

Lemma remove_not_started_Raise (n : string) (self self' : SeriesManager)
    (w w' : World) (e : exn) :
  remove_not_started n self w = Raise e self' w' → self' = self ∧ w' = w.
Proof.
  unfold remove_not_started.
  destruct (py_remove n (not_started self)) as [e'|l]; [|done].
  by intros [= _ <- <-].
Qed.

Lemma update_one_Ok (n : string) (self self' : SeriesManager)
    (w w' : World) :
  update_one n self w = Ok self' w' →
  w' = w ∧
  ((is_done self w n = inr false ∧ self' = self) ∨
   (is_done self w n = inr true ∧
    ∃ l, py_remove n (started self) = inr l ∧
         self' = record
                   (set_finished (set_started self l) (finished self ++ [n]))
                   (Completed n))).
Proof.
  unfold update_one. destruct (is_done self w n) as [e|[]]; [done| |].
  - destruct (py_remove n (started self)) as [e|l]; [done|].
    intros [= <- <-]. split; [done|]. right. split; [done|]. by exists l.
  - intros [= <- <-]. split; [done|]. by left.
Qed.

Lemma update_one_Raise (n : string) (self self' : SeriesManager)
    (w w' : World) (e : exn) :
  update_one n self w = Raise e self' w' → self' = self ∧ w' = w.
Proof.
  unfold update_one. destruct (is_done self w n) as [e'|[]].
  - by intros [= _ <- <-].
  - destruct (py_remove n (started self)) as [e'|l]; [|done].
    by intros [= _ <- <-].
  - done.
Qed.

(** *** Loops *)

(** A property kept by every turn, whether it returns or raises, holds
    when the loop is left. *)
Lemma for_each_state (P : SeriesManager → Prop)
    (body : string → SeriesManager → World → outcome)
    (names : list string) (self : SeriesManager) (w : World) :
  (∀ n s w, n ∈ names → P s → P (state_of (body n s w))) →
  P self → P (state_of (for_each body names self w)).
Proof.
  revert self w. induction names as [|n names IH]; intros self w Hbody HP.
  - done.
  - simpl. pose proof (Hbody n self w (list_elem_of_here _ _) HP) as Hn.
    destruct (body n self w) as [s1 w1|e s1 w1]; simpl in *; [|done].
    apply IH; [|done]. intros n' s' w' Hin. apply Hbody. by right.
Qed.


Lemma and_then_state (P : SeriesManager → Prop) (o : outcome)
    (k : SeriesManager → World → outcome) :
  P (state_of o) → (∀ s w, o = Ok s w → P (state_of (k s w))) →
  P (state_of (and_then o k)).
Proof. destruct o as [s w|e s w]; simpl; [|done]. intros _ H. by apply H. Qed.

(** *** Events *)

Lemma each_decision_nil (R : list event → event → string → Prop) :
  each_decision R [].
Proof. intros before ev after n H. by destruct before. Qed.

Lemma each_decision_snoc (R : list event → event → string → Prop)
    (tr : list event) (ev : event) :
  each_decision R tr → (∀ n, decides ev n → R tr ev n) →
  each_decision R (tr ++ [ev]).
Proof.
  intros Htr Hev before ev' after n Heq Hdec.
  destruct after as [|last after _] using rev_ind.
  - apply app_inj_tail in Heq as [<- <-]. by apply Hev.
  - rewrite app_comm_cons, app_assoc in Heq.
    apply app_inj_tail in Heq as [-> _]. by eapply Htr.
Qed.

Lemma terminal_in_app (tr more : list event) (n : string) :
  terminal_in tr n → terminal_in (tr ++ more) n.
Proof. unfold terminal_in. rewrite !elem_of_app. tauto. Qed.

Lemma decides_Launched (n m : string) : decides (Launched n) m → m = n.
Proof. intros [H|H]; congruence. Qed.

Lemma decides_Skipped (n m : string) : decides (Skipped n) m → m = n.
Proof. intros [H|H]; congruence. Qed.

Lemma decides_Completed (n m : string) : ¬ decides (Completed n) m.
Proof. intros [H|H]; congruence. Qed.

Lemma decides_Polled (m : string) : ¬ decides Polled m.
Proof. intros [H|H]; congruence. Qed.

(** *** The skipping loop *)

Lemma add_tests_id (so : TestSeries) (l : list TestRun) (w : World) :
  _id (add_tests so l w).1.2 = _id so.
Proof.
  revert so w. induction l as [|t l IH]; intros so w; [done|].
  simpl. destruct (symlink_to _ _ _ _) as [e|f].
  - by destruct (is_OSError e).
  - by rewrite IH.
Qed.

Local Arguments add_tests : simpl never.

Lemma skip_configs_frame (n : string) (info : TestInfo)
    (seen todo : list config) (self : SeriesManager) (w : World) :
  let s' := state_of (skip_configs n info seen todo self w) in
  lists_kept self s' ∧
  (test_info s' = test_info self ∨
   ∃ cs, test_info s' = <[n := set_configs info cs]> (test_info self)) ∧
  _id (series_obj s') = _id (series_obj self).
Proof.
  revert seen self w.
  induction todo as [|c rest IH]; intros seen self w; simpl.
  - unfold lists_kept. split_and!; first [done | by left].
  - destruct (cfg_only_if c);
      [|unfold lists_kept; split_and!; first [done | by left]].
    destruct (cfg_not_if c);
      [|unfold lists_kept; simpl; split_and!;
        first [done | right; by eexists]].
    destruct (new_TestRun _ w) as [e|[t w1]];
      [unfold lists_kept; simpl; split_and!;
       first [done | right; by eexists]|].
    pose proof (add_tests_id (series_obj self)
      [set_run_complete (status_set t STATES_COMPLETE skip_note)] w1)
      as Hid.
    destruct (add_tests _ _ w1) as [[[e|] so] w2] eqn:Hadd; simpl in Hid.
    + unfold lists_kept. simpl. split_and!;
        first [done | right; by eexists].
    + specialize (IH (seen ++ [del_not_if (del_only_if c)])
        (set_series_obj
           (set_test_info self
              (<[n := set_configs info
                        (seen ++ del_not_if (del_only_if c) :: rest)]>
                 (test_info self))) so) w2).
      simpl in IH. destruct IH as (Hk & Hti & Hso).
      split_and!; [exact Hk| |congruence].
      right. destruct Hti as [->|[cs ->]]; [by eexists|].
      exists cs. simpl. by rewrite insert_insert_eq.
Qed.

(** *** Gating *)

Lemma prev_of_insert (self : SeriesManager) (n m : string)
    (info info' : TestInfo) :
  test_info self !! n = Some info → prev info' = prev info →
  prev <$> (<[n := info']> (test_info self) !! m) = prev_of self m.
Proof.
  intros Hn Hprev. unfold prev_of. destruct (decide (n = m)) as [<-|Hne].
  - rewrite lookup_insert_eq, Hn. simpl. by rewrite Hprev.
  - by rewrite lookup_insert_ne.
Qed.

Lemma run_test_gating (pv : string → option (list string))
    (n : string) (self : SeriesManager) (w : World) :
  gating_inv pv self →
  (∀ ps, pv n = Some ps → ∀ p, p ∈ ps → terminal_in (trace self) p) →
  gating_inv pv (state_of (run_test n self w)).
Proof.
  intros (Hg & Hfin & Hpv) Hpre.
  destruct (run_test n self w) as [s' w'|e s' w'] eqn:Hrun; simpl.
  - apply run_test_Ok in Hrun as (info & l & Hinfo & _ & ->).
    split_and!; simpl.
    + apply each_decision_snoc; [done|].
      intros m Hm%decides_Launched ps Hps p Hp. subst m. by eapply Hpre.
    + intros p Hp. by apply terminal_in_app, Hfin.
    + intros m. rewrite <- Hpv. unfold prev_of at 1. simpl.
      by erewrite prev_of_insert.
  - by apply run_test_Raise in Hrun as [-> _].
Qed.

Lemma remove_not_started_gating (pv : string → option (list string))
    (n : string) (self : SeriesManager) (w : World) :
  gating_inv pv self →
  gating_inv pv (state_of (remove_not_started n self w)).
Proof.
  intros H. unfold remove_not_started.
  by destruct (py_remove n (not_started self)).
Qed.

Lemma update_one_gating (pv : string → option (list string))
    (n : string) (self : SeriesManager) (w : World) :
  gating_inv pv self → gating_inv pv (state_of (update_one n self w)).
Proof.
  intros (Hg & Hfin & Hpv).
  destruct (update_one n self w) as [s' w'|e s' w'] eqn:Hrun; simpl.
  - apply update_one_Ok in Hrun as [_ [[_ ->]|[_ (l & _ & ->)]]]; [done|].
    split_and!; simpl.
    + apply each_decision_snoc; [done|].
      intros m Hm. by apply decides_Completed in Hm.
    + intros p Hp. apply elem_of_app in Hp as [Hp|Hp].
      * by apply terminal_in_app, Hfin.
      * apply list_elem_of_singleton in Hp as ->. left.
        apply elem_of_app. right. by left.
    + done.
  - by apply update_one_Raise in Hrun as [-> _].
Qed.

Lemma launch_gating (pv : string → option (list string))
    (n : string) (self : SeriesManager) (w : World) :
  gating_inv pv self →
  (∀ ps, pv n = Some ps → ∀ p, p ∈ ps → terminal_in (trace self) p) →
  gating_inv pv (state_of (launch n self w)).
Proof.
  intros Hinv Hpre. unfold launch. apply and_then_state.
  - by apply run_test_gating.
  - intros s1 w1 Hrun. apply remove_not_started_gating.
    change s1 with (state_of (Ok s1 w1)). rewrite <- Hrun.
    by apply run_test_gating.
Qed.

Lemma skip_configs_gating (pv : string → option (list string))
    (n : string) (info : TestInfo) (seen todo : list config)
    (self : SeriesManager) (w : World) :
  test_info self !! n = Some info → gating_inv pv self →
  gating_inv pv (state_of (skip_configs n info seen todo self w)).
Proof.
  intros Hinfo (Hg & Hfin & Hpv).
  destruct (skip_configs_frame n info seen todo self w)
    as ((_ & _ & _ & Hf & _ & Htr) & Hti & _).
  split_and!.
  - by rewrite Htr.
  - rewrite Htr, Hf. done.
  - intros m. rewrite <- Hpv. unfold prev_of at 1.
    destruct Hti as [->|[cs ->]]; [done|]. by erewrite prev_of_insert.
Qed.

Lemma skip_gating (pv : string → option (list string))
    (n : string) (info : TestInfo) (self : SeriesManager) (w : World) :
  test_info self !! n = Some info → gating_inv pv self →
  (∀ p, p ∈ prev info → p ∈ finished self) →
  gating_inv pv (state_of (skip n info self w)).
Proof.
  intros Hinfo Hinv Hready. unfold skip.
  pose proof (skip_configs_gating pv n info [] (configs info) self w
                Hinfo Hinv) as H1.
  pose proof (skip_configs_frame n info [] (configs info) self w)
    as ((_ & _ & _ & Hf & _ & Htr) & _ & _).
  apply and_then_state; [done|]. intros s1 w1 Heq.
  rewrite Heq in H1, Hf, Htr. simpl in H1, Hf, Htr.
  pose proof (remove_not_started_gating pv n s1 w1 H1) as H2.
  apply and_then_state; [done|]. intros s2 w2 Heq2.
  apply remove_not_started_Ok in Heq2 as (l & _ & -> & _).
  destruct H1 as (Hg & Hfin & Hpv). split_and!; simpl.
  - apply each_decision_snoc; [done|].
    intros m Hm%decides_Skipped ps Hps p Hp. subst m.
    apply Hfin. rewrite Hf. apply Hready.
    destruct Hinv as (_ & _ & Hpv0). rewrite <- Hpv0 in Hps.
    unfold prev_of in Hps. rewrite Hinfo in Hps. simpl in Hps. congruence.
  - intros p Hp. apply elem_of_app in Hp as [Hp|Hp].
    + by apply terminal_in_app, Hfin.
    + apply list_elem_of_singleton in Hp as ->. right.
      apply elem_of_app. right. by left.
  - done.
Qed.

Lemma ready_spec (self : SeriesManager) (prev_list : list string) :
  ready self prev_list = true ↔ ∀ p, p ∈ prev_list → p ∈ finished self.
Proof.
  unfold ready. rewrite forallb_forall. split.
  - intros H p Hp. apply list_elem_of_In in Hp.
    by apply H, bool_decide_eq_true in Hp.
  - intros H p Hp. apply bool_decide_eq_true, H. by apply list_elem_of_In.
Qed.

Lemma evaluate_gating (pv : string → option (list string))
    (n : string) (self : SeriesManager) (w : World) :
  gating_inv pv self → gating_inv pv (state_of (evaluate n self w)).
Proof.
  intros Hinv. unfold evaluate.
  destruct (test_info self !! n) as [info|] eqn:Hinfo; [|done].
  destruct (ready self (prev info)) eqn:Hready; [|done].
  pose proof (proj1 (ready_spec _ _) Hready) as Hfinished.
  assert (Hpre : ∀ ps, pv n = Some ps →
                   ∀ p, p ∈ ps → terminal_in (trace self) p).
  { intros ps Hps p Hp. destruct Hinv as (_ & Hfin & Hpv).
    rewrite <- Hpv in Hps. unfold prev_of in Hps. rewrite Hinfo in Hps.
    injection Hps as <-. by apply Hfin, Hfinished. }
  destruct (section_lookup (series_section self) n) as [tc|]; [|done].
  destruct (py_eq_str (depends_pass tc) "True").
  - destruct (all_tests_passed self w (prev info)) as [e|[]]; [done| |].
    + by apply launch_gating.
    + by apply skip_gating.
  - by apply launch_gating.
Qed.

Lemma kick_off_one_gating (pv : string → option (list string))
    (n : string) (self : SeriesManager) (w : World) :
  gating_inv pv self → gating_inv pv (state_of (kick_off_one n self w)).
Proof.
  intros Hinv. unfold kick_off_one.
  destruct (test_info self !! n) as [info|] eqn:Hinfo; [|done].
  destruct (prev info) as [|p ps] eqn:Hprev; [|done].
  assert (Hrun : gating_inv pv (state_of (run_test n self w))).
  { apply run_test_gating; [done|]. intros ps Hps p Hp.
    destruct Hinv as (_ & _ & Hpv). rewrite <- Hpv in Hps.
    unfold prev_of in Hps. rewrite Hinfo in Hps. simpl in Hps.
    rewrite Hprev in Hps. injection Hps as <-. by apply elem_of_nil in Hp. }
  apply and_then_state; [done|]. intros s1 w1 Heq.
  rewrite Heq in Hrun. exact Hrun.
Qed.

Lemma poll_gating (pv : string → option (list string))
    (self : SeriesManager) (w : World) :
  gating_inv pv self → gating_inv pv (state_of (poll self w)).
Proof.
  intros (Hg & Hfin & Hpv). unfold poll, check_and_update.
  assert (H0 : gating_inv pv (record self Polled)).
  { split_and!; simpl; [|intros p Hp; by apply terminal_in_app, Hfin|done].
    apply each_decision_snoc; [done|].
    intros m Hm. by apply decides_Polled in Hm. }
  assert (H1 : gating_inv pv
            (state_of (for_each update_one (started (record self Polled))
                         (record self Polled) w))).
  { apply (for_each_state (gating_inv pv)); [|done].
    intros n s w0 _. apply update_one_gating. }
  apply and_then_state; [done|]. intros s1 w1 Heq.
  rewrite Heq in H1. simpl in H1.
  assert (H2 : gating_inv pv
            (state_of (for_each evaluate (not_started s1) s1 w1))).
  { apply (for_each_state (gating_inv pv)); [|done].
    intros n s w0 _. apply evaluate_gating. }
  apply and_then_state; [done|]. intros s2 w2 Heq2.
  by rewrite Heq2 in H2.
Qed.

Lemma poll_loop_gating (pv : string → option (list string)) (fuel : nat)
    (self : SeriesManager) (w : World) :
  gating_inv pv self → gating_inv pv (final (poll_loop fuel self w)).
Proof.
  revert self w. induction fuel as [|fuel IH]; intros self w Hinv; simpl.
  - by destruct (not_started self).
  - destruct (not_started self); [done|].
    pose proof (poll_gating pv self w Hinv) as Hpoll.
    destruct (poll self w) as [s1 w1|e s1 w1]; simpl in *; [|done].
    by apply IH.
Qed.

(** *** After setting up *)

Lemma set_up_lists (so : TestSeries) (cfg : series_config)
    (self : SeriesManager) :
  set_up so cfg = inr self →
  all_tests self = (series cfg).*1 ∧ series_section self = series cfg ∧
  started self = [] ∧ finished self = [] ∧ not_started self = [] ∧
  trace self = [] ∧ series_obj self = so.
Proof.
  unfold set_up. destruct (prepare_all _ _ _ _ _) as [e|ti]; [done|].
  by intros [= <-].
Qed.

Lemma gating_inv_start (self : SeriesManager) :
  trace self = [] → finished self = [] → gating_inv (prev_of self) self.
Proof.
  intros Htr Hfin. split_and!; [|intros p Hp|done].
  - rewrite Htr. apply each_decision_nil.
  - rewrite Hfin in Hp. by apply elem_of_nil in Hp.
Qed.

Lemma init_gating (fuel : nat) (w : World) (so : TestSeries)
    (cfg : series_config) :
  let self := final (SeriesManager_init fuel w so cfg) in
  gating_inv (prev_of self) self.
Proof.
  unfold SeriesManager_init.
  destruct (set_up so cfg) as [e|self0] eqn:Hset.
  { simpl. by apply gating_inv_start. }
  apply set_up_lists in Hset as (_ & _ & _ & Hfin & _ & Htr & _).
  pose proof (gating_inv_start self0 Htr Hfin) as H0.
  assert (H1 : gating_inv (prev_of self0) (state_of (kick_off self0 w))).
  { apply (for_each_state (gating_inv (prev_of self0))); [|done].
    intros n s w0 _. apply kick_off_one_gating. }
  assert (H2 : gating_inv (prev_of self0)
            (final match kick_off self0 w with
                   | Ok self w => poll_loop fuel self w
                   | Raise e self w => Raised e self w
                   end)).
  { destruct (kick_off self0 w) as [s1 w1|e s1 w1]; simpl in *; [|done].
    by apply poll_loop_gating. }
  simpl. destruct H2 as (Hg & Hf & Hpv). split_and!; [|done|done].
  intros before ev after n Heq Hdec ps Hps. rewrite Hpv in Hps.
  by eapply Hg.
Qed.

(** C2. In every run of the constructor, however long and however it
    ends, a launch or a skip of a test comes after the event that put
    each of its prerequisites in [finished] (its completion or its own
    skip). A test whose prerequisites are not all in [finished] is left
    as it is by the turn of the loop that looks at it, and the readiness
    check reads the [finished] list only, not the results. *)
Theorem gating_waits_for_prerequisites (fuel : nat) (w : World)
    (so : TestSeries) (cfg : series_config) :
  (let self := final (SeriesManager_init fuel w so cfg) in
   gated (prev_of self) (trace self)) ∧
  (∀ self w' test_name info,
     test_info self !! test_name = Some info →
     (ready self (prev info) = true ↔
      ∀ wait, wait ∈ prev info → wait ∈ finished self) ∧
     (ready self (prev info) = false →
      evaluate test_name self w' = Ok self w')) ∧
  (∀ self self' prev_list,
     finished self = finished self' →
     ready self prev_list = ready self' prev_list).
Proof.
  split_and!.
  - apply init_gating.
  - intros self w' n info Hinfo. split; [apply ready_spec|].
    intros Hready. unfold evaluate. by rewrite Hinfo, Hready.
  - intros self self' ps Hfin. unfold ready. by rewrite Hfin.
Qed.

(** *** Tests without prerequisites first *)

Lemma py_remove_subseteq (x : string) (l r : list string) :
  py_remove x l = inr r → ∀ y, y ∈ r → y ∈ l.
Proof.
  revert r. induction l as [|z l IH]; intros r; simpl; [done|].
  destruct (decide (x = z)) as [->|Hne].
  - intros [= <-] y Hy. by right.
  - destruct (py_remove x l) as [e|r']; [done|]. intros [= <-] y Hy.
    apply elem_of_cons in Hy as [->|Hy]; [by left|]. right.
    by apply (IH r').
Qed.

Lemma kick_off_one_Ok (n : string) (self self' : SeriesManager)
    (w w' : World) :
  kick_off_one n self w = Ok self' w' →
  ∃ info, test_info self !! n = Some info ∧
    ((prev info ≠ [] ∧ self' = self ∧ w' = w) ∨
     (prev info = [] ∧
      ∃ last_tests s1,
        run_cmd (args info) w = inr (last_tests, w') ∧
        s1 = record
               (set_started
                  (set_test_info self
                     (<[n := set_obj info last_tests]> (test_info self)))
                  (started self ++ [n]))
               (Launched n) ∧
        self' = set_not_started s1
                  (list_of_set
                     (filter (λ t, t ∉ started s1) (all_tests s1))))).
Proof.
  unfold kick_off_one.
  destruct (test_info self !! n) as [info|] eqn:Hinfo; [|done].
  intros H. exists info. split; [done|].
  destruct (prev info) as [|p ps].
  - right. split; [done|].
    destruct (run_test n self w) as [s1 w1|e s1 w1] eqn:Hrun; [|done].
    simpl in H. injection H as <- <-.
    apply run_test_Ok in Hrun as (info' & l & Hinfo' & Hcmd & ->).
    assert (info' = info) as -> by congruence.
    eexists l, _. split_and!; [done|reflexivity|reflexivity].
  - left. by injection H as <- <-.
Qed.

Lemma kick_off_one_roots (pv : string → option (list string))
    (n : string) (self : SeriesManager) (w : World) :
  kick_off_inv pv self → kick_off_inv pv (state_of (kick_off_one n self w)).
Proof.
  intros (Hr & Hp & Hpv). unfold kick_off_one.
  destruct (test_info self !! n) as [info|] eqn:Hinfo; [|done].
  destruct (prev info) as [|p ps] eqn:Hprev; [|done].
  assert (Hrun : kick_off_inv pv (state_of (run_test n self w))).
  { destruct (run_test n self w) as [s1 w1|e s1 w1] eqn:Hrun; simpl.
    - apply run_test_Ok in Hrun as (info' & l & Hinfo' & _ & ->).
      split_and!; simpl.
      + apply each_decision_snoc; [done|].
        intros m Hm%decides_Launched ps Hps. subst m.
        rewrite <- Hpv in Hps. unfold prev_of in Hps.
        rewrite Hinfo in Hps. simpl in Hps. rewrite Hprev in Hps.
        by injection Hps as <-.
      + rewrite elem_of_app, list_elem_of_singleton. naive_solver.
      + intros m. rewrite <- Hpv. unfold prev_of at 1. simpl.
        by erewrite prev_of_insert.
    - by apply run_test_Raise in Hrun as [-> _]. }
  apply and_then_state; [done|]. intros s1 w1 Heq.
  rewrite Heq in Hrun. exact Hrun.
Qed.








(** *** The events only grow *)


Lemma and_then_trace (o : outcome)
    (k : SeriesManager → World → outcome) (self : SeriesManager) :
  trace self `prefix_of` trace (state_of o) →
  (∀ s w, trace s `prefix_of` trace (state_of (k s w))) →
  trace self `prefix_of` trace (state_of (and_then o k)).
Proof.
  intros Ho Hk. destruct o as [s w|e s w]; simpl in *; [|done]. by etrans.
Qed.

Lemma run_test_trace (n : string) (self : SeriesManager) (w : World) :
  trace self `prefix_of` trace (state_of (run_test n self w)).
Proof.
  destruct (run_test n self w) as [s' w'|e s' w'] eqn:Hrun; simpl.
  - apply run_test_Ok in Hrun as (info & l & _ & _ & ->). simpl.
    by apply prefix_app_r.
  - by apply run_test_Raise in Hrun as [-> _].
Qed.

Lemma remove_not_started_trace (n : string) (self : SeriesManager)
    (w : World) :
  trace self `prefix_of` trace (state_of (remove_not_started n self w)).
Proof.
  unfold remove_not_started. by destruct (py_remove n (not_started self)).
Qed.


Lemma evaluate_trace (n : string) (self : SeriesManager) (w : World) :
  trace self `prefix_of` trace (state_of (evaluate n self w)).
Proof.
  assert (Hlaunch : trace self `prefix_of` trace (state_of (launch n self w))).
  { apply and_then_trace; [apply run_test_trace|].
    intros s w0. apply remove_not_started_trace. }
  unfold evaluate. destruct (test_info self !! n) as [info|]; [|done].
  destruct (ready self (prev info)); [|done].
  destruct (section_lookup (series_section self) n) as [tc|]; [|done].
  destruct (py_eq_str (depends_pass tc) "True"); [|done].
  destruct (all_tests_passed self w (prev info)) as [e|[]]; [done..|].
  unfold skip.
  pose proof (skip_configs_frame n info [] (configs info) self w)
    as ((_ & _ & _ & _ & _ & Htr) & _ & _).
  apply and_then_trace; [by rewrite Htr|]. intros s w0.
  apply and_then_trace; [apply remove_not_started_trace|].
  intros s' w'. simpl. by apply prefix_app_r.
Qed.



(** *** The two branches *)

Lemma py_remove_elem_of (x : string) (l : list string) :
  x ∈ l → ∃ r, py_remove x l = inr r.
Proof.
  induction l as [|y l IH]; intros Hin; [by apply elem_of_nil in Hin|].
  simpl. destruct (decide (x = y)) as [->|Hne]; [by eexists|].
  apply elem_of_cons in Hin as [?|Hin]; [done|].
  destruct (IH Hin) as [r ->]. by eexists.
Qed.

Lemma py_eq_str_true (v : pyval) (s : string) :
  py_eq_str v s = true ↔ v = PyStr s.
Proof.
  destruct v; simpl; try (split; [done|congruence]).
  rewrite bool_decide_eq_true. split; congruence.
Qed.

Lemma py_eq_str_false (v : pyval) (s : string) :
  py_eq_str v s = false ↔ v ≠ PyStr s.
Proof.
  rewrite <- py_eq_str_true. destruct (py_eq_str v s); split; congruence.
Qed.

Lemma launch_returns (n : string) (self : SeriesManager) (w w' : World)
    (info : TestInfo) (last_tests : list TestRun) :
  test_info self !! n = Some info →
  run_cmd (args info) w = inr (last_tests, w') →
  n ∈ not_started self →
  ∃ self' ns,
    launch n self w = Ok self' w' ∧
    py_remove n (not_started self) = inr ns ∧ not_started self' = ns ∧
    started self' = started self ++ [n] ∧
    finished self' = finished self ∧
    trace self' = trace self ++ [Launched n] ∧
    test_info self' = <[n := set_obj info last_tests]> (test_info self) ∧
    series_obj self' = series_obj self.
Proof.
  intros Hinfo Hrun Hin. destruct (py_remove_elem_of _ _ Hin) as [ns Hns].
  unfold launch, run_test. rewrite Hinfo, Hrun. simpl.
  unfold remove_not_started. simpl. rewrite Hns.
  eexists _, ns. split_and!; reflexivity || done.
Qed.

Lemma launch_events (n : string) (self : SeriesManager) (w : World) :
  let s' := state_of (launch n self w) in
  (trace s' = trace self ∨ trace s' = trace self ++ [Launched n]) ∧
  finished s' = finished self ∧ series_obj s' = series_obj self.
Proof.
  unfold launch.
  destruct (run_test n self w) as [s1 w1|e s1 w1] eqn:Hrun; simpl.
  - apply run_test_Ok in Hrun as (info & l & _ & _ & ->).
    unfold remove_not_started. simpl.
    destruct (py_remove n (not_started self)); simpl; split_and!;
      first [done | by right].
  - apply run_test_Raise in Hrun as [-> _]. split_and!; first [done | by left].
Qed.

(** C9. The branch that looks at the results of the prerequisites is
    taken only when [depends_pass] is the string ['True']. With any other
    value, such as ['true'] or a boolean, a ready test is launched by
    the same two statements whatever the value and whatever its
    prerequisites did: when the run command returns, the test is in
    [started], and no test is skipped. *)
Theorem pass_gating_needs_the_string_True (test_name : string)
    (self : SeriesManager) (w : World) (info : TestInfo)
    (test_cfg : series_test) :
  test_info self !! test_name = Some info →
  ready self (prev info) = true →
  section_lookup (series_section self) test_name = Some test_cfg →
  (depends_pass test_cfg = PyStr "True" →
     evaluate test_name self w =
     match all_tests_passed self w (prev info) with
     | inl e => Raise e self w
     | inr true => launch test_name self w
     | inr false => skip test_name info self w
     end) ∧
  (depends_pass test_cfg ≠ PyStr "True" →
     evaluate test_name self w = launch test_name self w ∧
     (let s' := state_of (evaluate test_name self w) in
      (trace s' = trace self ∨
       trace s' = trace self ++ [Launched test_name]) ∧
      finished s' = finished self) ∧
     ∀ last_tests w',
       run_cmd (args info) w = inr (last_tests, w') →
       test_name ∈ not_started self →
       ∃ self',
         evaluate test_name self w = Ok self' w' ∧
         started self' = started self ++ [test_name] ∧
         trace self' = trace self ++ [Launched test_name]) ∧
  py_eq_str (PyStr "true") "True" = false ∧
  py_eq_str (PyBool true) "True" = false ∧
  py_eq_str (PyBool false) "True" = false.
Proof.
  intros Hinfo Hready Hcfg. split_and!; try done.
  - intros Htrue. unfold evaluate. rewrite Hinfo, Hready, Hcfg, Htrue. done.
  - intros Hother. apply py_eq_str_false in Hother.
    assert (Heq : evaluate test_name self w = launch test_name self w).
    { unfold evaluate. by rewrite Hinfo, Hready, Hcfg, Hother. }
    rewrite Heq. split_and!; [done| |].
    + pose proof (launch_events test_name self w) as (H1 & H2 & _). by split.
    + intros l w' Hrun Hin.
      destruct (launch_returns _ _ _ _ _ _ Hinfo Hrun Hin)
        as (self' & ns & -> & _ & _ & Hst & _ & Htr & _).
      by exists self'.
Qed.





(** *** The three lists *)

Lemma py_remove_Permutation (x : string) (l r : list string) :
  py_remove x l = inr r → l ≡ₚ x :: r.
Proof.
  revert r. induction l as [|y l IH]; intros r; simpl; [done|].
  destruct (decide (x = y)) as [->|Hne]; [by intros [= <-]|].
  destruct (py_remove x l) as [e|r']; [done|]. intros [= <-].
  rewrite (IH r' eq_refl). apply Permutation_swap.
Qed.

Lemma py_remove_NoDup_notin (x : string) (l r : list string) :
  NoDup l → py_remove x l = inr r → (x ∉ r) ∧ NoDup r.
Proof.
  intros Hnd Hrm. apply py_remove_Permutation in Hrm.
  rewrite Hrm in Hnd. by apply NoDup_cons in Hnd.
Qed.

Lemma py_remove_length (x : string) (l r : list string) :
  py_remove x l = inr r → length l = S (length r).
Proof. intros Hrm. by rewrite (py_remove_Permutation _ _ _ Hrm). Qed.

Lemma members_launch (ns st fin r : list string) (n : string) :
  ns ≡ₚ n :: r → r ++ (st ++ [n]) ++ fin ≡ₚ ns ++ st ++ fin.
Proof.
  intros ->. rewrite <- !app_assoc. simpl.
  rewrite (app_assoc r st (n :: fin)), (app_assoc r st fin).
  symmetry. apply Permutation_middle.
Qed.

Lemma members_skip (ns st fin r : list string) (n : string) :
  ns ≡ₚ n :: r → r ++ st ++ fin ++ [n] ≡ₚ ns ++ st ++ fin.
Proof.
  intros ->. rewrite !app_assoc. rewrite <- Permutation_cons_append.
  simpl. by rewrite <- !app_assoc.
Qed.

Lemma members_complete (ns st fin r : list string) (n : string) :
  st ≡ₚ n :: r → ns ++ r ++ fin ++ [n] ≡ₚ ns ++ st ++ fin.
Proof.
  intros ->. apply Permutation_app_head.
  rewrite app_assoc, <- Permutation_cons_append. done.
Qed.

Lemma lists_inv_partitioned (self : SeriesManager) :
  lists_inv self → partitioned self.
Proof.
  intros [Hnd Hperm]. unfold members in Hperm. split.
  - by rewrite Hperm.
  - intros n. by rewrite Hperm.
Qed.

(** A property of the turns made so far and of the world, kept by every
    turn that returns. *)
Lemma for_each_Ok_world (P : list string → SeriesManager → World → Prop)
    (body : string → SeriesManager → World → outcome)
    (names : list string) (self self' : SeriesManager) (w w' : World) :
  (∀ seen n s w s' w', n ∈ names → P seen s w → body n s w = Ok s' w' →
                       P (seen ++ [n]) s' w') →
  P [] self w → for_each body names self w = Ok self' w' → P names self' w'.
Proof.
  intros Hbody.
  assert (Hgen : ∀ rest seen s w0,
    (∀ n, n ∈ rest → n ∈ names) →
    P seen s w0 → for_each body rest s w0 = Ok self' w' →
    P (seen ++ rest) self' w').
  { induction rest as [|n rest IH]; intros seen s w0 Hsub HP Hrun.
    - simpl in Hrun. injection Hrun as <- <-. by rewrite app_nil_r.
    - simpl in Hrun. destruct (body n s w0) as [s1 w1|e s1 w1] eqn:Hn;
        simpl in Hrun; [|done].
      replace (seen ++ n :: rest) with ((seen ++ [n]) ++ rest)
        by (by rewrite <- app_assoc).
      eapply IH; [|eapply Hbody; [|exact HP|exact Hn]|exact Hrun].
      + intros m Hm. apply Hsub. by right.
      + apply Hsub. by left. }
  intros HP Hrun. by apply (Hgen names [] self w).
Qed.

(** *** What a turn that returns has done *)

Lemma run_cmd_inr (args : list string) (w w' : World) (l : list TestRun) :
  run_cmd args w = inr (l, w') →
  now w' = now w ∧ ∃ f', run_cmd_run args (fs w) = inr (l, f').
Proof.
  unfold run_cmd. destruct (run_cmd_run args (fs w)) as [e|[l' f']]; [done|].
  intros [= <- <-]. split; [done|]. by exists f'.
Qed.

Lemma skip_configs_now (n : string) (info : TestInfo)
    (seen todo : list config) (self : SeriesManager) (w : World) :
  now (world_of (skip_configs n info seen todo self w)) = now w.
Proof.
  revert seen self w.
  induction todo as [|c rest IH]; intros seen self w; simpl; [done|].
  destruct (cfg_only_if c); [|done]. destruct (cfg_not_if c); [|done].
  unfold new_TestRun.
  destruct (TestRun_new _ (fs w)) as [e|[t f1]]; [done|].
  pose proof (RegistryFacts.add_tests_now (series_obj self)
    [set_run_complete (status_set t STATES_COMPLETE skip_note)]
    (set_fs w f1)) as Hnow.
  destruct (add_tests _ _ (set_fs w f1)) as [[[e|] so] w2]; simpl in Hnow;
    [done|].
  rewrite IH. done.
Qed.

Lemma launch_Ok (n : string) (self self' : SeriesManager) (w w' : World) :
  launch n self w = Ok self' w' →
  ∃ info l r,
    test_info self !! n = Some info ∧
    run_cmd (args info) w = inr (l, w') ∧
    py_remove n (not_started self) = inr r ∧
    self' = set_not_started
              (record
                 (set_started
                    (set_test_info self
                       (<[n := set_obj info l]> (test_info self)))
                    (started self ++ [n]))
                 (Launched n)) r.
Proof.
  unfold launch.
  destruct (run_test n self w) as [s1 w1|e s1 w1] eqn:Hrun; [|done].
  apply run_test_Ok in Hrun as (info & l & Hinfo & Hcmd & ->). simpl.
  intros Hrm. apply remove_not_started_Ok in Hrm as (r & Hr & -> & ->).
  by exists info, l, r.
Qed.

Lemma skip_Ok (n : string) (info : TestInfo) (self self' : SeriesManager)
    (w w' : World) :
  skip n info self w = Ok self' w' →
  ∃ r,
    py_remove n (not_started self) = inr r ∧ not_started self' = r ∧
    all_tests self' = all_tests self ∧
    series_section self' = series_section self ∧
    started self' = started self ∧
    finished self' = finished self ++ [n] ∧
    (test_info self' = test_info self ∨
     ∃ cs, test_info self' = <[n := set_configs info cs]> (test_info self)) ∧
    now w' = now w.
Proof.
  unfold skip.
  pose proof (skip_configs_frame n info [] (configs info) self w)
    as ((Hall & Hsec & Hst & Hf & Hnst & _) & Hti & _).
  pose proof (skip_configs_now n info [] (configs info) self w) as Hnow.
  destruct (skip_configs n info [] (configs info) self w)
    as [s1 w1|e s1 w1]; [|done].
  simpl in *.
  destruct (remove_not_started n s1 w1) as [s2 w2|e s2 w2] eqn:Hrm; [|done].
  apply remove_not_started_Ok in Hrm as (r & Hr & -> & ->). simpl.
  intros [= <- <-]. exists r. simpl. rewrite <- Hnst, Hf. by split_and!.
Qed.

Lemma evaluate_Ok (n : string) (self self' : SeriesManager) (w w' : World) :
  evaluate n self w = Ok self' w' →
  now w' = now w ∧ all_tests self' = all_tests self ∧
  series_section self' = series_section self ∧
  (((∃ info, test_info self !! n = Some info ∧
             ready self (prev info) = false) ∧
    self' = self ∧ w' = w) ∨
   ∃ info r,
     test_info self !! n = Some info ∧ ready self (prev info) = true ∧
     py_remove n (not_started self) = inr r ∧ not_started self' = r ∧
     ((∃ l f', run_cmd_run (args info) (fs w) = inr (l, f') ∧
               test_info self' = <[n := set_obj info l]> (test_info self) ∧
               started self' = started self ++ [n] ∧
               finished self' = finished self) ∨
      ((test_info self' = test_info self ∨
        ∃ cs, test_info self'
              = <[n := set_configs info cs]> (test_info self)) ∧
       started self' = started self ∧
       finished self' = finished self ++ [n]))).
Proof.
  unfold evaluate.
  destruct (test_info self !! n) as [info|] eqn:Hinfo; [|done].
  destruct (ready self (prev info)) eqn:Hready.
  2:{ intros [= <- <-]. split_and!; try done. left. split; [|done].
      by exists info. }
  destruct (section_lookup (series_section self) n) as [tc|]; [|done].
  assert (Hlaunch : launch n self w = Ok self' w' →
    now w' = now w ∧ all_tests self' = all_tests self ∧
    series_section self' = series_section self ∧
    ∃ r, py_remove n (not_started self) = inr r ∧ not_started self' = r ∧
      ∃ l f', run_cmd_run (args info) (fs w) = inr (l, f') ∧
              test_info self' = <[n := set_obj info l]> (test_info self) ∧
              started self' = started self ++ [n] ∧
              finished self' = finished self).
  { intros H. apply launch_Ok in H as (info' & l & r & Hinfo' & Hcmd & Hr & ->).
    assert (info' = info) as -> by congruence.
    apply run_cmd_inr in Hcmd as (Hnow & f' & Hcmd).
    split_and!; try done. exists r. split_and!; try done. by exists l, f'. }
  assert (Hl : launch n self w = Ok self' w' → _) by exact Hlaunch.
  destruct (py_eq_str (depends_pass tc) "True").
  - destruct (all_tests_passed self w (prev info)) as [e|[]]; [done| |].
    + intros H. apply Hlaunch in H as (Hnow & Hall & Hsec & r & Hr & Hns & Hrest).
      split_and!; try done. right. exists info, r. split_and!; try done.
      by left.
    + intros H. apply skip_Ok in H
        as (r & Hr & Hns & Hall & Hsec & Hst & Hf & Hti & Hnow).
      split_and!; try done. right. exists info, r. split_and!; try done.
      by right.
  - intros H. apply Hlaunch in H as (Hnow & Hall & Hsec & r & Hr & Hns & Hrest).
    split_and!; try done. right. exists info, r. split_and!; try done.
    by left.
Qed.

(** *** The invariant of the loop *)

Lemma configs_only (ti ti' : gmap string TestInfo) (n : string)
    (info : TestInfo) :
  ti !! n = Some info →
  (ti' = ti ∨ ∃ cs, ti' = <[n := set_configs info cs]> ti) →
  ∀ m, (is_Some (ti !! m) → is_Some (ti' !! m)) ∧
       ∀ info', ti' !! m = Some info' →
         ∃ info0, ti !! m = Some info0 ∧ obj info' = obj info0 ∧
                  prev info' = prev info0.
Proof.
  intros Hn [->|[cs ->]] m.
  - split; [done|]. intros info' H. by exists info'.
  - destruct (decide (n = m)) as [<-|Hne].
    + rewrite lookup_insert_eq. split; [by eexists|].
      intros info' [= <-]. by exists info.
    + rewrite lookup_insert_ne by done. split; [done|].
      intros info' H. by exists info'.
Qed.

Lemma sched_inv_record (pv : string → option (list string))
    (rank : string → nat) (self : SeriesManager) (ev : event) :
  sched_inv pv rank self → sched_inv pv rank (record self ev).
Proof. intros []. by constructor. Qed.

Lemma update_one_inv (pv : string → option (list string))
    (rank : string → nat) (n : string) (self self' : SeriesManager)
    (w w' : World) :
  sched_inv pv rank self → update_one n self w = Ok self' w' →
  sched_inv pv rank self'.
Proof.
  intros Hinv Hrun.
  apply update_one_Ok in Hrun as [_ [[_ ->]|[_ (r & Hr & ->)]]]; [done|].
  destruct Hinv as [[Hnd Hperm] Hknown Hprev Hrank Hobj Hcomp].
  constructor; simpl; try done.
  - split; [done|]. unfold members in *. simpl.
    rewrite <- Hperm. apply members_complete.
    by apply py_remove_Permutation.
  - intros m Hm. apply Hobj. by eapply py_remove_subseteq.
Qed.

Lemma evaluate_inv (pv : string → option (list string))
    (rank : string → nat) (n : string) (self self' : SeriesManager)
    (w w' : World) :
  eventually_complete → sched_inv pv rank self →
  evaluate n self w = Ok self' w' → sched_inv pv rank self'.
Proof.
  intros Hev Hinv Hrun.
  apply evaluate_Ok in Hrun
    as (_ & Hall & _ &
        [(_ & -> & _)|(info & r & Hinfo & _ & Hr & Hns & Hcase)]); [done|].
  destruct Hinv as [[Hnd Hperm] Hknown Hprev Hrank Hobj Hcomp].
  pose proof (py_remove_Permutation _ _ _ Hr) as Hpr.
  destruct Hcase as [(l & f' & Hcmd & Hti & Hst & Hf)|(Hti & Hst & Hf)].
  - constructor.
    + split; [by rewrite Hall|]. unfold members in *.
      rewrite Hns, Hst, Hf, Hall, <- Hperm. by apply members_launch.
    + intros m Hm. rewrite Hall in Hm. rewrite Hti.
      destruct (decide (n = m)) as [<-|Hne].
      * rewrite lookup_insert_eq. by eexists.
      * rewrite lookup_insert_ne by done. by apply Hknown.
    + intros m. rewrite <- Hprev. unfold prev_of at 1. rewrite Hti.
      by erewrite prev_of_insert.
    + intros m ps p Hps Hp. rewrite Hall. by eapply Hrank.
    + intros m Hm. rewrite Hst in Hm. rewrite Hti.
      destruct (decide (n = m)) as [<-|Hne].
      * rewrite lookup_insert_eq. by eexists _, l.
      * rewrite lookup_insert_ne by done. apply Hobj.
        apply elem_of_app in Hm as [Hm|Hm]; [done|].
        apply list_elem_of_singleton in Hm. congruence.
    + intros m info' l' t Hm Hl' Ht. rewrite Hti in Hm.
      destruct (decide (n = m)) as [<-|Hne].
      * rewrite lookup_insert_eq in Hm. injection Hm as <-.
        simpl in Hl'. injection Hl' as <-. by eapply Hev.
      * rewrite lookup_insert_ne in Hm by done. by eapply Hcomp.
  - pose proof (configs_only _ _ _ _ Hinfo Hti) as Hco.
    constructor.
    + split; [by rewrite Hall|]. unfold members in *.
      rewrite Hns, Hst, Hf, Hall, <- Hperm. by apply members_skip.
    + intros m Hm. rewrite Hall in Hm. by apply Hco, Hknown.
    + intros m. rewrite <- Hprev. unfold prev_of.
      destruct (test_info self' !! m) as [info'|] eqn:Hm.
      * destruct (proj2 (Hco m) info' Hm) as (info0 & -> & _ & Hp).
        simpl. by rewrite Hp.
      * destruct (test_info self !! m) as [info0|] eqn:Hm0; [|done].
        destruct (proj1 (Hco m)) as [? ?]; [by eexists|congruence].
    + intros m ps p Hps Hp. rewrite Hall. by eapply Hrank.
    + intros m Hm. rewrite Hst in Hm.
      destruct (Hobj m Hm) as (info0 & l0 & Hm0 & Hl0).
      destruct (proj1 (Hco m)) as [info' Hm']; [by eexists|].
      destruct (proj2 (Hco m) info' Hm') as (info1 & Hm1 & Ho & _).
      exists info', l0. split; [done|]. congruence.
    + intros m info' l' t Hm Hl' Ht.
      destruct (proj2 (Hco m) info' Hm) as (info0 & Hm0 & Ho & _).
      eapply Hcomp; [exact Hm0|rewrite <- Ho; exact Hl'|done].
Qed.

Lemma lists_inv_NoDup (self : SeriesManager) :
  lists_inv self →
  NoDup (not_started self) ∧ NoDup (started self) ∧ NoDup (finished self).
Proof.
  intros [Hnd Hperm]. rewrite <- Hperm in Hnd. unfold members in Hnd.
  apply NoDup_app in Hnd as (H1 & _ & Hnd).
  apply NoDup_app in Hnd as (H2 & _ & H3). done.
Qed.

Lemma check_and_update_Ok_inv (pv : string → option (list string))
    (rank : string → nat) (self s1 : SeriesManager) (w w1 : World) :
  sched_inv pv rank self → check_and_update self w = Ok s1 w1 →
  sched_inv pv rank s1 ∧ w1 = w ∧ not_started s1 = not_started self ∧
  test_info s1 = test_info self ∧ all_tests s1 = all_tests self ∧
  (∀ n, n ∈ started s1 → n ∈ started self) ∧
  (∀ n, n ∈ finished self → n ∈ finished s1).
Proof.
  intros Hinv Hrun. unfold check_and_update in Hrun.
  apply (for_each_Ok_world
    (λ _ s w0, sched_inv pv rank s ∧ w0 = w ∧
               not_started s = not_started self ∧
               test_info s = test_info self ∧
               all_tests s = all_tests self ∧
               (∀ n, n ∈ started s → n ∈ started self) ∧
               (∀ n, n ∈ finished self → n ∈ finished s))) in Hrun;
    [done| |by split_and!].
  clear. intros _ n s w0 s' w' _ (Hinv & -> & Hns & Hti & Hall & Hst & Hf) Hone.
  pose proof (update_one_inv pv rank n s s' w w' Hinv Hone) as Hinv'.
  apply update_one_Ok in Hone as [-> [[_ ->]|[_ (r & Hr & ->)]]];
    [by split_and!|].
  simpl. split_and!; try done.
  - intros m Hm. by eapply Hst, py_remove_subseteq.
  - intros m Hm. apply elem_of_app. left. by apply Hf.
Qed.


Lemma for_each_evaluate_inv (pv : string → option (list string))
    (rank : string → nat) (names : list string) (s1 s2 : SeriesManager)
    (w1 w2 : World) :
  eventually_complete → sched_inv pv rank s1 →
  for_each evaluate names s1 w1 = Ok s2 w2 →
  sched_inv pv rank s2 ∧ now w2 = now w1 ∧ all_tests s2 = all_tests s1 ∧
  (length (not_started s2) ≤ length (not_started s1))%nat ∧
  (length (not_started s2) = length (not_started s1) → s2 = s1) ∧
  (∀ p, p ∈ finished s1 → p ∈ finished s2) ∧
  (∀ x, x ∈ not_started s2 → x ∈ not_started s1).
Proof.
  intros Hev Hinv Hrun.
  apply (for_each_Ok_world
    (λ _ s w0, sched_inv pv rank s ∧ now w0 = now w1 ∧
               all_tests s = all_tests s1 ∧
               (length (not_started s) ≤ length (not_started s1))%nat ∧
               (length (not_started s) = length (not_started s1) → s = s1) ∧
               (∀ p, p ∈ finished s1 → p ∈ finished s) ∧
               (∀ x, x ∈ not_started s → x ∈ not_started s1))) in Hrun;
    [done| |by split_and!].
  clear -Hev. intros _ n s w0 s' w' _
    (Hinv & Hnow & Hall & Hlen & Hsame & Hf & Hns) Hone.
  pose proof (evaluate_inv pv rank n s s' w0 w' Hev Hinv Hone) as Hinv'.
  apply evaluate_Ok in Hone
    as (Hnow' & Hall' & _ &
        [(_ & -> & ->)|(info & r & Hinfo & _ & Hr & Hns' & Hcase)]);
    [by split_and!|].
  pose proof (py_remove_length _ _ _ Hr) as Hlr.
  split_and!; [done|congruence|congruence|rewrite Hns'; lia| | |].
  - rewrite Hns'. intros Heq. lia.
  - intros p Hp. apply Hf in Hp.
    destruct Hcase as [(l & f' & _ & _ & _ & ->)|(_ & _ & ->)]; [done|].
    apply elem_of_app. by left.
  - intros x Hx. rewrite Hns' in Hx. by eapply Hns, py_remove_subseteq.
Qed.


(** *** Progress *)

Lemma poll_Ok (self s' : SeriesManager) (w w' : World) :
  poll self w = Ok s' w' →
  ∃ s1 w1 w2,
    check_and_update (record self Polled) w = Ok s1 w1 ∧
    for_each evaluate (not_started s1) s1 w1 = Ok s' w2 ∧ w' = sleep w2.
Proof.
  unfold poll.
  destruct (check_and_update (record self Polled) w) as [s1 w1|e s1 w1];
    [|done].
  simpl. destruct (for_each evaluate (not_started s1) s1 w1)
    as [s2 w2|e s2 w2] eqn:Hev; [|done].
  simpl. intros [= <- <-]. by exists s1, w1, w2.
Qed.

Lemma poll_Ok_inv (pv : string → option (list string))
    (rank : string → nat) (self s' : SeriesManager) (w w' : World) :
  eventually_complete → sched_inv pv rank self → poll self w = Ok s' w' →
  sched_inv pv rank s' ∧ now w' = S (now w) ∧
  (length (not_started s') ≤ length (not_started self))%nat ∧
  (length (not_started s') = length (not_started self) →
   test_info s' = test_info self ∧
   ∀ n, n ∈ started s' → n ∈ started self).
Proof.
  intros Hev Hinv Hrun.
  apply poll_Ok in Hrun as (s1 & w1 & w2 & Hcheck & Heval & ->).
  apply (check_and_update_Ok_inv pv rank) in Hcheck
    as (Hinv1 & -> & Hns1 & Hti1 & _ & Hst1 & _);
    [|by apply sched_inv_record].
  apply (for_each_evaluate_inv pv rank) in Heval
    as (Hinv2 & Hnow & _ & Hlen & Hsame & _); [|done..].
  simpl in *. split_and!; [done|by rewrite Hnow|by rewrite <- Hns1|].
  rewrite <- Hns1. intros Heq. rewrite (Hsame Heq). by split.
Qed.

Lemma min_rank (rank : string → nat) (l : list string) :
  l ≠ [] → ∃ m, m ∈ l ∧ ∀ x, x ∈ l → (rank m ≤ rank x)%nat.
Proof.
  induction l as [|a l IH]; [done|]. intros _.
  destruct l as [|b l].
  - exists a. split; [by left|].
    intros x Hx. apply list_elem_of_singleton in Hx as ->. lia.
  - destruct IH as (m & Hm & Hmin); [done|].
    destruct (decide (rank a ≤ rank m)%nat) as [Hle|Hgt].
    + exists a. split; [by left|]. intros x Hx.
      apply elem_of_cons in Hx as [->|Hx]; [lia|].
      specialize (Hmin x Hx). lia.
    + exists m. split; [by right|]. intros x Hx.
      apply elem_of_cons in Hx as [->|Hx]; [lia|]. by apply Hmin.
Qed.




(** *** The loop is left *)




(** *** From the series file to the invariant *)

Lemma make_dep_graph_lookup (section : list (string * series_test))
    (g : gmap string (list string)) (n : string) :
  (n ∈ section.*1 →
   is_Some (foldl (λ g item, <[item.1 := depends_on item.2]> g) g section
              !! n)) ∧
  ∀ ps,
    foldl (λ g item, <[item.1 := depends_on item.2]> g) g section !! n
      = Some ps →
    g !! n = Some ps ∨ ∃ tc, (n, tc) ∈ section ∧ ps = depends_on tc.
Proof.
  revert g. induction section as [|[k tc] section IH]; intros g; simpl.
  - split; [intros H; by apply elem_of_nil in H|]. intros ps H. by left.
  - destruct (IH (<[k := depends_on tc]> g)) as [IH1 IH2]. split.
    + intros Hin. apply elem_of_cons in Hin as [->|Hin]; [|by apply IH1].
      destruct (decide (k ∈ section.*1)) as [Hk|Hk]; [by apply IH1|].
      destruct (foldl _ _ section !! k) as [ps|] eqn:Hps; [by eexists|].
      exfalso. clear -Hps Hk.
      revert g Hps. generalize (depends_on tc). clear tc.
      induction section as [|[k' tc'] section IH]; intros d g; simpl.
      * by rewrite lookup_insert_eq.
      * rewrite fmap_cons, not_elem_of_cons in Hk. destruct Hk as [Hne Hk].
        simpl in Hne. rewrite insert_insert_ne by done. by apply IH.
    + intros ps Hps. apply IH2 in Hps as [Hps|(tc' & Hin & ->)].
      * destruct (decide (k = n)) as [->|Hne].
        -- rewrite lookup_insert_eq in Hps. injection Hps as <-.
           right. exists tc. split; [by left|done].
        -- rewrite lookup_insert_ne in Hps by done. by left.
      * right. exists tc'. split; [by right|done].
Qed.

Lemma prepare_all_lookup (so : TestSeries) (cfg : series_config)
    (g : gmap string (list string)) (section : list (string * series_test))
    (ti ti' : gmap string TestInfo) :
  prepare_all so cfg g section ti = inr ti' →
  (∀ n, n ∈ section.*1 → is_Some (ti' !! n)) ∧
  (∀ n, is_Some (ti !! n) → is_Some (ti' !! n)) ∧
  (∀ n info, ti' !! n = Some info →
     ti !! n = Some info ∨
     (n ∈ section.*1 ∧ obj info = None ∧ prev info = default [] (g !! n))).
Proof.
  revert ti. induction section as [|[k tc] section IH]; intros ti; simpl.
  - intros [= <-]. split_and!; [|done|by left].
    intros n H. by apply elem_of_nil in H.
  - destruct (prepare_test so cfg g k tc) as [e|info0] eqn:Hprep; [done|].
    intros Hrest. destruct (IH _ Hrest) as (IH1 & IH2 & IH3).
    assert (Hinfo0 : obj info0 = None ∧ prev info0 = default [] (g !! k)).
    { unfold prepare_test in Hprep.
      destruct (load_raw_configs _ _ _) as [e|raws]; [done|].
      destruct (merge_all tc raws) as [e|merged]; [done|].
      by injection Hprep as <-. }
    split_and!.
    + intros n Hn. apply elem_of_cons in Hn as [->|Hn]; [|by apply IH1].
      apply IH2. rewrite lookup_insert_eq. by eexists.
    + intros n Hn. apply IH2. destruct (decide (k = n)) as [->|Hne].
      * rewrite lookup_insert_eq. by eexists.
      * by rewrite lookup_insert_ne.
    + intros n info Hn. apply IH3 in Hn as [Hn|(Hin & Ho & Hp)].
      * destruct (decide (k = n)) as [->|Hne].
        -- rewrite lookup_insert_eq in Hn. injection Hn as <-.
           right. split; [by left|done].
        -- rewrite lookup_insert_ne in Hn by done. by left.
      * right. split; [by right|done].
Qed.

Lemma set_up_graph (rank : string → nat) (so : TestSeries)
    (cfg : series_config) (self0 : SeriesManager) :
  set_up so cfg = inr self0 → acyclic_by rank cfg →
  (∀ n, n ∈ all_tests self0 → is_Some (test_info self0 !! n)) ∧
  (∀ n info, test_info self0 !! n = Some info → obj info = None) ∧
  (∀ n ps p, prev_of self0 n = Some ps → p ∈ ps →
             p ∈ all_tests self0 ∧ (rank p < rank n)%nat).
Proof.
  unfold set_up.
  destruct (prepare_all so cfg (make_dep_graph (series cfg)) (series cfg) ∅)
    as [e|ti] eqn:Hprep; [done|].
  intros [= <-] Hacyclic. simpl.
  destruct (prepare_all_lookup _ _ _ _ _ _ Hprep) as (H1 & _ & H3).
  split_and!; [done| |].
  - intros n info Hn. by apply H3 in Hn as [Hn|(_ & Ho & _)].
  - intros n ps p Hps Hp. unfold prev_of in Hps. simpl in Hps.
    destruct (ti !! n) as [info|] eqn:Hn; [|done].
    injection Hps as <-. apply H3 in Hn as [Hn|(Hin & _ & Hprev)]; [done|].
    rewrite Hprev in Hp.
    destruct (make_dep_graph_lookup (series cfg) ∅ n) as [Hsome Hlk].
    destruct (Hsome Hin) as [ps Hps]. unfold make_dep_graph in Hp.
    rewrite Hps in Hp. simpl in Hp.
    apply Hlk in Hps as [Hps|(tc & Htc & ->)]; [done|].
    by eapply Hacyclic.
Qed.

Lemma kick_off_lists (self0 self1 : SeriesManager) (w w1 : World) :
  started self0 = [] → finished self0 = [] → not_started self0 = [] →
  (∀ n, n ∈ all_tests self0 → is_Some (test_info self0 !! n)) →
  (∀ n info, test_info self0 !! n = Some info → obj info = None) →
  kick_off self0 w = Ok self1 w1 →
  all_tests self1 = all_tests self0 ∧
  (∀ n, n ∈ all_tests self0 → is_Some (test_info self1 !! n)) ∧
  (∀ n, prev_of self1 n = prev_of self0 n) ∧
  finished self1 = [] ∧
  started self1
    = filter (λ n, prev_of self0 n = Some []) (all_tests self0) ∧
  ((started self1 = [] ∧ not_started self1 = []) ∨
   not_started self1
     = list_of_set (filter (λ t, t ∉ started self1) (all_tests self1))) ∧
  (∀ n, n ∈ started self1 →
        ∃ info l, test_info self1 !! n = Some info ∧ obj info = Some l) ∧
  (eventually_complete →
   ∀ n info l t, test_info self1 !! n = Some info → obj info = Some l →
                 t ∈ l → completes t).
Proof.
  intros Hst0 Hf0 Hns0 Hknown0 Hobj0 Hrun. unfold kick_off in Hrun.
  apply (for_each_Ok_world
    (λ seen s _,
       all_tests s = all_tests self0 ∧
       (∀ n, n ∈ all_tests self0 → is_Some (test_info s !! n)) ∧
       (∀ n, prev_of s n = prev_of self0 n) ∧
       finished s = [] ∧
       started s = filter (λ n, prev_of self0 n = Some []) seen ∧
       ((started s = [] ∧ not_started s = []) ∨
        not_started s
          = list_of_set (filter (λ t, t ∉ started s) (all_tests s))) ∧
       (∀ n, n ∈ started s →
             ∃ info l, test_info s !! n = Some info ∧ obj info = Some l) ∧
       (eventually_complete →
        ∀ n info l t, test_info s !! n = Some info → obj info = Some l →
                      t ∈ l → completes t))) in Hrun.
  - exact Hrun.
  - clear. intros seen n s w s' w' _
      (Hall & Hknown & Hprev & Hf & Hst & Hns & Hobj & Hcomp) Hone.
    apply kick_off_one_Ok in Hone
      as (info & Hinfo &
          [(Hnonroot & -> & ->)|(Hroot & l & s1 & Hcmd & -> & ->)]).
    + split_and!; try done. rewrite filter_app, Hst.
      rewrite filter_cons_False, filter_nil, app_nil_r; [done|].
      rewrite <- Hprev. unfold prev_of. rewrite Hinfo. simpl. congruence.
    + simpl. split_and!; try done.
      * intros m Hm. destruct (decide (n = m)) as [<-|Hne].
        -- rewrite lookup_insert_eq. by eexists.
        -- rewrite lookup_insert_ne by done. by apply Hknown.
      * intros m. rewrite <- Hprev. unfold prev_of at 1. simpl.
        by erewrite prev_of_insert.
      * rewrite filter_app, Hst. f_equal.
        rewrite filter_cons_True, filter_nil; [done|].
        rewrite <- Hprev. unfold prev_of. rewrite Hinfo. simpl. congruence.
      * by right.
      * intros m Hm. destruct (decide (n = m)) as [<-|Hne].
        -- rewrite lookup_insert_eq. by eexists _, l.
        -- rewrite lookup_insert_ne by done. apply Hobj.
           apply elem_of_app in Hm as [Hm|Hm]; [done|].
           apply list_elem_of_singleton in Hm. congruence.
      * intros Hev m info' l' t Hm Hl' Ht.
        destruct (decide (n = m)) as [<-|Hne].
        -- rewrite lookup_insert_eq in Hm. injection Hm as <-.
           simpl in Hl'. injection Hl' as <-.
           apply run_cmd_inr in Hcmd as (_ & f' & Hcmd). by eapply Hev.
        -- rewrite lookup_insert_ne in Hm by done. by eapply Hcomp.
  - split_and!; try done.
    + by left.
    + intros n Hn. rewrite Hst0 in Hn. by apply elem_of_nil in Hn.
    + intros _ n info l t Hn Hl. apply Hobj0 in Hn. congruence.
Qed.

Lemma kick_off_sched_inv (rank : string → nat) (so : TestSeries)
    (cfg : series_config) (self0 self1 : SeriesManager) (w w1 : World) :
  eventually_complete → NoDup (series cfg).*1 → acyclic_by rank cfg →
  set_up so cfg = inr self0 → kick_off self0 w = Ok self1 w1 →
  sched_inv (prev_of self0) rank self1.
Proof.
  intros Hev Hnd Hacyclic Hset Hrun.
  destruct (set_up_graph rank so cfg self0 Hset Hacyclic)
    as (Hknown0 & Hobj0 & Hrank0).
  apply set_up_lists in Hset as (Hall0 & _ & Hst0 & Hf0 & Hns0 & _ & _).
  destruct (kick_off_lists self0 self1 w w1 Hst0 Hf0 Hns0 Hknown0 Hobj0
              Hrun)
    as (Hall & Hknown & Hprev & Hf & Hst & Hns & Hobj & Hcomp).
  constructor.
  - split; [by rewrite Hall, Hall0|]. unfold members. rewrite Hf, app_nil_r.
    destruct Hns as [[Hst1 Hns1]|Hns1].
    + rewrite Hst1, Hns1, Hall. simpl.
      destruct (decide (all_tests self0 = [])) as [Hnil|Hne];
        [by rewrite Hnil|].
      exfalso.
      destruct (min_rank rank (all_tests self0) Hne) as (m & Hm & Hmin).
      destruct (Hknown0 m Hm) as [info Hinfo].
      assert (Hroot : prev_of self0 m = Some []).
      { unfold prev_of. rewrite Hinfo. simpl.
        destruct (prev info) as [|p ps] eqn:Hp; [done|]. exfalso.
        destruct (Hrank0 m (p :: ps) p) as [Hpall Hlt].
        - unfold prev_of. rewrite Hinfo. simpl. by rewrite Hp.
        - by left.
        - specialize (Hmin p Hpall). lia. }
      assert (Hin : m ∈ started self1).
      { rewrite Hst. by apply list_elem_of_filter. }
      rewrite Hst1 in Hin. by apply elem_of_nil in Hin.
    + apply NoDup_Permutation.
      * apply NoDup_app. split_and!.
        -- rewrite Hns1. apply list_of_set_NoDup.
        -- intros x Hx. rewrite Hns1 in Hx.
           apply (proj1 (list_of_set_elem_of _ _)) in Hx.
           by apply list_elem_of_filter in Hx as [Hx _].
        -- rewrite Hst. apply NoDup_filter. by rewrite Hall0.
      * by rewrite Hall, Hall0.
      * intros x. rewrite elem_of_app, Hns1, list_of_set_elem_of,
          list_elem_of_filter. split.
        -- intros [[_ Hx]|Hx]; [done|].
           rewrite Hst in Hx. apply list_elem_of_filter in Hx as [_ Hx].
           by rewrite Hall.
        -- intros Hx. destruct (decide (x ∈ started self1)); tauto.
  - intros n Hn. apply Hknown. by rewrite <- Hall.
  - done.
  - intros n ps p Hps Hp. rewrite Hall. by eapply Hrank0.
  - done.
  - by apply Hcomp.
Qed.


(** *** The three lists, with and without a first test *)

Lemma update_one_lists (n : string) (self self' : SeriesManager)
    (w w' : World) :
  lists_inv self → update_one n self w = Ok self' w' → lists_inv self'.
Proof.
  intros [Hnd Hperm] Hrun.
  apply update_one_Ok in Hrun as [_ [[_ ->]|[_ (r & Hr & ->)]]]; [done|].
  split; [done|]. unfold members in *. simpl.
  rewrite <- Hperm. apply members_complete. by apply py_remove_Permutation.
Qed.

Lemma evaluate_lists (n : string) (self self' : SeriesManager)
    (w w' : World) :
  lists_inv self → evaluate n self w = Ok self' w' → lists_inv self'.
Proof.
  intros [Hnd Hperm] Hrun.
  apply evaluate_Ok in Hrun
    as (_ & Hall & _ &
        [(_ & -> & _)|(info & r & Hinfo & _ & Hr & Hns & Hcase)]); [done|].
  pose proof (py_remove_Permutation _ _ _ Hr) as Hpr.
  split; [by rewrite Hall|]. unfold members in *.
  destruct Hcase as [(l & f' & _ & _ & Hst & Hf)|(_ & Hst & Hf)];
    rewrite Hns, Hst, Hf, Hall, <- Hperm.
  - by apply members_launch.
  - by apply members_skip.
Qed.

Lemma poll_lists (self self' : SeriesManager) (w w' : World) :
  lists_inv self → poll self w = Ok self' w' → lists_inv self'.
Proof.
  intros Hinv Hrun.
  apply poll_Ok in Hrun as (s1 & w1 & w2 & Hcheck & Heval & _).
  unfold check_and_update in Hcheck.
  apply (for_each_Ok_world (λ _ s _, lists_inv s)) in Hcheck; [|clear|done].
  2:{ intros _ n s w s' w' _. apply update_one_lists. }
  apply (for_each_Ok_world (λ _ s _, lists_inv s)) in Heval; [done| |done].
  clear. intros _ n s w s' w' _. apply evaluate_lists.
Qed.

Lemma set_up_known (so : TestSeries) (cfg : series_config)
    (self0 : SeriesManager) :
  set_up so cfg = inr self0 →
  (∀ n, n ∈ all_tests self0 → is_Some (test_info self0 !! n)) ∧
  (∀ n info, test_info self0 !! n = Some info → obj info = None).
Proof.
  unfold set_up.
  destruct (prepare_all so cfg (make_dep_graph (series cfg)) (series cfg) ∅)
    as [e|ti] eqn:Hprep; [done|].
  intros [= <-]. simpl.
  destruct (prepare_all_lookup _ _ _ _ _ _ Hprep) as (H1 & _ & H3).
  split; [done|]. intros n info Hn. by apply H3 in Hn as [Hn|(_ & Ho & _)].
Qed.

(** With names that are all different and a test without prerequisites,
    every test is in exactly one of the three lists when the loop before
    the [while] returns and after every turn of the [while] loop. *)
Lemma partitioned_with_a_first_test (so : TestSeries) (cfg : series_config)
    (self0 self1 : SeriesManager) (w w1 : World) (first : string) :
  NoDup (series cfg).*1 → set_up so cfg = inr self0 →
  first ∈ all_tests self0 → prev_of self0 first = Some [] →
  kick_off self0 w = Ok self1 w1 →
  partitioned self1 ∧
  ∀ fuel, match poll_loop fuel self1 w1 with
          | Returned self _ | Looping self _ => partitioned self
          | Raised _ _ _ => True
          end.
Proof.
  intros Hnd Hset Hfirst Hroot Hrun.
  assert (Hinv : lists_inv self1).
  { pose proof Hset as Hlists.
    apply set_up_lists in Hlists as (Hall0 & _ & Hst0 & Hf0 & Hns0 & _ & _).
    destruct (set_up_known so cfg self0 Hset) as [Hknown0 Hobj0].
    destruct (kick_off_lists self0 self1 w w1 Hst0 Hf0 Hns0 Hknown0 Hobj0
                Hrun) as (Hall & _ & _ & Hf & Hst & Hns & _).
    split; [by rewrite Hall, Hall0|]. unfold members.
    rewrite Hf, app_nil_r.
    assert (Hin : first ∈ started self1).
    { rewrite Hst. by apply list_elem_of_filter. }
    destruct Hns as [[Hst1 _]|Hns1].
    { rewrite Hst1 in Hin. by apply elem_of_nil in Hin. }
    apply NoDup_Permutation.
    - apply NoDup_app. split_and!.
      + rewrite Hns1. apply list_of_set_NoDup.
      + intros x Hx. rewrite Hns1 in Hx.
        apply (proj1 (list_of_set_elem_of _ _)) in Hx.
        by apply list_elem_of_filter in Hx as [Hx _].
      + rewrite Hst. apply NoDup_filter. by rewrite Hall0.
    - by rewrite Hall, Hall0.
    - intros x. rewrite elem_of_app, Hns1, list_of_set_elem_of,
        list_elem_of_filter. split.
      + intros [[_ Hx]|Hx]; [done|].
        rewrite Hst in Hx. apply list_elem_of_filter in Hx as [_ Hx].
        by rewrite Hall.
      + intros Hx. destruct (decide (x ∈ started self1)); tauto. }
  split; [by apply lists_inv_partitioned|].
  intros fuel. revert Hinv. generalize self1 w1. clear.
  induction fuel as [|fuel IH]; intros self w Hinv; simpl.
  - destruct (not_started self); by apply lists_inv_partitioned.
  - destruct (not_started self); [by apply lists_inv_partitioned|].
    destruct (poll self w) as [s' w'|e s' w'] eqn:Hpoll; [|done].
    apply IH. by eapply poll_lists.
Qed.

(** Without a test without prerequisites, the loop before the [while]
    changes nothing: [not_started] stays empty. *)
Lemma kick_off_without_a_first_test (self : SeriesManager) (w : World) :
  (∀ n, n ∈ all_tests self →
        ∃ info, test_info self !! n = Some info ∧ prev info ≠ []) →
  kick_off self w = Ok self w.
Proof.
  unfold kick_off. generalize (all_tests self) as names.
  induction names as [|n names IH]; intros Hall; [done|].
  simpl. unfold kick_off_one at 1.
  destruct (Hall n) as (info & -> & Hprev); [by left|].
  destruct (prev info); [done|]. simpl. apply IH.
  intros m Hm. apply Hall. by right.
Qed.

(** *** Exceptions come from outside *)

Lemma run_test_no_fault (n : string) (self : SeriesManager) (w : World) :
  is_Some (test_info self !! n) → no_fault (run_test n self w).
Proof.
  intros [info Hinfo]. unfold run_test, run_cmd. rewrite Hinfo.
  destruct (run_cmd_run (args info) (fs w)) as [e|[l f]] eqn:Hcmd; simpl;
    [|done].
  left. by exists (args info), (fs w).
Qed.

Lemma update_one_no_fault (n : string) (self : SeriesManager) (w : World) :
  is_Some (test_info self !! n) → n ∈ started self →
  no_fault (update_one n self w).
Proof.
  intros [info Hinfo] Hin. unfold update_one, is_done. rewrite Hinfo.
  destruct (obj info) as [l|]; [|done].
  destruct (forallb _ l); [|done].
  by destruct (py_remove_elem_of _ _ Hin) as [r ->].
Qed.

Lemma all_tests_passed_inr (self : SeriesManager) (w : World)
    (test_names : list string) :
  (∀ p, p ∈ test_names → is_Some (test_info self !! p)) →
  ∃ b, all_tests_passed self w test_names = inr b.
Proof.
  induction test_names as [|p rest IH]; intros Hknown; simpl; [by eexists|].
  destruct (Hknown p) as [info ->]; [by left|].
  destruct (obj info) as [l|]; [|by eexists].
  destruct (forallb _ l); [|by eexists].
  apply IH. intros q Hq. apply Hknown. by right.
Qed.

Lemma section_lookup_is_Some (section : list (string * series_test))
    (n : string) :
  n ∈ section.*1 → is_Some (section_lookup section n).
Proof.
  induction section as [|[k tc] section IH]; intros Hin; simpl.
  - by apply elem_of_nil in Hin.
  - destruct (decide (k = n)) as [->|Hne]; [by eexists|].
    apply IH. by apply elem_of_cons in Hin as [?|?].
Qed.

Lemma skip_configs_no_fault (n : string) (info : TestInfo)
    (seen todo : list config) (self : SeriesManager) (w : World) :
  Forall conditions_kept todo →
  no_fault (skip_configs n info seen todo self w).
Proof.
  revert seen self w.
  induction todo as [|c rest IH]; intros seen self w Hkept; simpl; [done|].
  apply Forall_cons in Hkept as [[[oi ->] [ni ->]] Hkept]. simpl.
  unfold new_TestRun.
  destruct (TestRun_new _ (fs w)) as [e|[t f1]] eqn:Hnew; simpl.
  { right. left. by eexists _, _. }
  destruct (add_tests _ _ (set_fs w f1)) as [[[e|] so] w2] eqn:Hadd.
  - simpl. apply RegistryFacts.add_tests_error in Hadd as ->.
    by right; right; right.
  - by apply IH.
Qed.

Lemma launch_no_fault (n : string) (self : SeriesManager) (w : World) :
  is_Some (test_info self !! n) → n ∈ not_started self →
  no_fault (launch n self w).
Proof.
  intros Hknown Hin. unfold launch.
  pose proof (run_test_no_fault n self w Hknown) as Hrun.
  destruct (run_test n self w) as [s1 w1|e s1 w1] eqn:Heq; [|done].
  apply run_test_Ok in Heq as (info & l & _ & _ & ->). simpl.
  unfold remove_not_started. simpl.
  by destruct (py_remove_elem_of _ _ Hin) as [r ->].
Qed.

Lemma skip_no_fault (n : string) (info : TestInfo) (self : SeriesManager)
    (w : World) :
  Forall conditions_kept (configs info) → n ∈ not_started self →
  no_fault (skip n info self w).
Proof.
  intros Hkept Hin. unfold skip.
  pose proof (skip_configs_no_fault n info [] (configs info) self w Hkept)
    as Hskip.
  pose proof (skip_configs_frame n info [] (configs info) self w)
    as ((_ & _ & _ & _ & Hnst & _) & _ & _).
  destruct (skip_configs n info [] (configs info) self w)
    as [s1 w1|e s1 w1]; [|done].
  simpl in *. unfold remove_not_started. rewrite Hnst.
  by destruct (py_remove_elem_of _ _ Hin) as [r ->].
Qed.

Lemma evaluate_no_fault (pv : string → option (list string))
    (rank : string → nat) (cfg : series_config) (n : string)
    (self : SeriesManager) (w : World) :
  sched_inv pv rank self → safe_inv cfg self → n ∈ not_started self →
  no_fault (evaluate n self w).
Proof.
  intros Hinv Hsafe Hin.
  destruct (inv_lists _ _ _ Hinv) as [_ Hperm].
  assert (Hall : ∀ x, x ∈ members self → x ∈ all_tests self).
  { intros x Hx. by rewrite <- Hperm. }
  assert (Hn : n ∈ all_tests self).
  { apply Hall. unfold members. apply elem_of_app. by left. }
  destruct (inv_known _ _ _ Hinv n Hn) as [info Hinfo].
  unfold evaluate. rewrite Hinfo.
  destruct (ready self (prev info)) eqn:Hready; [|done].
  destruct (section_lookup_is_Some (series_section self) n) as [tc ->].
  { rewrite (safe_section _ _ Hsafe), <- (safe_names _ _ Hsafe). done. }
  assert (Hlaunch : no_fault (launch n self w)).
  { apply launch_no_fault; [by eexists|done]. }
  destruct (py_eq_str (depends_pass tc) "True"); [|done].
  destruct (all_tests_passed_inr self w (prev info)) as [b ->].
  { intros p Hp. apply (inv_known _ _ _ Hinv), Hall. unfold members.
    rewrite !elem_of_app. right. right.
    by apply (proj1 (ready_spec _ _) Hready). }
  destruct b; [done|]. apply skip_no_fault; [|done].
  by eapply (safe_configs _ _ Hsafe).
Qed.

(** A loop that raises does so in one of its turns, the turns before it
    having returned. *)
Lemma for_each_Raise
    (body : string → SeriesManager → World → outcome)
    (names : list string) (self self' : SeriesManager) (w w' : World)
    (e : exn) :
  for_each body names self w = Raise e self' w' →
  ∃ seen n rest s w0,
    names = seen ++ n :: rest ∧ for_each body seen self w = Ok s w0 ∧
    body n s w0 = Raise e self' w'.
Proof.
  revert self w. induction names as [|n names IH]; intros self w; [done|].
  simpl. destruct (body n self w) as [s1 w1|e1 s1 w1] eqn:Hn; simpl.
  - intros Hrest. apply IH in Hrest
      as (seen & m & rest & s & w0 & -> & Hseen & Hm).
    exists (n :: seen), m, rest, s, w0. split_and!; [done| |done].
    simpl. by rewrite Hn.
  - intros [= <- <- <-]. by exists [], n, names, self, w.
Qed.

Lemma py_remove_other (x y : string) (l r : list string) :
  py_remove x l = inr r → y ∈ l → y ≠ x → y ∈ r.
Proof.
  intros Hr Hy Hne. rewrite (py_remove_Permutation _ _ _ Hr) in Hy.
  by apply elem_of_cons in Hy as [?|?].
Qed.

Lemma check_and_update_no_fault (pv : string → option (list string))
    (rank : string → nat) (self : SeriesManager) (w : World) :
  sched_inv pv rank self → no_fault (check_and_update self w).
Proof.
  intros Hinv. unfold check_and_update.
  destruct (for_each update_one (started self) self w)
    as [s1 w1|e s1 w1] eqn:Hrun; [done|].
  apply for_each_Raise in Hrun
    as (seen & n & rest & s & w0 & Hnames & Hseen & Hn).
  destruct (lists_inv_NoDup self (inv_lists _ _ _ Hinv)) as (_ & Hnd & _).
  assert (Hin : n ∈ started self).
  { rewrite Hnames. apply elem_of_app. right. by left. }
  assert (Hnotin : n ∉ seen).
  { rewrite Hnames in Hnd. apply NoDup_app in Hnd as (_ & Hdisj & _).
    intros Hs. apply (Hdisj n Hs). by left. }
  apply (for_each_Ok_world
    (λ seen' s _, test_info s = test_info self ∧
                  ∀ x, x ∈ started self → x ∉ seen' → x ∈ started s))
    in Hseen.
  - destruct Hseen as [Hti Hkeep].
    pose proof (update_one_no_fault n s w0) as Hfine.
    rewrite Hn in Hfine. apply Hfine.
    + rewrite Hti. destruct (inv_obj _ _ _ Hinv n Hin) as (info & l & -> & _).
      by eexists.
    + by apply Hkeep.
  - clear. intros sn m s2 wa s3 wb _ [Hti Hkeep] Hone.
    apply update_one_Ok in Hone as [_ [[_ ->]|[_ (r & Hr & ->)]]].
    + split; [done|]. intros x Hx Hnot. apply Hkeep; [done|].
      intros Hs. apply Hnot, elem_of_app. by left.
    + simpl. split; [done|]. intros x Hx Hnot.
      rewrite elem_of_app, list_elem_of_singleton in Hnot.
      eapply py_remove_other; [done| |]; [apply Hkeep|]; tauto.
  - split; [done|]. tauto.
Qed.

Lemma evaluate_safe (pv : string → option (list string))
    (rank : string → nat) (cfg : series_config) (n : string)
    (self self' : SeriesManager) (w w' : World) :
  sched_inv pv rank self → safe_inv cfg self →
  evaluate n self w = Ok self' w' → safe_inv cfg self'.
Proof.
  intros Hinv [Hsec Hnames Hcfgs] Hrun.
  destruct (lists_inv_NoDup self (inv_lists _ _ _ Hinv)) as (Hnd & _ & _).
  apply evaluate_Ok in Hrun
    as (_ & Hall & Hsec' &
        [(_ & -> & _)|(info & r & Hinfo & _ & Hr & Hns & Hcase)]); [done|].
  destruct (py_remove_NoDup_notin _ _ _ Hnd Hr) as [Hnot _].
  constructor; [congruence|congruence|].
  intros m info' Hm Hinfo'. rewrite Hns in Hm.
  assert (Hne : n ≠ m) by (intros ->; done).
  apply (py_remove_subseteq _ _ _ Hr) in Hm.
  destruct Hcase as [(l & f' & _ & Hti & _)|([Hti|[cs Hti]] & _)];
    rewrite Hti in Hinfo'.
  - rewrite lookup_insert_ne in Hinfo' by done. by eapply Hcfgs.
  - by eapply Hcfgs.
  - rewrite lookup_insert_ne in Hinfo' by done. by eapply Hcfgs.
Qed.

Lemma for_each_evaluate_no_fault (pv : string → option (list string))
    (rank : string → nat) (cfg : series_config) (s1 : SeriesManager)
    (w1 : World) :
  eventually_complete → sched_inv pv rank s1 → safe_inv cfg s1 →
  no_fault (for_each evaluate (not_started s1) s1 w1).
Proof.
  intros Hev Hinv Hsafe.
  destruct (for_each evaluate (not_started s1) s1 w1)
    as [s2 w2|e s2 w2] eqn:Hrun; [done|].
  apply for_each_Raise in Hrun
    as (seen & n & rest & s & w0 & Hnames & Hseen & Hn).
  destruct (lists_inv_NoDup s1 (inv_lists _ _ _ Hinv)) as (Hnd & _ & _).
  assert (Hin : n ∈ not_started s1).
  { rewrite Hnames. apply elem_of_app. right. by left. }
  assert (Hnotin : n ∉ seen).
  { rewrite Hnames in Hnd. apply NoDup_app in Hnd as (_ & Hdisj & _).
    intros Hs. apply (Hdisj n Hs). by left. }
  apply (for_each_Ok_world
    (λ seen' s _, sched_inv pv rank s ∧ safe_inv cfg s ∧
                  ∀ x, x ∈ not_started s1 → x ∉ seen' → x ∈ not_started s))
    in Hseen.
  - destruct Hseen as (Hinvs & Hsafes & Hkeep).
    pose proof (evaluate_no_fault pv rank cfg n s w0 Hinvs Hsafes) as Hfine.
    rewrite Hn in Hfine. by apply Hfine, Hkeep.
  - clear -Hev. intros sn m s2 wa s3 wb _ (Hinvs & Hsafes & Hkeep) Hone.
    pose proof (evaluate_inv pv rank m s2 s3 wa wb Hev Hinvs Hone) as Hinv'.
    pose proof (evaluate_safe pv rank cfg m s2 s3 wa wb Hinvs Hsafes Hone)
      as Hsafe'.
    split_and!; [done..|]. intros x Hx Hnot.
    rewrite elem_of_app, list_elem_of_singleton in Hnot.
    apply evaluate_Ok in Hone
      as (_ & _ & _ &
          [(_ & -> & _)|(info & r & _ & _ & Hr & -> & _)]).
    + apply Hkeep; tauto.
    + eapply py_remove_other; [done| |]; [apply Hkeep|]; tauto.
  - split_and!; [done..|]. tauto.
Qed.

Lemma poll_no_fault (pv : string → option (list string))
    (rank : string → nat) (cfg : series_config) (self : SeriesManager)
    (w : World) :
  eventually_complete → sched_inv pv rank self → safe_inv cfg self →
  no_fault (poll self w) ∧
  ∀ s' w', poll self w = Ok s' w' → safe_inv cfg s'.
Proof.
  intros Hev Hinv Hsafe.
  pose proof (sched_inv_record pv rank self Polled Hinv) as Hinv0.
  assert (Hsafe0 : safe_inv cfg (record self Polled)).
  { destruct Hsafe. by constructor. }
  unfold poll.
  pose proof (check_and_update_no_fault pv rank _ w Hinv0) as Hcheck.
  destruct (check_and_update (record self Polled) w)
    as [s1 w1|e s1 w1] eqn:Hc; simpl; [|done].
  destruct (check_and_update_Ok_inv pv rank _ _ _ _ Hinv0 Hc)
    as (Hinv1 & _ & Hns1 & Hti1 & Hall1 & _).
  assert (Hsafe1 : safe_inv cfg s1).
  { destruct Hsafe0 as [Hsec Hnames Hcfgs]. constructor.
    - unfold check_and_update in Hc.
      apply (for_each_Ok_world
        (λ _ s _, series_section s
                  = series_section (record self Polled))) in Hc;
        [congruence| |done].
      clear. intros _ n s w s' w' _ Hs Hone.
      by apply update_one_Ok in Hone as [_ [[_ ->]|[_ (r & _ & ->)]]].
    - congruence.
    - intros n info Hn Hinfo. rewrite Hns1 in Hn. rewrite Hti1 in Hinfo.
      by eapply Hcfgs. }
  pose proof (for_each_evaluate_no_fault pv rank cfg s1 w1 Hev Hinv1 Hsafe1)
    as Heval.
  destruct (for_each evaluate (not_started s1) s1 w1)
    as [s2 w2|e s2 w2] eqn:He; simpl; [|done].
  split; [done|]. intros s' w' [= <- <-].
  apply (for_each_Ok_world
    (λ _ s _, sched_inv pv rank s ∧ safe_inv cfg s)) in He;
    [by destruct He| |done].
  clear -Hev. intros _ n s w s' w' _ [Hi Hs] Hone. split.
  - by eapply evaluate_inv.
  - by eapply evaluate_safe.
Qed.

Lemma poll_loop_no_fault (pv : string → option (list string))
    (rank : string → nat) (cfg : series_config) (fuel : nat)
    (self : SeriesManager) (w : World) :
  eventually_complete → sched_inv pv rank self → safe_inv cfg self →
  no_fault_run (poll_loop fuel self w).
Proof.
  intros Hev. revert self w.
  induction fuel as [|fuel IH]; intros self w Hinv Hsafe; simpl.
  - by destruct (not_started self).
  - destruct (not_started self) eqn:Hns; [done|].
    destruct (poll_no_fault pv rank cfg self w Hev Hinv Hsafe)
      as [Hfine Hkeep].
    destruct (poll self w) as [s' w'|e s' w'] eqn:Hpoll; [|done].
    apply IH; [|by eapply Hkeep].
    by destruct (poll_Ok_inv pv rank self s' w w' Hev Hinv Hpoll).
Qed.

Lemma merge_all_kept (test_cfg : series_test) (raws : list config) :
  Forall conditions_kept raws →
  ∃ merged, merge_all test_cfg raws = inr merged ∧
            Forall conditions_kept merged.
Proof.
  induction raws as [|raw raws IH]; intros Hkept; simpl.
  - by exists [].
  - apply Forall_cons in Hkept as [[[oi Hoi] [ni Hni]] Hkept].
    destruct (IH Hkept) as (merged & -> & Hmerged).
    unfold merge_conditions. rewrite Hoi, Hni.
    rewrite !UnionDictionaryFacts.union_dictionary_merge.
    eexists. split; [done|]. constructor; [|done]. split; by eexists.
Qed.

Lemma prepare_all_kept (so : TestSeries) (cfg : series_config)
    (g : gmap string (list string)) (section : list (string * series_test))
    (ti : gmap string TestInfo) :
  raw_configs_complete →
  (∀ n info, ti !! n = Some info → Forall conditions_kept (configs info)) →
  match prepare_all so cfg g section ti with
  | inl e => external e
  | inr ti' =>
      ∀ n info, ti' !! n = Some info → Forall conditions_kept (configs info)
  end.
Proof.
  intros Hraw. revert ti.
  induction section as [|[k tc] section IH]; intros ti Hti; simpl; [done|].
  unfold prepare_test.
  destruct (load_raw_configs [k] [] (universal_modes cfg ++ modes tc))
    as [e|raws] eqn:Hload.
  { right. right. left. by eexists _, _, _. }
  destruct (merge_all_kept tc raws (Hraw _ _ _ _ Hload))
    as (merged & -> & Hmerged).
  apply IH. intros n info Hn. destruct (decide (k = n)) as [->|Hne].
  - rewrite lookup_insert_eq in Hn. by injection Hn as <-.
  - rewrite lookup_insert_ne in Hn by done. by eapply Hti.
Qed.

Lemma set_up_safe (so : TestSeries) (cfg : series_config) :
  raw_configs_complete →
  match set_up so cfg with
  | inl e => external e
  | inr self0 =>
      series_section self0 = series cfg ∧
      ∀ n info, test_info self0 !! n = Some info →
                Forall conditions_kept (configs info)
  end.
Proof.
  intros Hraw. unfold set_up.
  pose proof (prepare_all_kept so cfg (make_dep_graph (series cfg))
                (series cfg) ∅ Hraw) as Hprep.
  destruct (prepare_all _ _ _ _ _) as [e|ti]; [by apply Hprep|].
  split; [done|]. by apply Hprep.
Qed.

Lemma kick_off_no_fault (self0 : SeriesManager) (w : World) :
  (∀ n, n ∈ all_tests self0 → is_Some (test_info self0 !! n)) →
  no_fault (kick_off self0 w).
Proof.
  intros Hknown. unfold kick_off.
  destruct (for_each kick_off_one (all_tests self0) self0 w)
    as [s1 w1|e s1 w1] eqn:Hrun; [done|].
  apply for_each_Raise in Hrun
    as (seen & n & rest & s & w0 & Hnames & Hseen & Hn).
  assert (Hkeep : ∀ m, is_Some (test_info self0 !! m) →
                       is_Some (test_info s !! m)).
  { apply (for_each_Ok_world
      (λ _ s _, ∀ m, is_Some (test_info self0 !! m) →
                     is_Some (test_info s !! m))
      kick_off_one seen self0 s w w0); [|done|exact Hseen].
    clear. intros sn m s2 wa s3 wb _ Hkeep Hone k Hk.
    apply kick_off_one_Ok in Hone
      as (info & Hinfo & [(_ & -> & _)|(_ & l & s1 & _ & -> & ->)]);
      [by apply Hkeep|].
    simpl. destruct (decide (m = k)) as [->|Hne].
    - rewrite lookup_insert_eq. by eexists.
    - rewrite lookup_insert_ne by done. by apply Hkeep. }
  unfold kick_off_one in Hn.
  destruct (Hkeep n) as [info Hinfo].
  { apply Hknown. rewrite Hnames. apply elem_of_app. right. by left. }
  rewrite Hinfo in Hn. destruct (prev info); [|done].
  pose proof (run_test_no_fault n s w0 ltac:(by eexists)) as Hfine.
  destruct (run_test n s w0) as [s2 w2|e2 s2 w2]; [done|].
  simpl in Hn. by injection Hn as <- <- <-.
Qed.



Lemma kick_off_safe (cfg : series_config) (self0 self1 : SeriesManager)
    (w w1 : World) :
  series_section self0 = series cfg → all_tests self0 = (series cfg).*1 →
  (∀ n info, test_info self0 !! n = Some info →
             Forall conditions_kept (configs info)) →
  kick_off self0 w = Ok self1 w1 → safe_inv cfg self1.
Proof.
  intros Hsec Hnames Hkept Hrun. unfold kick_off in Hrun.
  apply (for_each_Ok_world
    (λ _ s _, series_section s = series cfg ∧
              all_tests s = (series cfg).*1 ∧
              ∀ n info, test_info s !! n = Some info →
                        Forall conditions_kept (configs info))) in Hrun.
  - destruct Hrun as (H1 & H2 & H3). constructor; [done..|].
    intros n info _. apply H3.
  - clear. intros _ m s2 wa s3 wb _ (H1 & H2 & H3) Hone.
    apply kick_off_one_Ok in Hone
      as (info & Hinfo & [(_ & -> & _)|(_ & l & s1 & _ & -> & ->)]);
      [done|].
    simpl. split_and!; [done..|]. intros k info' Hk.
    destruct (decide (m = k)) as [->|Hne].
    + rewrite lookup_insert_eq in Hk. injection Hk as <-. simpl.
      by eapply H3.
    + rewrite lookup_insert_ne in Hk by done. by eapply H3.
  - done.
Qed.

(** X24. In a series with names that are all different and no cycle, with
    test runs that complete and a resolver whose configurations have their
    two conditional dictionaries, the constructor raises only what a
    collaborator raised or the error of a link that could not be made: its
    own look-ups and removals never fail. *)
Theorem constructor_raises_only_from_outside (rank : string → nat)
    (fuel : nat) (w : World) (so : TestSeries) (cfg : series_config) :
  NoDup (series cfg).*1 → acyclic_by rank cfg → eventually_complete →
  raw_configs_complete →
  no_fault_run (SeriesManager_init fuel w so cfg).
Proof.
  intros Hnd Hacyclic Hev Hraw. unfold SeriesManager_init.
  pose proof (set_up_safe so cfg Hraw) as Hsafe0.
  destruct (set_up so cfg) as [e|self0] eqn:Hset; [done|].
  destruct Hsafe0 as [Hsec Hkept].
  destruct (set_up_known so cfg self0 Hset) as [Hknown _].
  pose proof (kick_off_no_fault self0 w Hknown) as Hkick.
  destruct (kick_off self0 w) as [self1 w1|e self1 w1] eqn:Hrun; [|done].
  apply (poll_loop_no_fault (prev_of self0) rank cfg); [done| |].
  - by eapply kick_off_sched_inv.
  - eapply kick_off_safe; [done| |done..].
    by apply set_up_lists in Hset as (-> & _).
Qed.

(** *** The graph and the configurations after setting up *)

Lemma NoDup_fst_unique {A B : Type} (l : list (A * B)) (k : A) (v v' : B) :
  NoDup l.*1 → (k, v) ∈ l → (k, v') ∈ l → v = v'.
Proof.
  induction l as [|[k0 v0] l IH]; intros Hnd Hv Hv'.
  - by apply elem_of_nil in Hv.
  - rewrite fmap_cons in Hnd. apply NoDup_cons in Hnd as [Hnotin Hnd].
    assert (Hfst : ∀ u, (k, u) ∈ l → k ∈ l.*1).
    { intros u Hu. apply list_elem_of_fmap. by exists (k, u). }
    apply elem_of_cons in Hv as [Hv|Hv];
      apply elem_of_cons in Hv' as [Hv'|Hv']; simplify_eq; try done.
    + by apply Hfst in Hv'.
    + by apply Hfst in Hv.
    + by apply IH.
Qed.

Lemma make_dep_graph_spec (section : list (string * series_test))
    (n : string) :
  NoDup section.*1 →
  make_dep_graph section !! n = depends_on <$> section_lookup section n.
Proof.
  intros Hnd. unfold make_dep_graph.
  destruct (make_dep_graph_lookup section ∅ n) as [Hsome Hlook].
  assert (Hsec : ∀ tc, section_lookup section n = Some tc ↔ (n, tc) ∈ section).
  { clear -Hnd. induction section as [|[k tc0] section IH]; intros tc; simpl.
    - split; [done|]. intros H. by apply elem_of_nil in H.
    - rewrite fmap_cons in Hnd. apply NoDup_cons in Hnd as [Hnotin Hnd].
      rewrite elem_of_cons. destruct (decide (k = n)) as [->|Hne].
      + split; [intros [= ->]; by left|].
        intros [[= ->]|Hin]; [done|]. exfalso. apply Hnotin.
        apply list_elem_of_fmap. by exists (n, tc).
      + rewrite IH by done. split; [by right|]. by intros [[= ? ?]|?]. }
  destruct (section_lookup section n) as [tc|] eqn:Htc; simpl.
  - pose proof (proj1 (Hsec tc) eq_refl) as Hmem. clear Htc.
    rename Hmem into Htc. destruct Hsome as [ps Hps].
    { apply list_elem_of_fmap. by exists (n, tc). }
    rewrite Hps. destruct (Hlook ps Hps) as [?|(tc' & Hin & ->)]; [done|].
    by rewrite (NoDup_fst_unique section n tc tc' Hnd Htc Hin).
  - destruct (foldl _ ∅ section !! n) as [ps|] eqn:Hps; [|done].
    destruct (Hlook ps eq_refl) as [?|(tc' & Hin & _)]; [done|].
    by apply Hsec in Hin.
Qed.

Lemma prepare_all_spec (so : TestSeries) (cfg : series_config)
    (g : gmap string (list string)) (section : list (string * series_test))
    (ti ti' : gmap string TestInfo) :
  NoDup section.*1 → prepare_all so cfg g section ti = inr ti' →
  (∀ n tc, (n, tc) ∈ section →
     ∃ info, prepare_test so cfg g n tc = inr info ∧ ti' !! n = Some info) ∧
  (∀ n, n ∉ section.*1 → ti' !! n = ti !! n).
Proof.
  revert ti. induction section as [|[k tc0] section IH]; intros ti Hnd Hprep.
  - injection Hprep as <-. split; [|done].
    intros n tc H. by apply elem_of_nil in H.
  - rewrite fmap_cons in Hnd. apply NoDup_cons in Hnd as [Hnotin Hnd].
    simpl in Hprep.
    destruct (prepare_test so cfg g k tc0) as [e|info0] eqn:Hk; [done|].
    destruct (IH _ Hnd Hprep) as [Hin Hout]. split.
    + intros n tc Hn. apply elem_of_cons in Hn as [[= -> ->]|Hn].
      * exists info0. split; [done|].
        rewrite Hout by done. apply lookup_insert_eq.
      * by apply Hin.
    + intros n Hn. rewrite fmap_cons, not_elem_of_cons in Hn.
      destruct Hn as [Hne Hn]. rewrite Hout by done.
      by rewrite lookup_insert_ne.
Qed.

Lemma prepare_test_inr (so : TestSeries) (cfg : series_config)
    (g : gmap string (list string)) (n : string) (tc : series_test)
    (info : TestInfo) :
  prepare_test so cfg g n tc = inr info →
  ∃ raw_configs,
    load_raw_configs [n] [] (universal_modes cfg ++ modes tc)
      = inr raw_configs ∧
    merge_all tc raw_configs = inr (configs info) ∧
    args info = args_list so (universal_modes cfg ++ modes tc) n ∧
    prev info = default [] (g !! n) ∧
    next info = next_list g (series cfg).*1 n ∧ obj info = None.
Proof.
  unfold prepare_test.
  destruct (load_raw_configs _ _ _) as [e|raws] eqn:Hload; [done|].
  destruct (merge_all tc raws) as [e|merged] eqn:Hmerge; [done|].
  intros [= <-]. exists raws. by split_and!.
Qed.

(** X15. After setting up a series with names that are all different,
    the tests known to the manager are those of the series; each has the
    [depends_on] list of its section as [prev], no test runs yet, and the
    command line [run --series-id=s<id> -m<mode>... <name>] with the modes
    of the series before its own; and the graph is linked both ways: [b] is
    in the [next] list of [a] exactly when [a] is in the [prev] list of
    [b]. *)
Theorem set_up_links_the_tests_both_ways (so : TestSeries)
    (cfg : series_config) (self : SeriesManager) :
  NoDup (series cfg).*1 → set_up so cfg = inr self →
  (∀ n, is_Some (test_info self !! n) ↔ n ∈ (series cfg).*1) ∧
  (∀ n tc info,
     (n, tc) ∈ series cfg → test_info self !! n = Some info →
     prev info = depends_on tc ∧ obj info = None ∧
     args info = ["run"; "--series-id=" +:+ series_id so]
                   ++ map (λ mode, "-m" +:+ mode)
                        (universal_modes cfg ++ modes tc) ++ [n]) ∧
  (∀ a b info_a info_b,
     test_info self !! a = Some info_a → test_info self !! b = Some info_b →
     (b ∈ next info_a ↔ a ∈ prev info_b)).
Proof.
  intros Hnd. unfold set_up.
  destruct (prepare_all so cfg (make_dep_graph (series cfg)) (series cfg) ∅)
    as [e|ti] eqn:Hprep; [done|].
  intros [= <-]. simpl.
  destruct (prepare_all_spec _ _ _ _ _ _ Hnd Hprep) as [Hin Hout].
  assert (Hknown : ∀ n, is_Some (ti !! n) ↔ n ∈ (series cfg).*1).
  { intros n. split.
    - intros Hn. destruct (decide (n ∈ (series cfg).*1)); [done|].
      rewrite Hout, lookup_empty in Hn by done. by destruct Hn.
    - intros Hn. apply list_elem_of_fmap in Hn as ([n' tc] & -> & Hn).
      destruct (Hin n' tc Hn) as (info & _ & Hl). simpl. by eexists. }
  assert (Hentry : ∀ n info, ti !! n = Some info →
    ∃ tc, (n, tc) ∈ series cfg ∧
          prepare_test so cfg (make_dep_graph (series cfg)) n tc = inr info).
  { intros n info Hn.
    assert (Hmem : n ∈ (series cfg).*1) by (apply Hknown; by eexists).
    apply list_elem_of_fmap in Hmem as ([n' tc] & -> & Hmem).
    destruct (Hin n' tc Hmem) as (info' & Hp & Hl). simpl in *.
    exists tc. split; [done|]. congruence. }
  assert (Hprev : ∀ n tc, (n, tc) ∈ series cfg →
    default [] (make_dep_graph (series cfg) !! n) = depends_on tc).
  { intros n tc Hn. rewrite make_dep_graph_spec by done.
    destruct (section_lookup (series cfg) n) as [tc'|] eqn:Hl.
    - simpl. f_equal. symmetry.
      apply (NoDup_fst_unique (series cfg) n tc tc' Hnd Hn).
      clear -Hl. induction (series cfg) as [|[k v] l IH]; [done|].
      simpl in Hl. destruct (decide (k = n)) as [->|?].
      + injection Hl as ->. by left.
      + right. by apply IH.
    - exfalso. destruct (section_lookup_is_Some (series cfg) n) as [? ?];
        [|congruence].
      apply list_elem_of_fmap. by exists (n, tc). }
  split_and!; [done| |].
  - intros n tc info Hn Hinfo.
    destruct (Hin n tc Hn) as (info' & Hp & Hl).
    assert (info' = info) as -> by congruence.
    apply prepare_test_inr in Hp as (raws & _ & _ & Hargs & Hpv & _ & Hobj).
    split_and!; [|done|done]. rewrite Hpv. by apply Hprev.
  - intros a b ia ib Ha Hb.
    destruct (Hentry a ia Ha) as (tca & _ & Hpa).
    destruct (Hentry b ib Hb) as (tcb & _ & Hpb).
    apply prepare_test_inr in Hpa as (_ & _ & _ & _ & _ & -> & _).
    apply prepare_test_inr in Hpb as (_ & _ & _ & _ & -> & _).
    unfold next_list. rewrite list_elem_of_filter.
    split; [tauto|]. intros Hab. split; [done|].
    apply Hknown. by eexists.
Qed.




(** *** [check_and_update] as a filter *)

Lemma py_remove_app_notin (x : string) (kept rest : list string) :
  x ∉ kept → py_remove x (kept ++ x :: rest) = inr (kept ++ rest).
Proof.
  induction kept as [|y kept IH]; intros Hnotin; simpl.
  - by rewrite decide_True.
  - apply not_elem_of_cons in Hnotin as [Hne Hnotin].
    rewrite decide_False by done. by rewrite IH.
Qed.

Lemma for_each_update_one (names kept : list string) (s : SeriesManager)
    (w : World) :
  started s = kept ++ names →
  (∀ n, n ∈ kept → done_now s w n = false) →
  (∀ n, n ∈ names → is_Some (test_info s !! n)) →
  ∃ s',
    for_each update_one names s w = Ok s' w ∧
    started s' = kept ++ filter (λ n, ¬ done_now s w n) names ∧
    finished s' = finished s ++ filter (λ n, done_now s w n) names ∧
    trace s' = trace s ++ (Completed <$> filter (λ n, done_now s w n) names) ∧
    test_info s' = test_info s ∧ not_started s' = not_started s ∧
    all_tests s' = all_tests s ∧ series_obj s' = series_obj s ∧
    series_section s' = series_section s ∧ dep_graph s' = dep_graph s.
Proof.
  revert kept s. induction names as [|n names IH]; intros kept s Hst Hkept Hknown.
  - exists s. rewrite !filter_nil, !app_nil_r in *. by split_and!.
  - destruct (Hknown n) as [info Hinfo]; [by left|].
    assert (Hdone : is_done s w n = inr (done_now s w n)).
    { unfold done_now, is_done. rewrite Hinfo. by destruct (obj info). }
    simpl. unfold update_one at 1. rewrite Hdone.
    rewrite !filter_cons.
    destruct (done_now s w n) eqn:Hn; simpl.
    + assert (Hnotin : n ∉ kept).
      { intros Hin. apply Hkept in Hin. congruence. }
      rewrite Hst, py_remove_app_notin by done. simpl.
      destruct (IH kept
                  (record (set_finished (set_started s (kept ++ names))
                             (finished s ++ [n])) (Completed n)))
        as (s' & Hrun & Hst' & Hf' & Htr' & H1 & H2 & H3 & H4 & H5 & H6);
        [done|done|..].
      { intros m Hm. apply Hknown. by right. }
      exists s'. split; [done|]. simpl in *.
      destruct (decide (¬ true)) as [Hb|_]; [by destruct Hb|].
      destruct (decide (Is_true true)) as [_|Hb]; [|exfalso; apply Hb; exact I].
      split_and!. all: try done.
      * rewrite Hf'. by rewrite <- app_assoc.
      * rewrite Htr'. simpl. by rewrite <- app_assoc.
    + destruct (IH (kept ++ [n]) s) as (s' & Hrun & Hst' & Hrest).
      { by rewrite <- app_assoc. }
      { intros m Hm. apply elem_of_app in Hm as [Hm|Hm]; [by apply Hkept|].
        by apply list_elem_of_singleton in Hm as ->. }
      { intros m Hm. apply Hknown. by right. }
      exists s'. split; [done|].
      destruct (decide (¬ false)) as [_|Hb]; [|exfalso; apply Hb; tauto].
      destruct (decide (Is_true false)) as [Hb|_]; [by destruct Hb|].
      split; [|done]. rewrite Hst'. by rewrite <- app_assoc.
Qed.

(** X17. With every started test known, [check_and_update] returns
    without raising; it leaves in [started] the tests that are not done, in
    their order, appends the done ones, in their order, to [finished], and
    touches neither [not_started], nor the tests' entries, nor the
    world. *)
Theorem check_and_update_moves_what_is_done (self : SeriesManager)
    (w : World) :
  (∀ n, n ∈ started self → is_Some (test_info self !! n)) →
  ∃ self',
    check_and_update self w = Ok self' w ∧
    started self' = filter (λ n, ¬ done_now self w n) (started self) ∧
    finished self'
      = finished self ++ filter (λ n, done_now self w n) (started self) ∧
    trace self'
      = trace self
        ++ (Completed <$> filter (λ n, done_now self w n) (started self)) ∧
    not_started self' = not_started self ∧
    test_info self' = test_info self ∧ series_obj self' = series_obj self.
Proof.
  intros Hknown. unfold check_and_update.
  destruct (for_each_update_one (started self) [] self w)
    as (s' & Hrun & Hst & Hf & Htr & Hti & Hns & _ & Hso & _); [done| |done|].
  { intros n Hn. by apply elem_of_nil in Hn. }
  exists s'. by split_and!.
Qed.

(** *** The result of [all_tests_passed] *)

(** X18. On known tests [all_tests_passed] returns, and returns [True]
    exactly when every one of them was launched and has only test runs
    whose result is ['PASS']; a test that was skipped, having no test
    runs, makes it [False]. *)
Theorem all_tests_passed_iff_every_test_passed (self : SeriesManager)
    (w : World) (test_names : list string) :
  (∀ p, p ∈ test_names → is_Some (test_info self !! p)) →
  ∃ b, all_tests_passed self w test_names = inr b ∧
       (b = true ↔ ∀ p, p ∈ test_names → passed self w p).
Proof.
  induction test_names as [|p rest IH]; intros Hknown; simpl.
  - exists true. split; [done|]. split; [|done].
    intros _ p Hp. by apply elem_of_nil in Hp.
  - destruct (Hknown p) as [info Hinfo]; [by left|]. rewrite Hinfo.
    destruct (obj info) as [l|] eqn:Hobj.
    + destruct (forallb _ l) eqn:Hall.
      * destruct IH as (b & -> & Hb).
        { intros q Hq. apply Hknown. by right. }
        exists b. split; [done|]. rewrite Hb. split.
        -- intros Hrest q Hq. apply elem_of_cons in Hq as [->|Hq];
             [|by apply Hrest].
           exists info, l. split_and!; [done..|]. intros t Ht.
           rewrite forallb_forall in Hall.
           apply py_eq_str_true, Hall. by apply list_elem_of_In.
        -- intros Hall' q Hq. apply Hall'. by right.
      * exists false. split; [done|]. split; [done|]. intros Hall'.
        destruct (Hall' p) as (info' & l' & Hi' & Ho' & Hpass); [by left|].
        assert (l' = l) as -> by congruence.
        assert (forallb (λ t, py_eq_str (results_result (now w) t) "PASS") l
                = true); [|congruence].
        apply forallb_forall. intros t Ht. apply py_eq_str_true, Hpass.
        by apply list_elem_of_In.
    + exists false. split; [done|]. split; [done|]. intros Hall'.
      destruct (Hall' p) as (info' & l' & Hi' & Ho' & _); [by left|].
      congruence.
Qed.

(** *** The launches before the loop *)

Lemma run_cmd_frame (args : list string) (w w' : World) (l : list TestRun) :
  run_cmd args w = inr (l, w') → now w' = now w ∧ logged w' = logged w.
Proof.
  unfold run_cmd. destruct (run_cmd_run args (fs w)) as [e|[l' f]]; [done|].
  by intros [= _ <-].
Qed.

Lemma kick_off_trace (self0 self1 : SeriesManager) (w w1 : World) :
  started self0 = [] → trace self0 = [] →
  kick_off self0 w = Ok self1 w1 →
  trace self1 = Launched <$> started self1 ∧
  now w1 = now w ∧ logged w1 = logged w ∧
  series_obj self1 = series_obj self0.
Proof.
  intros Hst Htr Hrun. unfold kick_off in Hrun.
  apply (for_each_Ok_world
    (λ _ s wx, trace s = Launched <$> started s ∧ now wx = now w ∧
               logged wx = logged w ∧ series_obj s = series_obj self0))
    in Hrun; [done| |by rewrite Hst, Htr].
  clear. intros _ n s wa s' wb _ (Htr & Hnow & Hlog & Hso) Hone.
  apply kick_off_one_Ok in Hone
    as (info & Hinfo & [(_ & -> & ->)|(_ & l & s1 & Hcmd & -> & ->)]);
    [done|].
  apply run_cmd_frame in Hcmd as [Hn Hl]. simpl.
  rewrite fmap_app, Htr. split_and!; [done|congruence..].
Qed.

Lemma set_up_prev_of (so : TestSeries) (cfg : series_config)
    (self0 : SeriesManager) (n : string) (tc : series_test) :
  NoDup (series cfg).*1 → set_up so cfg = inr self0 →
  (n, tc) ∈ series cfg → prev_of self0 n = Some (depends_on tc).
Proof.
  intros Hnd Hset Hn.
  destruct (set_up_known so cfg self0 Hset) as [Hknown0 _].
  pose proof Hset as Hlists.
  apply set_up_lists in Hlists as (Hall0 & _).
  destruct (Hknown0 n) as [info Hinfo].
  { rewrite Hall0. apply list_elem_of_fmap. by exists (n, tc). }
  unfold prev_of. rewrite Hinfo. simpl. f_equal.
  revert Hset Hinfo. unfold set_up.
  destruct (prepare_all so cfg (make_dep_graph (series cfg)) (series cfg) ∅)
    as [e|ti] eqn:Hprep; [done|].
  intros [= <-]. simpl. intros Hinfo.
  destruct (prepare_all_spec _ _ _ _ _ _ Hnd Hprep) as [Hin _].
  destruct (Hin n tc Hn) as (info' & Hp & Hl).
  assert (info' = info) as -> by congruence.
  apply prepare_test_inr in Hp as (_ & _ & _ & _ & -> & _).
  rewrite make_dep_graph_spec by done.
  destruct (section_lookup (series cfg) n) as [tc'|] eqn:Hl'.
  - simpl. f_equal.
    apply (NoDup_fst_unique (series cfg) n tc' tc Hnd); [|done].
    clear -Hl'. induction (series cfg) as [|[k v] l IH]; [done|].
    simpl in Hl'. destruct (decide (k = n)) as [->|?].
    + injection Hl' as ->. by left.
    + right. by apply IH.
  - exfalso. destruct (section_lookup_is_Some (series cfg) n) as [? ?];
      [|congruence].
    apply list_elem_of_fmap. by exists (n, tc).
Qed.

(** X19. The loop before the [while] launches the tests whose
    [depends_on] is empty, in the order of the series file, and nothing
    else: [started] holds their names in that order, the events are their
    launches, nothing is finished and no time has passed. If one was
    launched, [not_started] holds, each once, the tests with a non-empty
    [depends_on]. *)
Theorem kick_off_launches_in_file_order (so : TestSeries)
    (cfg : series_config) (self0 self1 : SeriesManager) (w w1 : World) :
  NoDup (series cfg).*1 →
  set_up so cfg = inr self0 → kick_off self0 w = Ok self1 w1 →
  started self1
    = (filter (λ item, depends_on item.2 = []) (series cfg)).*1 ∧
  trace self1 = Launched <$> started self1 ∧
  finished self1 = [] ∧ now w1 = now w ∧
  (started self1 ≠ [] →
   NoDup (not_started self1) ∧
   ∀ n, n ∈ not_started self1 ↔
        ∃ tc, (n, tc) ∈ series cfg ∧ depends_on tc ≠ []).
Proof.
  intros Hnd Hset Hrun.
  pose proof Hset as Hlists.
  apply set_up_lists in Hlists as (Hall0 & _ & Hst0 & Hf0 & Hns0 & Htr0 & _).
  destruct (set_up_known so cfg self0 Hset) as [Hknown0 Hobj0].
  destruct (kick_off_lists self0 self1 w w1 Hst0 Hf0 Hns0 Hknown0 Hobj0 Hrun)
    as (Hall & _ & _ & Hf & Hst & Hns & _).
  destruct (kick_off_trace self0 self1 w w1 Hst0 Htr0 Hrun)
    as (Htr & Hnow & _).
  assert (Hprev : ∀ n tc, (n, tc) ∈ series cfg →
                          prev_of self0 n = Some (depends_on tc)).
  { intros n tc Hn. by apply (set_up_prev_of so cfg). }
  assert (Hroots : started self1
                   = (filter (λ item, depends_on item.2 = []) (series cfg)).*1).
  { rewrite Hst, Hall0. clear -Hprev.
    induction (series cfg) as [|[n tc] l IH]; [done|].
    rewrite fmap_cons, !filter_cons. simpl.
    rewrite (Hprev n tc) by (by left).
    rewrite IH by (intros m tc' Hm; apply Hprev; by right).
    destruct (decide (Some (depends_on tc) = Some [])) as [Heq|Hne];
      destruct (decide (depends_on tc = [])) as [Heq'|Hne']; try done.
    - by injection Heq.
    - by rewrite Heq' in Hne. }
  split_and!; [done..|].
  intros Hsome. destruct Hns as [[Hst1 _]|Hns1]; [done|].
  rewrite Hns1. split; [apply list_of_set_NoDup|].
  intros n. rewrite list_of_set_elem_of, list_elem_of_filter, Hall, Hall0.
  rewrite Hroots. split.
  - intros [Hnot Hn]. apply list_elem_of_fmap in Hn as ([n' tc] & -> & Hn).
    exists tc. split; [done|]. intros Hroot. apply Hnot.
    apply list_elem_of_fmap. exists (n', tc). split; [done|].
    by apply list_elem_of_filter.
  - intros (tc & Hn & Hdeps). split.
    + intros Hin. apply list_elem_of_fmap in Hin as ([n' tc'] & -> & Hin).
      apply list_elem_of_filter in Hin as [Hroot Hin]. simpl in *.
      by rewrite (NoDup_fst_unique (series cfg) n' tc tc' Hnd Hn Hin)
        in Hdeps.
    + apply list_elem_of_fmap. by exists (n, tc).
Qed.

Lemma list_of_set_nil : list_of_set [] = [].
Proof.
  destruct (list_of_set []) as [|x l] eqn:Heq; [done|].
  assert (Hx : x ∈ list_of_set []) by (rewrite Heq; by left).
  apply (proj1 (list_of_set_elem_of _ _)) in Hx. by apply elem_of_nil in Hx.
Qed.

Lemma filter_none {A : Type} (P : A → Prop) `{!∀ x, Decision (P x)}
    (l : list A) :
  (∀ x, x ∈ l → ¬ P x) → filter P l = [].
Proof.
  induction l as [|x l IH]; intros Hall; [done|].
  rewrite filter_cons_False by (apply Hall; by left).
  apply IH. intros y Hy. apply Hall. by right.
Qed.

Lemma filter_all {A : Type} (P : A → Prop) `{!∀ x, Decision (P x)}
    (l : list A) :
  (∀ x, x ∈ l → P x) → filter P l = l.
Proof.
  induction l as [|x l IH]; intros Hall; [done|].
  rewrite filter_cons_True by (apply Hall; by left).
  f_equal. apply IH. intros y Hy. apply Hall. by right.
Qed.

Lemma kick_off_before_the_loop (self0 : SeriesManager) (w : World) :
  trace self0 = [] → Polled ∉ trace (state_of (kick_off self0 w)).
Proof.
  intros Htr.
  assert (Hinv : kick_off_inv (prev_of self0) self0).
  { split_and!; [|by rewrite Htr; apply not_elem_of_nil|done].
    rewrite Htr. apply each_decision_nil. }
  unfold kick_off.
  apply (for_each_state (kick_off_inv (prev_of self0))) with
    (body := kick_off_one) (names := all_tests self0) (w := w) in Hinv.
  - by destruct Hinv as (_ & ? & _).
  - intros n s w' _. apply kick_off_one_roots.
Qed.

(** X20. A series in which no test depends on another is launched as a
    whole before the [while] loop, which is never entered: the constructor
    returns, whatever the fuel, with every test in [started] in file order,
    without having waited; if it raises, it does so before any turn. *)
Theorem independent_tests_are_launched_at_once (fuel : nat) (w : World)
    (so : TestSeries) (cfg : series_config) :
  NoDup (series cfg).*1 →
  (∀ n tc, (n, tc) ∈ series cfg → depends_on tc = []) →
  match SeriesManager_init fuel w so cfg with
  | Returned self w' =>
      started self = (series cfg).*1 ∧
      trace self = Launched <$> (series cfg).*1 ∧
      finished self = [] ∧ not_started self = [] ∧ now w' = now w
  | Raised _ self _ => Polled ∉ trace self
  | Looping _ _ => False
  end.
Proof.
  intros Hnd Hroots. unfold SeriesManager_init.
  destruct (set_up so cfg) as [e|self0] eqn:Hset.
  { apply not_elem_of_nil. }
  pose proof Hset as Hlists.
  apply set_up_lists in Hlists as (Hall0 & _ & Hst0 & Hf0 & Hns0 & Htr0 & _).
  pose proof (kick_off_before_the_loop self0 w Htr0) as Hbefore.
  destruct (kick_off self0 w) as [self1 w1|e self1 w1] eqn:Hrun; [|done].
  destruct (set_up_known so cfg self0 Hset) as [Hknown0 Hobj0].
  destruct (kick_off_lists self0 self1 w w1 Hst0 Hf0 Hns0 Hknown0 Hobj0 Hrun)
    as (Hall & _ & _ & Hf & Hst & Hns & _).
  destruct (kick_off_trace self0 self1 w w1 Hst0 Htr0 Hrun)
    as (Htr & Hnow & _).
  assert (Hall_started : started self1 = (series cfg).*1).
  { rewrite Hst, Hall0. apply filter_all. intros n Hn.
    apply list_elem_of_fmap in Hn as ([n' tc] & -> & Hn). simpl.
    rewrite (set_up_prev_of so cfg self0 n' tc Hnd Hset Hn).
    by rewrite (Hroots n' tc Hn). }
  assert (Hnone : not_started self1 = []).
  { destruct Hns as [[_ ?]|Hns1]; [done|]. rewrite Hns1.
    rewrite filter_none; [apply list_of_set_nil|].
    intros x Hx Hnot. apply Hnot. by rewrite Hall_started, <- Hall0, <- Hall. }
  assert (Hleft : poll_loop fuel self1 w1 = Returned self1 w1).
  { destruct fuel; simpl; by rewrite Hnone. }
  rewrite Hleft. split_and!; [done| |done..].
  by rewrite Htr, Hall_started.
Qed.

Lemma poll_all_tests (self self' : SeriesManager) (w w' : World) :
  poll self w = Ok self' w' → all_tests self' = all_tests self.
Proof.
  intros Hpoll.
  apply poll_Ok in Hpoll as (s1 & w1 & w2 & Hcheck & Heval & _).
  unfold check_and_update in Hcheck.
  apply (for_each_Ok_world (λ _ x _, all_tests x = all_tests self))
    in Hcheck; [|clear|done].
  2:{ intros _ n x w x' w' _ Hx Hone.
      by apply update_one_Ok in Hone as [_ [[_ ->]|[_ (r & _ & ->)]]]. }
  apply (for_each_Ok_world (λ _ x _, all_tests x = all_tests self))
    in Heval; [done|clear|done].
  intros _ n x w x' w' _ Hx Hone.
  apply evaluate_Ok in Hone as (_ & Hall & _). congruence.
Qed.

(** X21. In a series with names that are all different and at least one
    test without prerequisites, whenever the constructor has returned or
    stands between two turns of its loop, every test of the series is in
    exactly one of [not_started], [started] and [finished]. *)
Theorem lists_partition_the_tests_after_a_launch (fuel : nat) (w : World)
    (so : TestSeries) (cfg : series_config) (first : string)
    (tc : series_test) :
  NoDup (series cfg).*1 → (first, tc) ∈ series cfg → depends_on tc = [] →
  match SeriesManager_init fuel w so cfg with
  | Returned self _ | Looping self _ =>
      all_tests self = (series cfg).*1 ∧ partitioned self
  | Raised _ _ _ => True
  end.
Proof.
  intros Hnd Hfirst Hroot. unfold SeriesManager_init.
  destruct (set_up so cfg) as [e|self0] eqn:Hset; [done|].
  destruct (kick_off self0 w) as [self1 w1|e self1 w1] eqn:Hrun; [|done].
  pose proof Hset as Hlists.
  apply set_up_lists in Hlists as (Hall0 & _ & Hst0 & Hf0 & Hns0 & Htr0 & _).
  destruct (partitioned_with_a_first_test so cfg self0 self1 w w1 first
              Hnd Hset) as [[Hnd1 Hmem1] _]; [| |done|].
  { rewrite Hall0. apply list_elem_of_fmap. by exists (first, tc). }
  { rewrite (set_up_prev_of so cfg self0 first tc Hnd Hset Hfirst).
    by rewrite Hroot. }
  destruct (set_up_known so cfg self0 Hset) as [Hknown0 Hobj0].
  destruct (kick_off_lists self0 self1 w w1 Hst0 Hf0 Hns0 Hknown0 Hobj0
              Hrun) as (Hall & _).
  assert (Hnames : all_tests self1 = (series cfg).*1) by congruence.
  assert (Hinv : lists_inv self1).
  { split; [by rewrite Hnames|]. symmetry.
    apply NoDup_Permutation; [by rewrite Hnames|done|done]. }
  revert Hnames Hinv. generalize self1 w1. clear.
  induction fuel as [|fuel IH]; intros s w Hnames Hinv; simpl.
  - destruct (not_started s); (split; [done|by apply lists_inv_partitioned]).
  - destruct (not_started s); [split; [done|by apply lists_inv_partitioned]|].
    destruct (poll s w) as [s' w'|e s' w'] eqn:Hpoll; [|done].
    apply IH.
    + by rewrite (poll_all_tests s s' w w' Hpoll).
    + by eapply poll_lists.
Qed.

(** *** Every outcome of a turn *)

Lemma for_each_outcome (P : SeriesManager → World → Prop)
    (body : string → SeriesManager → World → outcome)
    (names : list string) (self : SeriesManager) (w : World) :
  (∀ n s w, n ∈ names → P s w →
            P (state_of (body n s w)) (world_of (body n s w))) →
  P self w →
  P (state_of (for_each body names self w))
    (world_of (for_each body names self w)).
Proof.
  revert self w. induction names as [|n names IH]; intros self w Hbody HP;
    [done|].
  simpl. pose proof (Hbody n self w ltac:(by left) HP) as Hn.
  destruct (body n self w) as [s1 w1|e s1 w1]; simpl in *; [|done].
  apply IH; [|done]. intros m s w' Hm. apply Hbody. by right.
Qed.

Lemma update_one_outcome (n : string) (self : SeriesManager) (w : World) :
  let s' := state_of (update_one n self w) in
  world_of (update_one n self w) = w ∧
  all_tests s' = all_tests self ∧ not_started s' = not_started self ∧
  ((started s' = started self ∧ finished s' = finished self ∧
    trace s' = trace self) ∨
   ∃ r, py_remove n (started self) = inr r ∧ started s' = r ∧
        finished s' = finished self ++ [n] ∧
        trace s' = trace self ++ [Completed n]).
Proof.
  unfold update_one.
  destruct (is_done self w n) as [e|[]]; simpl; [by split_and!; [..|left]| |by split_and!; [..|left]].
  destruct (py_remove n (started self)) as [e|r] eqn:Hr; simpl.
  - by split_and!; [..|left].
  - split_and!; [done..|]. right. by exists r.
Qed.

Lemma launch_outcome (n : string) (self : SeriesManager) (w : World) :
  n ∈ not_started self →
  let s' := state_of (launch n self w) in
  now (world_of (launch n self w)) = now w ∧
  all_tests s' = all_tests self ∧
  (lists_kept self s' ∨
   ∃ r, py_remove n (not_started self) = inr r ∧ not_started s' = r ∧
        started s' = started self ++ [n] ∧ finished s' = finished self ∧
        trace s' = trace self ++ [Launched n]).
Proof.
  intros Hin. unfold launch.
  destruct (run_test n self w) as [s1 w1|e s1 w1] eqn:Hrun; simpl.
  - apply run_test_Ok in Hrun as (info & l & Hinfo & Hcmd & ->).
    apply run_cmd_inr in Hcmd as [Hnow _].
    unfold remove_not_started. simpl.
    destruct (py_remove_elem_of n (not_started self) Hin) as [r Hr].
    rewrite Hr. simpl. split_and!; [done..|]. right. by exists r.
  - apply run_test_Raise in Hrun as [-> ->]. split_and!; [done..|]. by left.
Qed.

Lemma skip_outcome (n : string) (info : TestInfo) (self : SeriesManager)
    (w : World) :
  n ∈ not_started self →
  let s' := state_of (skip n info self w) in
  now (world_of (skip n info self w)) = now w ∧
  all_tests s' = all_tests self ∧
  (lists_kept self s' ∨
   ∃ r, py_remove n (not_started self) = inr r ∧ not_started s' = r ∧
        started s' = started self ∧ finished s' = finished self ++ [n] ∧
        trace s' = trace self ++ [Skipped n]).
Proof.
  intros Hin. unfold skip.
  pose proof (skip_configs_frame n info [] (configs info) self w)
    as (Hkept & _ & _).
  pose proof (skip_configs_now n info [] (configs info) self w) as Hnow.
  destruct (skip_configs n info [] (configs info) self w)
    as [s1 w1|e s1 w1]; simpl in *.
  - destruct Hkept as (Hall & Hsec & Hst & Hf & Hns & Htr).
    unfold remove_not_started. rewrite Hns.
    destruct (py_remove_elem_of n (not_started self) Hin) as [r Hr].
    rewrite Hr. simpl. split_and!; [done..|]. right. exists r.
    split_and!; [done|done|done|by rewrite Hf|by rewrite Htr].
  - split_and!; [done|apply Hkept|by left].
Qed.

Lemma evaluate_outcome (n : string) (self : SeriesManager) (w : World) :
  n ∈ not_started self →
  let s' := state_of (evaluate n self w) in
  now (world_of (evaluate n self w)) = now w ∧
  all_tests s' = all_tests self ∧
  (lists_kept self s' ∨
   ∃ r, py_remove n (not_started self) = inr r ∧ not_started s' = r ∧
        ((started s' = started self ++ [n] ∧ finished s' = finished self ∧
          trace s' = trace self ++ [Launched n]) ∨
         (started s' = started self ∧ finished s' = finished self ++ [n] ∧
          trace s' = trace self ++ [Skipped n]))).
Proof.
  intros Hin.
  assert (Hsame : now w = now w ∧ all_tests self = all_tests self ∧
    (lists_kept self self ∨
     ∃ r, py_remove n (not_started self) = inr r ∧ not_started self = r ∧
        ((started self = started self ++ [n] ∧ finished self = finished self ∧
          trace self = trace self ++ [Launched n]) ∨
         (started self = started self ∧
          finished self = finished self ++ [n] ∧
          trace self = trace self ++ [Skipped n])))).
  { split_and!; [done..|]. left. by repeat split. }
  assert (Hlaunch :
    let s' := state_of (launch n self w) in
    now (world_of (launch n self w)) = now w ∧
    all_tests s' = all_tests self ∧
    (lists_kept self s' ∨
     ∃ r, py_remove n (not_started self) = inr r ∧ not_started s' = r ∧
        ((started s' = started self ++ [n] ∧ finished s' = finished self ∧
          trace s' = trace self ++ [Launched n]) ∨
         (started s' = started self ∧ finished s' = finished self ++ [n] ∧
          trace s' = trace self ++ [Skipped n])))).
  { destruct (launch_outcome n self w Hin) as (? & ? & [?|(r & ? & ? & ?)]);
      (split_and!; [done..|]); [by left|].
    right. exists r. split_and!; [done..|]. by left. }
  unfold evaluate.
  destruct (test_info self !! n) as [info|]; [|done].
  destruct (ready self (prev info)); [|done].
  destruct (section_lookup (series_section self) n) as [tc|]; [|done].
  destruct (py_eq_str (depends_pass tc) "True"); [|done].
  destruct (all_tests_passed self w (prev info)) as [e|[]]; [done|done|].
  destruct (skip_outcome n info self w Hin) as (? & ? & [?|(r & ? & ? & ?)]);
    (split_and!; [done..|]); [by left|].
  right. exists r. split_and!; [done..|]. by right.
Qed.

(** *** No test is decided twice *)

Lemma py_remove_inr_elem_of (x : string) (l r : list string) :
  py_remove x l = inr r → x ∈ l.
Proof.
  intros Hr. rewrite (py_remove_Permutation _ _ _ Hr). by left.
Qed.

Lemma decided_app (tr tr' : list event) :
  decided (tr ++ tr') = decided tr ++ decided tr'.
Proof. apply omap_app. Qed.

Lemma decided_Launched (l : list string) : decided (Launched <$> l) = l.
Proof. induction l as [|n l IH]; [done|]. simpl. by f_equal. Qed.

Lemma update_one_decisions (n : string) (self : SeriesManager) (w : World) :
  decided (trace self) ≡ₚ started self ++ finished self →
  NoDup (members self) →
  let s' := state_of (update_one n self w) in
  decided (trace s') ≡ₚ started s' ++ finished s' ∧ NoDup (members s').
Proof.
  intros HD Hnd.
  destruct (update_one_outcome n self w)
    as (_ & _ & Hns & [(Hst & Hf & Htr)|(r & Hr & Hst & Hf & Htr)]);
    unfold members in *; rewrite Hns, Hst, Hf, Htr.
  - done.
  - apply py_remove_Permutation in Hr.
    rewrite decided_app. simpl. rewrite app_nil_r. split.
    + rewrite HD, Hr. simpl. rewrite app_assoc.
      by rewrite <- Permutation_cons_append.
    + by rewrite (members_complete (not_started self) (started self)
                    (finished self) r n Hr).
Qed.

Lemma evaluate_decisions (n : string) (self : SeriesManager) (w : World) :
  n ∈ not_started self →
  decided (trace self) ≡ₚ started self ++ finished self →
  NoDup (members self) →
  let s' := state_of (evaluate n self w) in
  decided (trace s') ≡ₚ started s' ++ finished s' ∧ NoDup (members s').
Proof.
  intros Hin HD Hnd.
  destruct (evaluate_outcome n self w Hin)
    as (_ & _ & [(_ & _ & Hst & Hf & Hns & Htr)
                |(r & Hr & Hns & [(Hst & Hf & Htr)|(Hst & Hf & Htr)])]);
    unfold members in *; rewrite Hns, Hst, Hf, Htr; [done|..];
    apply py_remove_Permutation in Hr;
    rewrite decided_app; simpl.
  - split.
    + rewrite HD. rewrite <- !app_assoc. apply Permutation_app_head.
      apply Permutation_app_comm.
    + by rewrite (members_launch (not_started self) (started self)
                    (finished self) r n Hr).
  - split.
    + rewrite HD. by rewrite app_assoc.
    + by rewrite (members_skip (not_started self) (started self)
                    (finished self) r n Hr).
Qed.

Lemma for_each_evaluate_decisions (self : SeriesManager) (w : World) :
  decided (trace self) ≡ₚ started self ++ finished self →
  NoDup (members self) →
  let s' := state_of (for_each evaluate (not_started self) self w) in
  decided (trace s') ≡ₚ started s' ++ finished s' ∧ NoDup (members s').
Proof.
  intros HD Hnd.
  assert (Hns : NoDup (not_started self)).
  { unfold members in Hnd. by apply NoDup_app in Hnd as (? & _). }
  assert (Hprefix : ∀ seen s w',
    for_each evaluate seen self w = Ok s w' →
    (decided (trace s) ≡ₚ started s ++ finished s ∧ NoDup (members s)) ∧
    ∀ x, x ∈ not_started self → x ∉ seen → x ∈ not_started s).
  { intros seen s w' Hseen.
    apply (for_each_Ok_world
      (λ seen' s _,
         (decided (trace s) ≡ₚ started s ++ finished s ∧
          NoDup (members s)) ∧
         ∀ x, x ∈ not_started self → x ∉ seen' → x ∈ not_started s))
      in Hseen; [done| |].
    - clear. intros sn m s2 wa s3 wb _ [[HD Hnd] Hkeep] Hone.
      assert (Hstate : s3 = state_of (evaluate m s2 wa)) by by rewrite Hone.
      destruct (decide (m ∈ not_started s2)) as [Hm|Hm].
      + split; [rewrite Hstate; by apply evaluate_decisions|].
        intros x Hx Hnot.
        rewrite elem_of_app, list_elem_of_singleton in Hnot.
        apply evaluate_Ok in Hone
          as (_ & _ & _ &
              [(_ & -> & _)|(info & r & _ & _ & Hr & -> & _)]).
        * apply Hkeep; tauto.
        * eapply py_remove_other; [done| |]; [apply Hkeep|]; tauto.
      + apply evaluate_Ok in Hone
          as (_ & _ & _ &
              [(_ & -> & _)|(info & r & _ & _ & Hr & _)]).
        * split; [done|]. intros x Hx Hnot. apply Hkeep; [done|].
          intros Hs. apply Hnot, elem_of_app. by left.
        * by apply py_remove_inr_elem_of in Hr.
    - split; [done|]. tauto. }
  destruct (for_each evaluate (not_started self) self w)
    as [s2 w2|e s2 w2] eqn:Hrun; simpl.
  - by destruct (Hprefix _ _ _ Hrun).
  - apply for_each_Raise in Hrun
      as (seen & n & rest & s & w0 & Hnames & Hseen & Hn).
    destruct (Hprefix _ _ _ Hseen) as [[HDs Hnds] Hkeep].
    assert (Hin : n ∈ not_started s).
    { apply Hkeep.
      - rewrite Hnames. apply elem_of_app. right. by left.
      - rewrite Hnames in Hns. apply NoDup_app in Hns as (_ & Hdisj & _).
        intros Hs. apply (Hdisj n Hs). by left. }
    pose proof (evaluate_decisions n s w0 Hin HDs Hnds) as Hgoal.
    by rewrite Hn in Hgoal.
Qed.

Lemma poll_decisions (self : SeriesManager) (w : World) :
  decided (trace self) ≡ₚ started self ++ finished self →
  NoDup (members self) →
  let s' := state_of (poll self w) in
  decided (trace s') ≡ₚ started s' ++ finished s' ∧ NoDup (members s').
Proof.
  intros HD Hnd. unfold poll, check_and_update.
  assert (Hcheck :
    let s1 := state_of (for_each update_one (started (record self Polled))
                          (record self Polled) w) in
    decided (trace s1) ≡ₚ started s1 ++ finished s1 ∧ NoDup (members s1)).
  { apply (for_each_state
      (λ s, decided (trace s) ≡ₚ started s ++ finished s ∧
            NoDup (members s))).
    - intros n s w' _ [? ?]. by apply update_one_decisions.
    - split; [|done]. simpl. rewrite decided_app. simpl.
      by rewrite app_nil_r. }
  destruct (for_each update_one (started (record self Polled))
              (record self Polled) w) as [s1 w1|e s1 w1]; simpl in *;
    [|done].
  destruct Hcheck as [HD1 Hnd1].
  pose proof (for_each_evaluate_decisions s1 w1 HD1 Hnd1) as Heval.
  by destruct (for_each evaluate (not_started s1) s1 w1).
Qed.

Lemma poll_loop_decisions (fuel : nat) (self : SeriesManager) (w : World) :
  decided (trace self) ≡ₚ started self ++ finished self →
  NoDup (members self) →
  let s' := final (poll_loop fuel self w) in
  decided (trace s') ≡ₚ started s' ++ finished s' ∧ NoDup (members s').
Proof.
  revert self w. induction fuel as [|fuel IH]; intros self w HD Hnd; simpl.
  - by destruct (not_started self).
  - destruct (not_started self); [done|].
    pose proof (poll_decisions self w HD Hnd) as Hpoll.
    destruct (poll self w) as [s' w'|e s' w']; simpl in *; [|done].
    destruct Hpoll as [HD' Hnd']. by apply IH.
Qed.

Lemma kick_off_one_Raise (n : string) (self self' : SeriesManager)
    (w w' : World) (e : exn) :
  kick_off_one n self w = Raise e self' w' → self' = self ∧ w' = w.
Proof.
  unfold kick_off_one. destruct (test_info self !! n) as [info|];
    [|by intros [= _ <- <-]].
  destruct (prev info); [|done].
  destruct (run_test n self w) as [s1 w1|e1 s1 w1] eqn:Hrun; [done|].
  apply run_test_Raise in Hrun as [-> ->]. simpl. by intros [= _ <- <-].
Qed.

Lemma kick_off_prefix (names : list string) (self0 self1 : SeriesManager)
    (w w1 : World) :
  started self0 = [] → trace self0 = [] →
  for_each kick_off_one names self0 w = Ok self1 w1 →
  trace self1 = Launched <$> started self1 ∧
  started self1 `sublist_of` names ∧ finished self1 = finished self0.
Proof.
  intros Hst Htr Hrun.
  apply (for_each_Ok_world
    (λ seen s _, trace s = Launched <$> started s ∧
                 started s `sublist_of` seen ∧
                 finished s = finished self0))
    in Hrun; [done| |by rewrite Hst, Htr].
  clear. intros seen n s wa s' wb _ (Htr & Hsub & Hf) Hone.
  apply kick_off_one_Ok in Hone
    as (info & Hinfo & [(_ & -> & ->)|(_ & l & s1 & Hcmd & -> & ->)]).
  - split_and!; [done| |done]. by apply sublist_inserts_r.
  - simpl. rewrite fmap_app, Htr. split_and!; [done| |done].
    by apply sublist_app.
Qed.

(** X22. However the constructor ends, by returning, by raising or by
    running out of fuel, no test of a series with names that are all
    different was launched twice, skipped twice, or both launched and
    skipped. *)
Theorem no_test_is_decided_twice (fuel : nat) (w : World)
    (so : TestSeries) (cfg : series_config) :
  NoDup (series cfg).*1 →
  NoDup (decided (trace (final (SeriesManager_init fuel w so cfg)))).
Proof.
  intros Hnd. unfold SeriesManager_init.
  destruct (set_up so cfg) as [e|self0] eqn:Hset; [constructor|].
  pose proof Hset as Hlists.
  apply set_up_lists in Hlists as (Hall0 & _ & Hst0 & Hf0 & Hns0 & Htr0 & _).
  destruct (kick_off self0 w) as [self1 w1|e self1 w1] eqn:Hrun.
  - destruct (set_up_known so cfg self0 Hset) as [Hknown0 Hobj0].
    destruct (kick_off_lists self0 self1 w w1 Hst0 Hf0 Hns0 Hknown0 Hobj0
                Hrun) as (Hall & _ & _ & Hf & Hst & Hns & _).
    destruct (kick_off_prefix _ _ _ _ _ Hst0 Htr0 Hrun) as (Htr & Hsub & _).
    assert (Hnd_st : NoDup (started self1)).
    { eapply sublist_NoDup; [|exact Hsub]. by rewrite Hall0. }
    destruct (poll_loop_decisions fuel self1 w1) as [HD Hmem].
    + by rewrite Htr, decided_Launched, Hf, app_nil_r.
    + unfold members. rewrite Hf, app_nil_r.
      destruct Hns as [[-> ->]|Hns1]; [constructor|].
      apply NoDup_app. split_and!; [|..|done].
      * rewrite Hns1. apply list_of_set_NoDup.
      * intros x Hx. rewrite Hns1 in Hx.
        apply (proj1 (list_of_set_elem_of _ _)) in Hx.
        by apply list_elem_of_filter in Hx as [Hx _].
    + rewrite HD. unfold members in Hmem.
      by apply NoDup_app in Hmem as (_ & _ & ?).
  - simpl. unfold kick_off in Hrun.
    apply for_each_Raise in Hrun
      as (seen & n & rest & s & w0 & Hnames & Hseen & Hn).
    apply kick_off_one_Raise in Hn as [-> ->].
    destruct (kick_off_prefix _ _ _ _ _ Hst0 Htr0 Hseen) as (Htr & Hsub & _).
    rewrite Htr, decided_Launched.
    eapply sublist_NoDup; [|exact Hsub].
    rewrite <- Hall0, Hnames in Hnd. by apply NoDup_app in Hnd as (? & _).
Qed.

(** *** One second for each turn *)

Lemma turns_snoc (tr : list event) (ev : event) :
  turns (tr ++ [ev]) = (turns tr + if is_Polled ev then 1 else 0)%nat.
Proof.
  unfold turns. rewrite filter_app, length_app. f_equal.
  by destruct ev.
Qed.

Lemma launch_clock (n : string) (self : SeriesManager) (w : World) :
  now (world_of (launch n self w)) = now w ∧
  turns (trace (state_of (launch n self w))) = turns (trace self).
Proof.
  unfold launch.
  destruct (run_test n self w) as [s1 w1|e s1 w1] eqn:Hrun; simpl.
  - apply run_test_Ok in Hrun as (info & l & Hinfo & Hcmd & ->).
    apply run_cmd_inr in Hcmd as [Hnow _].
    unfold remove_not_started. simpl.
    destruct (py_remove n (not_started self)) as [e|r]; simpl;
      rewrite turns_snoc; simpl; split; (done || lia).
  - by apply run_test_Raise in Hrun as [-> ->].
Qed.

Lemma skip_clock (n : string) (info : TestInfo) (self : SeriesManager)
    (w : World) :
  now (world_of (skip n info self w)) = now w ∧
  turns (trace (state_of (skip n info self w))) = turns (trace self).
Proof.
  unfold skip.
  pose proof (skip_configs_frame n info [] (configs info) self w)
    as ((_ & _ & _ & _ & _ & Htr) & _ & _).
  pose proof (skip_configs_now n info [] (configs info) self w) as Hnow.
  destruct (skip_configs n info [] (configs info) self w)
    as [s1 w1|e s1 w1]; simpl in *; [|by rewrite Htr].
  unfold remove_not_started.
  destruct (py_remove n (not_started s1)) as [e|r]; simpl;
    [by rewrite Htr|].
  rewrite turns_snoc, Htr. simpl. split; (done || lia).
Qed.

Lemma evaluate_clock (n : string) (self : SeriesManager) (w : World) :
  now (world_of (evaluate n self w)) = now w ∧
  turns (trace (state_of (evaluate n self w))) = turns (trace self).
Proof.
  unfold evaluate.
  destruct (test_info self !! n) as [info|]; [|done].
  destruct (ready self (prev info)); [|done].
  destruct (section_lookup (series_section self) n) as [tc|]; [|done].
  destruct (py_eq_str (depends_pass tc) "True"); [|apply launch_clock].
  destruct (all_tests_passed self w (prev info)) as [e|[]]; [done|..].
  - apply launch_clock.
  - apply skip_clock.
Qed.

Lemma update_one_clock (n : string) (self : SeriesManager) (w : World) :
  now (world_of (update_one n self w)) = now w ∧
  turns (trace (state_of (update_one n self w))) = turns (trace self).
Proof.
  destruct (update_one_outcome n self w)
    as (-> & _ & _ & [(_ & _ & ->)|(r & _ & _ & _ & ->)]); [done|].
  rewrite turns_snoc. simpl. split; (done || lia).
Qed.

Lemma poll_clock (self : SeriesManager) (w : World) :
  turns (trace (state_of (poll self w))) = S (turns (trace self)) ∧
  match poll self w with
  | Ok _ w' => now w' = S (now w)
  | Raise _ _ w' => now w' = now w
  end.
Proof.
  unfold poll, check_and_update.
  pose proof (for_each_outcome
    (λ s w', now w' = now w ∧ turns (trace s) = S (turns (trace self)))
    update_one (started (record self Polled)) (record self Polled) w)
    as Hcheck.
  destruct Hcheck as [Hnow1 Htr1].
  { intros n s w' _ [Hn Ht].
    destruct (update_one_clock n s w') as [-> ->]. done. }
  { split; [done|]. simpl. rewrite turns_snoc. simpl. lia. }
  destruct (for_each update_one (started (record self Polled))
              (record self Polled) w) as [s1 w1|e s1 w1]; simpl in *;
    [|done].
  pose proof (for_each_outcome
    (λ s w', now w' = now w ∧ turns (trace s) = S (turns (trace self)))
    evaluate (not_started s1) s1 w1) as Heval.
  destruct Heval as [Hnow2 Htr2]; [|done|].
  { intros n s w' _ [Hn Ht].
    destruct (evaluate_clock n s w') as [-> ->]. done. }
  destruct (for_each evaluate (not_started s1) s1 w1) as [s2 w2|e s2 w2];
    simpl in *; [|done].
  split; [done|]. by f_equal.
Qed.

Lemma poll_loop_clock (fuel : nat) (self : SeriesManager) (w : World)
    (t0 : nat) :
  now w = (t0 + turns (trace self))%nat →
  match poll_loop fuel self w with
  | Returned s' w' | Looping s' w' => now w' = (t0 + turns (trace s'))%nat
  | Raised _ s' w' =>
      turns (trace s') ≠ 0%nat ∧ S (now w') = (t0 + turns (trace s'))%nat
  end.
Proof.
  revert self w. induction fuel as [|fuel IH]; intros self w Hnow; simpl.
  - by destruct (not_started self).
  - destruct (not_started self); [done|].
    destruct (poll_clock self w) as [Htr Hclock].
    destruct (poll self w) as [s' w'|e s' w']; simpl in *.
    + apply IH. lia.
    + lia.
Qed.

Lemma kick_off_clock (self0 : SeriesManager) (w : World) :
  trace self0 = [] →
  now (world_of (kick_off self0 w)) = now w ∧
  turns (trace (state_of (kick_off self0 w))) = 0%nat.
Proof.
  intros Htr. unfold kick_off.
  apply (for_each_outcome
    (λ s w', now w' = now w ∧ turns (trace s) = 0%nat));
    [|by rewrite Htr].
  clear. intros n s w' _ [Hnow Ht].
  destruct (kick_off_one n s w') as [s1 w1|e s1 w1] eqn:Hone; simpl.
  - apply kick_off_one_Ok in Hone
      as (info & Hinfo & [(_ & -> & ->)|(_ & l & s2 & Hcmd & -> & ->)]);
      [done|].
    apply run_cmd_inr in Hcmd as [Hn _]. simpl.
    rewrite turns_snoc. simpl. split; [congruence|lia].
  - by apply kick_off_one_Raise in Hone as [-> ->].
Qed.

(** X23. The constructor sleeps one second at the end of each turn of
    its loop and nowhere else: when it returns or stands between two turns,
    the time passed is the number of turns begun; when it raises, it is the
    number of turns completed. *)
Theorem the_loop_sleeps_one_second_a_turn (fuel : nat) (w : World)
    (so : TestSeries) (cfg : series_config) :
  match SeriesManager_init fuel w so cfg with
  | Returned self w' | Looping self w' =>
      now w' = (now w + turns (trace self))%nat
  | Raised _ self w' =>
      now w' = (now w + pred (turns (trace self)))%nat
  end.
Proof.
  unfold SeriesManager_init.
  destruct (set_up so cfg) as [e|self0] eqn:Hset; [cbn; lia|].
  apply set_up_lists in Hset as (_ & _ & _ & _ & _ & Htr0 & _).
  destruct (kick_off_clock self0 w Htr0) as [Hnow Ht].
  destruct (kick_off self0 w) as [self1 w1|e self1 w1]; simpl in *.
  - pose proof (poll_loop_clock fuel self1 w1 (now w) ltac:(lia)) as Hloop.
    destruct (poll_loop fuel self1 w1); lia.
  - rewrite Ht. simpl. lia.
Qed.

(** *** Nothing is skipped when every result is a pass *)

Lemma all_tests_passed_true (self : SeriesManager) (w : World)
    (test_names : list string) :
  (∀ k t, results_result k t = PyStr "PASS") →
  (∀ p, p ∈ test_names →
        ∃ info l, test_info self !! p = Some info ∧ obj info = Some l) →
  all_tests_passed self w test_names = inr true.
Proof.
  intros Hpass. induction test_names as [|p rest IH]; intros Hobj; [done|].
  simpl. destruct (Hobj p) as (info & l & -> & ->); [by left|].
  assert (Hall : forallb (λ t, py_eq_str (results_result (now w) t) "PASS") l
                 = true).
  { apply forallb_forall. intros t _. by rewrite Hpass. }
  rewrite Hall. apply IH. intros q Hq. apply Hobj. by right.
Qed.

Lemma run_test_keeps_runs (n : string) (self : SeriesManager) (w : World) :
  let s' := state_of (run_test n self w) in
  finished s' = finished self ∧
  (∀ m, Skipped m ∈ trace s' → Skipped m ∈ trace self) ∧
  ∀ m info l, test_info self !! m = Some info → obj info = Some l →
    ∃ info' l', test_info s' !! m = Some info' ∧ obj info' = Some l'.
Proof.
  destruct (run_test n self w) as [s1 w1|e s1 w1] eqn:Hrun; simpl.
  - apply run_test_Ok in Hrun as (info & l & Hinfo & _ & ->). simpl.
    split_and!; [done| |].
    + intros m Hm. apply elem_of_app in Hm as [Hm|Hm]; [done|].
      by apply list_elem_of_singleton in Hm.
    + intros m info0 l0 Hm Hobj. destruct (decide (n = m)) as [->|Hne].
      * rewrite lookup_insert_eq. by eexists _, _.
      * rewrite lookup_insert_ne by done. by eexists _, _.
  - apply run_test_Raise in Hrun as [-> _]. split_and!; [done..|].
    intros m info l ? ?. by eexists _, _.
Qed.

Lemma launch_keeps_runs (n : string) (self : SeriesManager) (w : World) :
  let s' := state_of (launch n self w) in
  finished s' = finished self ∧
  (∀ m, Skipped m ∈ trace s' → Skipped m ∈ trace self) ∧
  ∀ m info l, test_info self !! m = Some info → obj info = Some l →
    ∃ info' l', test_info s' !! m = Some info' ∧ obj info' = Some l'.
Proof.
  unfold launch.
  pose proof (run_test_keeps_runs n self w) as Hrun.
  destruct (run_test n self w) as [s1 w1|e s1 w1]; simpl in *; [|done].
  unfold remove_not_started.
  by destruct (py_remove n (not_started s1)).
Qed.

Lemma never_skipped_record (self : SeriesManager) (ev : event) :
  (∀ m, ev ≠ Skipped m) →
  (∀ m, Skipped m ∉ trace self) → ∀ m, Skipped m ∉ trace (record self ev).
Proof.
  intros Hev Hnone m Hm. simpl in Hm.
  apply elem_of_app in Hm as [Hm|Hm]; [by apply (Hnone m)|].
  apply list_elem_of_singleton in Hm. by apply (Hev m).
Qed.

Lemma evaluate_never_skips (n : string) (self : SeriesManager) (w : World) :
  (∀ k t, results_result k t = PyStr "PASS") →
  (∀ m, m ∈ finished self →
        ∃ info l, test_info self !! m = Some info ∧ obj info = Some l) →
  (∀ m, Skipped m ∉ trace self) →
  let s' := state_of (evaluate n self w) in
  (∀ m, m ∈ finished s' →
        ∃ info l, test_info s' !! m = Some info ∧ obj info = Some l) ∧
  (∀ m, Skipped m ∉ trace s').
Proof.
  intros Hpass Hobj Hnone.
  assert (Hlaunch :
    let s' := state_of (launch n self w) in
    (∀ m, m ∈ finished s' →
          ∃ info l, test_info s' !! m = Some info ∧ obj info = Some l) ∧
    (∀ m, Skipped m ∉ trace s')).
  { destruct (launch_keeps_runs n self w) as (Hf & Htr & Hkeep). split.
    - intros m Hm. rewrite Hf in Hm.
      destruct (Hobj m Hm) as (info & l & Hi & Ho). by eapply Hkeep.
    - intros m Hm. by apply (Hnone m), Htr. }
  unfold evaluate.
  destruct (test_info self !! n) as [info|]; [|done].
  destruct (ready self (prev info)) eqn:Hready; [|done].
  destruct (section_lookup (series_section self) n) as [tc|]; [|done].
  destruct (py_eq_str (depends_pass tc) "True"); [|done].
  rewrite all_tests_passed_true; [done|done|].
  intros p Hp. apply Hobj. by apply (proj1 (ready_spec _ _) Hready).
Qed.

Lemma update_one_never_skips (n : string) (self : SeriesManager)
    (w : World) :
  (∀ m, m ∈ finished self →
        ∃ info l, test_info self !! m = Some info ∧ obj info = Some l) →
  (∀ m, Skipped m ∉ trace self) →
  let s' := state_of (update_one n self w) in
  (∀ m, m ∈ finished s' →
        ∃ info l, test_info s' !! m = Some info ∧ obj info = Some l) ∧
  (∀ m, Skipped m ∉ trace s').
Proof.
  intros Hobj Hnone. unfold update_one, is_done.
  destruct (test_info self !! n) as [info|] eqn:Hinfo; [|done].
  destruct (obj info) as [l|] eqn:Hl; [|done].
  destruct (forallb _ l); [|done].
  destruct (py_remove n (started self)) as [e|r]; [done|]. simpl. split.
  - intros m Hm. apply elem_of_app in Hm as [Hm|Hm]; [by apply Hobj|].
    apply list_elem_of_singleton in Hm as ->. by exists info, l.
  - intros m Hm. apply elem_of_app in Hm as [Hm|Hm]; [by apply (Hnone m)|].
    by apply list_elem_of_singleton in Hm.
Qed.

Lemma kick_off_one_never_skips (n : string) (self : SeriesManager)
    (w : World) :
  (∀ m, m ∈ finished self →
        ∃ info l, test_info self !! m = Some info ∧ obj info = Some l) →
  (∀ m, Skipped m ∉ trace self) →
  let s' := state_of (kick_off_one n self w) in
  (∀ m, m ∈ finished s' →
        ∃ info l, test_info s' !! m = Some info ∧ obj info = Some l) ∧
  (∀ m, Skipped m ∉ trace s').
Proof.
  intros Hobj Hnone. unfold kick_off_one.
  destruct (test_info self !! n) as [info|]; [|done].
  destruct (prev info); [|done].
  destruct (run_test_keeps_runs n self w) as (Hf & Htr & Hkeep).
  destruct (run_test n self w) as [s1 w1|e s1 w1]; simpl in *.
  - split.
    + intros m Hm. rewrite Hf in Hm.
      destruct (Hobj m Hm) as (info' & l & Hi & Ho). by eapply Hkeep.
    + intros m Hm. by apply (Hnone m), Htr.
  - split.
    + intros m Hm. rewrite Hf in Hm.
      destruct (Hobj m Hm) as (info' & l & Hi & Ho). by eapply Hkeep.
    + intros m Hm. by apply (Hnone m), Htr.
Qed.

(** X25. When every test run has the result ['PASS'], the constructor
    skips nothing, however it ends: a skip needs a prerequisite that did
    not pass. *)
Theorem nothing_is_skipped_when_every_result_is_PASS (fuel : nat)
    (w : World) (so : TestSeries) (cfg : series_config) :
  (∀ k t, results_result k t = PyStr "PASS") →
  ∀ n, Skipped n ∉ trace (final (SeriesManager_init fuel w so cfg)).
Proof.
  intros Hpass.
  set (inv := λ s : SeriesManager,
    (∀ m, m ∈ finished s →
          ∃ info l, test_info s !! m = Some info ∧ obj info = Some l) ∧
    (∀ m, Skipped m ∉ trace s)).
  assert (Hpoll : ∀ s w', inv s → inv (state_of (poll s w'))).
  { intros s w' [Hobj Hnone]. unfold poll.
    assert (Hcheck : inv (state_of (check_and_update (record s Polled) w'))).
    { unfold check_and_update. apply (for_each_state inv).
      - intros n s1 w1 _ [? ?]. by apply update_one_never_skips.
      - split; [done|]. by apply never_skipped_record. }
    apply (and_then_state inv); [done|]. intros s1 w1 Heq.
    rewrite Heq in Hcheck. simpl in Hcheck.
    assert (Heval : inv (state_of (for_each evaluate (not_started s1) s1 w1))).
    { apply (for_each_state inv); [|done].
      intros n s2 w2 _ [? ?]. by apply evaluate_never_skips. }
    apply (and_then_state inv); [done|]. intros s2 w2 Heq2.
    by rewrite Heq2 in Heval. }
  assert (Hloop : ∀ fuel' s w', inv s → inv (final (poll_loop fuel' s w'))).
  { induction fuel' as [|fuel' IH]; intros s w' Hinv; simpl.
    - by destruct (not_started s).
    - destruct (not_started s); [done|].
      pose proof (Hpoll s w' Hinv) as Hnext.
      destruct (poll s w') as [s' w''|e s' w'']; simpl in *; [|done].
      by apply IH. }
  assert (Hfinal : inv (final (SeriesManager_init fuel w so cfg))).
  { unfold SeriesManager_init.
    destruct (set_up so cfg) as [e|self0] eqn:Hset.
    { split; intros m Hm; by apply elem_of_nil in Hm. }
    apply set_up_lists in Hset as (_ & _ & _ & Hf0 & _ & Htr0 & _).
    assert (Hkick : inv (state_of (kick_off self0 w))).
    { unfold kick_off. apply (for_each_state inv).
      - intros n s1 w1 _ [? ?]. by apply kick_off_one_never_skips.
      - split; intros m Hm.
        + rewrite Hf0 in Hm. by apply elem_of_nil in Hm.
        + rewrite Htr0 in Hm. by apply elem_of_nil in Hm. }
    destruct (kick_off self0 w) as [self1 w1|e self1 w1]; simpl in *;
      [|done].
    by apply Hloop. }
  apply Hfinal.
Qed.

(** *** The series object *)

Lemma skip_configs_tests (n : string) (info : TestInfo)
    (seen todo : list config) (self : SeriesManager) (w : World) :
  dom (tests (series_obj self))
  ⊆ dom (tests (series_obj
                  (state_of (skip_configs n info seen todo self w)))).
Proof.
  revert seen self w.
  induction todo as [|c rest IH]; intros seen self w; simpl; [done|].
  destruct (cfg_only_if c); [|done].
  destruct (cfg_not_if c); [|done].
  destruct (new_TestRun _ w) as [e|[t w1]]; [done|].
  pose proof (RegistryFacts.add_tests_dom (series_obj self)
    [set_run_complete (status_set t STATES_COMPLETE skip_note)] w1) as Hdom.
  simpl in Hdom.
  destruct (add_tests _ _ w1) as [[[e|] so] w2] eqn:Hadd; simpl in *;
    [done|].
  etrans; [exact Hdom|].
  apply (IH (seen ++ [del_not_if (del_only_if c)])
           (set_series_obj
              (set_test_info self
                 (<[n := set_configs info
                           (seen ++ del_not_if (del_only_if c) :: rest)]>
                    (test_info self))) so) w2).
Qed.

Lemma run_test_series_obj (n : string) (self : SeriesManager) (w : World) :
  series_obj (state_of (run_test n self w)) = series_obj self.
Proof.
  destruct (run_test n self w) as [s1 w1|e s1 w1] eqn:Hrun; simpl.
  - by apply run_test_Ok in Hrun as (info & l & _ & _ & ->).
  - by apply run_test_Raise in Hrun as [-> _].
Qed.

Lemma evaluate_series_obj (so : TestSeries) (n : string)
    (self : SeriesManager) (w : World) :
  _id (series_obj self) = _id so ∧
  dom (tests so) ⊆ dom (tests (series_obj self)) →
  let s' := state_of (evaluate n self w) in
  _id (series_obj s') = _id so ∧ dom (tests so) ⊆ dom (tests (series_obj s')).
Proof.
  intros [Hid Hdom].
  assert (Hlaunch :
    series_obj (state_of (launch n self w)) = series_obj self).
  { unfold launch.
    pose proof (run_test_series_obj n self w) as Hrun.
    destruct (run_test n self w) as [s1 w1|e s1 w1]; simpl in *; [|done].
    unfold remove_not_started.
    by destruct (py_remove n (not_started s1)). }
  unfold evaluate.
  destruct (test_info self !! n) as [info|]; [|done].
  destruct (ready self (prev info)); [|done].
  destruct (section_lookup (series_section self) n) as [tc|]; [|done].
  destruct (py_eq_str (depends_pass tc) "True");
    [|simpl; by rewrite Hlaunch].
  destruct (all_tests_passed self w (prev info)) as [e|[]]; [done|..].
  { simpl. by rewrite Hlaunch. }
  unfold skip.
  pose proof (skip_configs_frame n info [] (configs info) self w)
    as (_ & _ & Hid').
  pose proof (skip_configs_tests n info [] (configs info) self w) as Hdom'.
  destruct (skip_configs n info [] (configs info) self w)
    as [s1 w1|e s1 w1]; simpl in *.
  - unfold remove_not_started.
    destruct (py_remove n (not_started s1)); simpl;
      (split; [congruence|by etrans]).
  - split; [congruence|by etrans].
Qed.

(** X26. However the constructor ends, the series object it was given
    has kept its id, and every test id it held an entry for still has one:
    the manager removes no entry of [tests]. The test under an id may have
    been replaced, by the placeholder of a skipped test with that id. *)
Theorem the_series_keeps_its_id_and_its_entries (fuel : nat) (w : World)
    (so : TestSeries) (cfg : series_config) :
  let so' := series_obj (final (SeriesManager_init fuel w so cfg)) in
  _id so' = _id so ∧ dom (tests so) ⊆ dom (tests so').
Proof.
  set (inv := λ s : SeriesManager,
    _id (series_obj s) = _id so ∧
    dom (tests so) ⊆ dom (tests (series_obj s))).
  assert (Hupdate : ∀ n s w', inv s → inv (state_of (update_one n s w'))).
  { intros n s w' Hinv. unfold update_one.
    destruct (is_done s w' n) as [e|[]]; [done| |done].
    by destruct (py_remove n (started s)). }
  assert (Hpoll : ∀ s w', inv s → inv (state_of (poll s w'))).
  { intros s w' Hinv. unfold poll.
    assert (Hcheck : inv (state_of (check_and_update (record s Polled) w'))).
    { unfold check_and_update. apply (for_each_state inv); [|done].
      intros n s1 w1 _. apply Hupdate. }
    apply (and_then_state inv); [done|]. intros s1 w1 Heq.
    rewrite Heq in Hcheck. simpl in Hcheck.
    assert (Heval : inv (state_of (for_each evaluate (not_started s1) s1 w1))).
    { apply (for_each_state inv); [|done].
      intros n s2 w2 _. apply evaluate_series_obj. }
    apply (and_then_state inv); [done|]. intros s2 w2 Heq2.
    by rewrite Heq2 in Heval. }
  assert (Hloop : ∀ fuel' s w', inv s → inv (final (poll_loop fuel' s w'))).
  { induction fuel' as [|fuel' IH]; intros s w' Hinv; simpl.
    - by destruct (not_started s).
    - destruct (not_started s); [done|].
      pose proof (Hpoll s w' Hinv) as Hnext.
      destruct (poll s w') as [s' w''|e s' w'']; simpl in *; [|done].
      by apply IH. }
  change (inv (final (SeriesManager_init fuel w so cfg))).
  unfold SeriesManager_init.
  destruct (set_up so cfg) as [e|self0] eqn:Hset; [done|].
  apply set_up_lists in Hset as (_ & _ & _ & _ & _ & _ & Hso).
  assert (Hkick : inv (state_of (kick_off self0 w))).
  { unfold kick_off. apply (for_each_state inv); [|by split; rewrite Hso].
    intros n s1 w1 _ Hinv. unfold kick_off_one.
    destruct (test_info s1 !! n) as [info|]; [|done].
    destruct (prev info); [|done].
    pose proof (run_test_series_obj n s1 w1) as Hrun.
    destruct (run_test n s1 w1) as [s2 w2|e s2 w2]; simpl in *;
      unfold inv; simpl; by rewrite Hrun. }
  destruct (kick_off self0 w) as [self1 w1|e self1 w1]; simpl in *; [|done].
  by apply Hloop.
Qed.

(** *** Forward only *)

Lemma moved_forward_refl (s : SeriesManager) : moved_forward s s.
Proof. unfold moved_forward. split_and!; tauto || done. Qed.

Lemma moved_forward_trans (s1 s2 s3 : SeriesManager) :
  moved_forward s1 s2 → moved_forward s2 s3 → moved_forward s1 s3.
Proof.
  intros (F1 & N1 & S1 & G1 & T1) (F2 & N2 & S2 & G2 & T2).
  split_and!.
  - intros n Hn. by apply F2, F1.
  - intros n Hn. by apply N1, N2.
  - intros n Hn. destruct (S2 n Hn) as [H|H]; [by apply S1|].
    right. by apply N1.
  - intros n Hn. destruct (G2 n Hn) as [H|[H|H]].
    + by apply G1.
    + right. by apply S1.
    + right. right. by apply N1.
  - by etrans.
Qed.

Lemma update_one_forward (n : string) (self self' : SeriesManager)
    (w w' : World) :
  update_one n self w = Ok self' w' → moved_forward self self'.
Proof.
  intros Hone.
  apply update_one_Ok in Hone as [_ [[_ ->]|[_ (r & Hr & ->)]]];
    [apply moved_forward_refl|].
  unfold moved_forward. simpl. split_and!.
  - intros m Hm. apply elem_of_app. by left.
  - done.
  - intros m Hm. left. by eapply py_remove_subseteq.
  - intros m Hm. apply elem_of_app in Hm as [Hm|Hm]; [by left|].
    apply list_elem_of_singleton in Hm as ->. right. left.
    rewrite (py_remove_Permutation _ _ _ Hr). by left.
  - by apply prefix_app_r.
Qed.

Lemma evaluate_forward (n : string) (self self' : SeriesManager)
    (w w' : World) :
  evaluate n self w = Ok self' w' → moved_forward self self'.
Proof.
  intros Hone.
  pose proof (evaluate_trace n self w) as Htr. rewrite Hone in Htr.
  simpl in Htr.
  apply evaluate_Ok in Hone
    as (_ & _ & _ &
        [(_ & -> & _)|(info & r & _ & _ & Hr & Hns & Hcase)]);
    [apply moved_forward_refl|].
  assert (Hn : n ∈ not_started self).
  { rewrite (py_remove_Permutation _ _ _ Hr). by left. }
  unfold moved_forward.
  destruct Hcase as [(l & f' & _ & _ & Hst & Hf)|(_ & Hst & Hf)];
    rewrite Hns, Hst, Hf; split_and!; try done.
  - intros m Hm. by eapply py_remove_subseteq.
  - intros m Hm. apply elem_of_app in Hm as [Hm|Hm]; [by left|].
    apply list_elem_of_singleton in Hm as ->. by right.
  - intros m Hm. by left.
  - intros m Hm. apply elem_of_app. by left.
  - intros m Hm. by eapply py_remove_subseteq.
  - intros m Hm. by left.
  - intros m Hm. apply elem_of_app in Hm as [Hm|Hm]; [by left|].
    apply list_elem_of_singleton in Hm as ->. right. by right.
Qed.

(** X27. A turn of the loop that returns moves tests forward only: a
    finished test stays finished, no test comes back to [not_started], a
    started test was started or waiting, a finished one was in one of the
    three lists, the events are added at the end, and one second has
    passed. *)
Theorem a_turn_only_moves_tests_forward (self self' : SeriesManager)
    (w w' : World) :
  poll self w = Ok self' w' →
  moved_forward self self' ∧ now w' = S (now w).
Proof.
  intros Hpoll.
  apply poll_Ok in Hpoll as (s1 & w1 & w2 & Hcheck & Heval & ->).
  unfold check_and_update in Hcheck.
  apply (for_each_Ok_world
    (λ _ s wx, moved_forward self s ∧ now wx = now w)) in Hcheck.
  - apply (for_each_Ok_world
      (λ _ s wx, moved_forward self s ∧ now wx = now w)) in Heval;
      [|clear|done].
    + destruct Heval as [Hfwd Hnow]. split; [done|]. simpl. by f_equal.
    + intros _ n s wa s' wb _ [Hfwd Hnow] Hone. split.
      * eapply moved_forward_trans; [done|]. by eapply evaluate_forward.
      * apply evaluate_Ok in Hone as (-> & _). done.
  - clear. intros _ n s wa s' wb _ [Hfwd Hnow] Hone. split.
    + eapply moved_forward_trans; [done|]. by eapply update_one_forward.
    + by apply update_one_Ok in Hone as [-> _].
  - split; [|done]. unfold moved_forward. simpl.
    split_and!; try tauto. by apply prefix_app_r.
Qed.

(** *** Completions follow launches *)

Lemma completed_after_launch_snoc (tr : list event) (ev : event) :
  completed_after_launch tr →
  (∀ n, ev = Completed n → Launched n ∈ tr) →
  completed_after_launch (tr ++ [ev]).
Proof.
  intros Htr Hev before after n Heq.
  destruct after as [|last after _] using rev_ind.
  - apply app_inj_tail in Heq as [<- Hlast]. by apply Hev.
  - rewrite app_comm_cons, app_assoc in Heq.
    apply app_inj_tail in Heq as [-> _]. by eapply Htr.
Qed.

Lemma run_test_launched (n : string) (self : SeriesManager) (w : World) :
  completed_after_launch (trace self) ∧
  (∀ m, m ∈ started self → Launched m ∈ trace self) →
  let s' := state_of (run_test n self w) in
  completed_after_launch (trace s') ∧
  (∀ m, m ∈ started s' → Launched m ∈ trace s').
Proof.
  intros [Htr Hst].
  destruct (run_test n self w) as [s1 w1|e s1 w1] eqn:Hrun; simpl.
  - apply run_test_Ok in Hrun as (info & l & _ & _ & ->). simpl. split.
    + by apply completed_after_launch_snoc.
    + intros m Hm. rewrite elem_of_app. rewrite elem_of_app in Hm.
      destruct Hm as [Hm|Hm]; [left; by apply Hst|right].
      apply list_elem_of_singleton in Hm as ->. by left.
  - by apply run_test_Raise in Hrun as [-> _].
Qed.

Lemma evaluate_launched (n : string) (self : SeriesManager) (w : World) :
  completed_after_launch (trace self) ∧
  (∀ m, m ∈ started self → Launched m ∈ trace self) →
  let s' := state_of (evaluate n self w) in
  completed_after_launch (trace s') ∧
  (∀ m, m ∈ started s' → Launched m ∈ trace s').
Proof.
  intros Hinv.
  assert (Hlaunch :
    let s' := state_of (launch n self w) in
    completed_after_launch (trace s') ∧
    (∀ m, m ∈ started s' → Launched m ∈ trace s')).
  { unfold launch.
    pose proof (run_test_launched n self w Hinv) as Hrun.
    destruct (run_test n self w) as [s1 w1|e s1 w1]; simpl in *; [|done].
    unfold remove_not_started.
    by destruct (py_remove n (not_started s1)). }
  unfold evaluate.
  destruct (test_info self !! n) as [info|]; [|done].
  destruct (ready self (prev info)); [|done].
  destruct (section_lookup (series_section self) n) as [tc|]; [|done].
  destruct (py_eq_str (depends_pass tc) "True"); [|done].
  destruct (all_tests_passed self w (prev info)) as [e|[]]; [done|done|].
  unfold skip.
  pose proof (skip_configs_frame n info [] (configs info) self w)
    as ((_ & _ & Hst & _ & _ & Htr) & _ & _).
  destruct Hinv as [Hc Hl].
  destruct (skip_configs n info [] (configs info) self w)
    as [s1 w1|e s1 w1]; simpl in *.
  - unfold remove_not_started.
    destruct (py_remove n (not_started s1)); simpl; rewrite Hst, Htr.
    + done.
    + split; [by apply completed_after_launch_snoc|].
      intros m Hm. apply elem_of_app. left. by apply Hl.
  - by rewrite Hst, Htr.
Qed.

Lemma update_one_launched (n : string) (self : SeriesManager) (w : World) :
  completed_after_launch (trace self) ∧
  (∀ m, m ∈ started self → Launched m ∈ trace self) →
  let s' := state_of (update_one n self w) in
  completed_after_launch (trace s') ∧
  (∀ m, m ∈ started s' → Launched m ∈ trace s').
Proof.
  intros [Hc Hl]. unfold update_one.
  destruct (is_done self w n) as [e|[]]; [done| |done].
  destruct (py_remove n (started self)) as [e|r] eqn:Hr; [done|]. simpl.
  split.
  - apply completed_after_launch_snoc; [done|]. intros m [= <-].
    apply Hl. rewrite (py_remove_Permutation _ _ _ Hr). by left.
  - intros m Hm. apply elem_of_app. left. apply Hl.
    by eapply py_remove_subseteq.
Qed.

(** X28. However the constructor ends, every completion among its
    events comes after the launch of the same test: [check_and_update]
    moves to [finished] only tests that [run_test] has launched. *)
Theorem a_test_completes_after_its_launch (fuel : nat) (w : World)
    (so : TestSeries) (cfg : series_config) :
  completed_after_launch
    (trace (final (SeriesManager_init fuel w so cfg))).
Proof.
  set (inv := λ s : SeriesManager,
    completed_after_launch (trace s) ∧
    (∀ m, m ∈ started s → Launched m ∈ trace s)).
  assert (Hpoll : ∀ s w', inv s → inv (state_of (poll s w'))).
  { intros s w' [Hc Hl]. unfold poll.
    assert (Hcheck : inv (state_of (check_and_update (record s Polled) w'))).
    { unfold check_and_update. apply (for_each_state inv).
      - intros n s1 w1 _. apply update_one_launched.
      - split; [by apply completed_after_launch_snoc|].
        intros m Hm. simpl. apply elem_of_app. left. by apply Hl. }
    apply (and_then_state inv); [done|]. intros s1 w1 Heq.
    rewrite Heq in Hcheck. simpl in Hcheck.
    assert (Heval : inv (state_of (for_each evaluate (not_started s1) s1 w1))).
    { apply (for_each_state inv); [|done].
      intros n s2 w2 _. apply evaluate_launched. }
    apply (and_then_state inv); [done|]. intros s2 w2 Heq2.
    by rewrite Heq2 in Heval. }
  assert (Hloop : ∀ fuel' s w', inv s → inv (final (poll_loop fuel' s w'))).
  { induction fuel' as [|fuel' IH]; intros s w' Hinv; simpl.
    - by destruct (not_started s).
    - destruct (not_started s); [done|].
      pose proof (Hpoll s w' Hinv) as Hnext.
      destruct (poll s w') as [s' w''|e s' w'']; simpl in *; [|done].
      by apply IH. }
  assert (Hfinal : inv (final (SeriesManager_init fuel w so cfg))).
  { unfold SeriesManager_init.
    destruct (set_up so cfg) as [e|self0] eqn:Hset.
    { split.
      - intros before after n Heq. simpl in Heq. by destruct before.
      - intros m Hm. by apply elem_of_nil in Hm. }
    apply set_up_lists in Hset as (_ & _ & Hst0 & _ & _ & Htr0 & _).
    assert (Hkick : inv (state_of (kick_off self0 w))).
    { unfold kick_off. apply (for_each_state inv).
      - intros n s1 w1 _ Hinv. unfold kick_off_one.
        destruct (test_info s1 !! n) as [info|]; [|done].
        destruct (prev info); [|done].
        pose proof (run_test_launched n s1 w1 Hinv) as Hrun.
        by destruct (run_test n s1 w1) as [s2 w2|e s2 w2].
      - split.
        + intros before after n Heq. rewrite Htr0 in Heq.
          by destruct before.
        + intros m Hm. rewrite Hst0 in Hm. by apply elem_of_nil in Hm. }
    destruct (kick_off self0 w) as [self1 w1|e self1 w1]; simpl in *;
      [|done].
    by apply Hloop. }
  apply Hfinal.
Qed.

End Scheduler.
End SchedulerFacts.

(** ** The sample installation *)

Module SampleFacts.
Import Registry Scheduler Sample.

Lemma add_tests_not_atomic_witness :
  let linked :=
    add_tests (env := passing) series_1 [stored_run 1 blank_config] start in
  ∃ self',
    add_tests (env := passing) series_1
      [stored_run 1 blank_config; stored_run 1 blank_config;
       stored_run 2 blank_config] start
      = (Some (TestSeriesError "Could not link test in series"),
         self', linked.2) ∧
    tests self' !! 1%Z = Some (stored_run 1 blank_config).
Proof.
  intros linked.
  destruct (RegistryFacts.add_tests_not_atomic (env := passing)
              series_1 linked.1.2 start linked.2
              [stored_run 1 blank_config] [stored_run 2 blank_config]
              (stored_run 1 blank_config))
    as (self' & Hraise & _ & Hin & _).
  - vm_compute. reflexivity.
  - vm_compute. reflexivity.
  - exists self'. split; [exact Hraise|exact Hin].
Defined.




(** A link to a directory, named by a number, whose test cannot be found:
    the exception of the loader leaves [from_id], and the series is not
    loaded without the test. *)
Lemma load_failure_is_not_left_out :
  series_root (fs stray_link) !! "0000001"
    = Some [("0000001", Symlink (test_dir 1));
            ("0000004", Symlink (test_dir 1));
            ("0000003", Symlink (test_dir 3))] ∧
  is_symlink (Symlink (test_dir 1))
    && is_dir (fs stray_link) (Symlink (test_dir 1)) = true ∧
  decimal "0000004" = Some 4%Z ∧
  load_run (fs stray_link) 4 = inl TestRunNotFoundError ∧
  from_id (env := passing) stray_link (IdInt 1)
    = (inl TestRunNotFoundError, stray_link).
Proof.
  split_and!; vm_compute; reflexivity.
Qed.

Lemma from_id_error_policy_witness :
  from_id (env := passing) stray_link (IdInt 2)
    = (inl (TestSeriesError "No such series found"), stray_link) ∧
  from_id (env := passing) stray_link (IdInt 1)
    = (inl TestRunNotFoundError, stray_link).
Proof.
  split.
  - destruct (RegistryFacts.from_id_error_policy (env := passing)
                stray_link 2) as (Hmissing & _).
    apply Hmissing. vm_compute. reflexivity.
  - destruct (RegistryFacts.from_id_error_policy (env := passing)
                stray_link 1) as (_ & _ & _ & Hother).
    destruct (Hother [("0000001", Symlink (test_dir 1))]
                [("0000003", Symlink (test_dir 3))]
                "0000004" (Symlink (test_dir 1)) 4%Z TestRunNotFoundError)
      as [_ Hraise].
    + vm_compute. reflexivity.
    + vm_compute. reflexivity.
    + vm_compute. reflexivity.
    + vm_compute. reflexivity.
    + discriminate.
    + apply (Hraise [stored_run 1 blank_config]). vm_compute. reflexivity.
Defined.

Lemma pass_gating_needs_the_string_True_witness :
  let self := (after_first_tests (H := failing) chain_lower).1 in
  let w := (after_first_tests (H := failing) chain_lower).2 in
  ∃ self' w',
    evaluate (env := failing) "B" self w = Ok self' w' ∧
    started self' = ["B"] ∧
    trace self' = trace self ++ [Launched "B"].
Proof.
  intros self w.
  edestruct (SchedulerFacts.pass_gating_needs_the_string_True
               (env := failing) "B" self w) as (_ & Hother & _).
  - vm_compute. reflexivity.
  - vm_compute. reflexivity.
  - vm_compute. reflexivity.
  - destruct Hother as (_ & _ & Hrun); [simpl; congruence|].
    edestruct Hrun as (self' & Heval & Hst & Htr).
    + vm_compute. reflexivity.
    + apply (bool_decide_unpack _). vm_compute. exact I.
    + eexists self', _. split_and!; [exact Heval|exact Hst|exact Htr].
Defined.



Lemma sample_runs_complete (result : pyval) :
  eventually_complete (env := collaborators result).
Proof.
  intros args f l f' t _ _. exists 2. intros k Hk. simpl.
  by apply bool_decide_eq_true.
Qed.


Lemma chain_is_acyclic :
  acyclic_by (λ n, if decide (n = "A") then 0 else 1) chain.
Proof.
  intros n tc wait Hn Hwait.
  apply elem_of_cons in Hn as [Hn|Hn].
  - injection Hn as -> ->. by apply elem_of_nil in Hwait.
  - apply list_elem_of_singleton in Hn. injection Hn as -> ->.
    apply list_elem_of_singleton in Hwait as ->.
    split; [by left|]. vm_compute. lia.
Qed.



(** C8, where the code goes wrong. In the series of two tests that wait for
    each other no test is without prerequisites: the loop before the
    [while] never assigns [not_started], the [while] loop is not entered,
    and the constructor returns with A and B in none of the three
    lists. *)
Theorem cycle_leaves_the_lists_empty (fuel : nat) :
  ∃ self w,
    SeriesManager_init (env := passing) fuel start series_1 cycle
      = Returned self w ∧
    all_tests self = ["A"; "B"] ∧
    not_started self = [] ∧ started self = [] ∧ finished self = [] ∧
    trace self = [] ∧ ¬ partitioned self.
Proof.
  assert (Hrun :
    SeriesManager_init (env := passing) fuel start series_1 cycle
    = SeriesManager_init (env := passing) 0 start series_1 cycle).
  { destruct fuel; vm_compute; reflexivity. }
  rewrite Hrun. vm_compute SeriesManager_init.
  eexists _, _. split; [reflexivity|]. simpl. split_and!; try reflexivity.
  intros [_ Hall]. specialize (Hall "A"). simpl in Hall.
  apply (elem_of_nil "A"), Hall. by left.
Qed.

(** *** The registry, on the sample *)

Lemma elem_of_four (A : Type) (P : A → Prop) (a b c d : A) :
  P a → P b → P c → P d → ∀ x, x ∈ [a; b; c; d] → P x.
Proof.
  intros Ha Hb Hc Hd x Hx.
  repeat (apply elem_of_cons in Hx as [->|Hx]; [assumption|]).
  by apply elem_of_nil in Hx.
Qed.

Lemma test_obj_from_id_sorts_the_ids_witness :
  ∃ objs failed,
    test_obj_from_id (env := passing) (fs three_runs) [1; 2; 3; 4]%Z
      = inr (objs, failed) ∧
    Forall2 (λ i t, load_run (fs three_runs) i = inr t)
      (filter (λ i, loads_id (env := passing) (fs three_runs) i)
         [1; 2; 3; 4]%Z) objs ∧
    failed = filter (λ i, ¬ loads_id (env := passing) (fs three_runs) i)
               [1; 2; 3; 4]%Z ∧
    (length objs + length failed = 4)%nat.
Proof.
  apply (RegistryFacts.test_obj_from_id_sorts_the_ids (env := passing)).
  intros i e Hi. revert e. revert i Hi.
  apply (elem_of_four Z
           (λ i, ∀ e, load_run (fs three_runs) i = inl e →
                      e = TestRunError ∨ e = TestRunNotFoundError));
    intros e; vm_compute; intros H;
    first [discriminate H | injection H as <-; auto].
Defined.

Lemma test_obj_from_id_lets_others_through_witness :
  test_obj_from_id (env := unreadable) (fs three_runs) [1; 2; 3]%Z
    = inl OSError.
Proof.
  apply (RegistryFacts.test_obj_from_id_lets_others_through
           (env := unreadable) (fs three_runs) [1%Z] [3%Z] 2 OSError).
  - intros j e Hj. apply list_elem_of_singleton in Hj as ->.
    vm_compute. discriminate.
  - reflexivity.
  - discriminate.
  - discriminate.
Defined.

Lemma from_id_tests_come_from_links_witness :
  let w := (TestSeries_init (env := passing) three_runs
              (Some [stored_run 1 blank_config; stored_run 3 blank_config])
              None).2 in
  ∃ self w',
    from_id (env := passing) w (IdInt 1) = (inr self, w') ∧ _id self = 1%Z ∧
    ∃ entries,
      series_root (fs w) !! zero_padded 1 = Some entries ∧
      (∀ name n, (name, n) ∈ entries →
         ∃ target, n = Symlink target ∧ target ∈ directories (fs w)) ∧
      ∀ k t, tests self !! k = Some t →
        k = id t ∧
        ∃ name target test_id,
          (name, Symlink target) ∈ entries ∧
          decimal name = Some test_id ∧ load_run (fs w) test_id = inr t.
Proof.
  intros w.
  destruct (from_id (env := passing) w (IdInt 1)) as [[e|self] w'] eqn:Hload.
  { vm_compute in Hload. discriminate Hload. }
  exists self, w'. split; [reflexivity|].
  exact (RegistryFacts.from_id_tests_come_from_links (env := passing)
           w w' 1 self Hload).
Defined.

Lemma add_tests_again_raises_witness :
  let added :=
    add_tests (env := passing) series_1 [stored_run 1 blank_config] start in
  add_tests (env := passing) added.1.2 [stored_run 1 blank_config] added.2
    = (Some (TestSeriesError "Could not link test in series"),
       {| tests := <[1%Z := stored_run 1 blank_config]> (tests added.1.2);
          _id := _id added.1.2 |}, added.2).
Proof.
  intros added.
  apply (RegistryFacts.add_tests_again_raises (env := passing) series_1
           added.1.2 (stored_run 1 blank_config) (stored_run 1 blank_config)
           start added.2).
  - vm_compute. reflexivity.
  - reflexivity.
Defined.

Lemma add_tests_returns_iff_names_free_witness :
  let l := [stored_run 1 blank_config; stored_run 2 blank_config] in
  (add_tests (env := passing) series_1 l start).1.1 = None ↔
  NoDup (map (λ t, zero_padded (id t)) l) ∧
  ∀ t, t ∈ l → zero_padded (id t) ∉ ([] : list (string * node)).*1.
Proof.
  intros l.
  refine (proj1 (RegistryFacts.add_tests_returns_iff_names_free
                   (env := passing) series_1 l start [] _)).
  vm_compute. reflexivity.
Defined.


Lemma TestSeries_init_needs_distinct_ids_witness :
  ∃ f2,
    TestSeries_init (env := passing) three_runs
      (Some [stored_run 1 blank_config; stored_run 1 blank_config]) None
      = (inl (TestSeriesError "Could not link test in series"),
         set_fs three_runs f2) ∧
    users_dir f2 = Some ∅ ∧ directories f2 = directories (fs three_runs).
Proof.
  apply (RegistryFacts.TestSeries_init_needs_distinct_ids (env := passing)
           three_runs
           [stored_run 1 blank_config; stored_run 1 blank_config] 1
           {| series_root := {[ "0000001" := [] ]};
              directories := directories (fs three_runs);
              users_dir := Some ∅ |}).
  - vm_compute. reflexivity.
  - intros Hnd. apply NoDup_cons in Hnd as [Hnotin _]. apply Hnotin. left.
Defined.

Lemma saved_series_id_is_loaded_back_witness :
  ∃ w1 w2 w3,
    _save_series_id (env := passing) false series_1 start = inr w1 ∧
    load_user_series_id (env := passing) (λ _, true) w1
      = SeriesIdRead "s1" ∧
    _save_series_id (env := passing) false {| tests := ∅; _id := 7 |} start
      = inr w2 ∧
    _save_series_id (env := passing) false series_1 w2 = inr w3 ∧
    load_user_series_id (env := passing) (λ _, true) w3
      = SeriesIdRead "s1".
Proof.
  apply (RegistryFacts.saved_series_id_is_loaded_back (env := passing)
           false series_1 {| tests := ∅; _id := 7 |} start (λ _, true)).
  - by eexists.
  - reflexivity.
Defined.

Lemma new_series_is_the_last_of_the_user_witness :
  let runs := [stored_run 1 blank_config; stored_run 3 blank_config] in
  (∃ self w',
     TestSeries_init (env := passing) three_runs (Some runs) None
       = (inr self, w') ∧
     load_user_series_id (env := passing) (λ _, true) w'
       = SeriesIdRead "s1" ∧
     logged w' = []) ∧
  (∃ f2,
     TestSeries_init (env := passing) no_users_dir (Some runs) None
       = (inl (AttributeError "_logger"), set_fs no_users_dir f2) ∧
     series_root f2 !! "0000001"
       = Some [("0000001", Symlink "test_runs/0000001");
               ("0000003", Symlink "test_runs/0000003")]).
Proof.
  intros runs. split.
  - destruct (TestSeries_init (env := passing) three_runs (Some runs) None)
      as [[e|self] w'] eqn:Hinit.
    { vm_compute in Hinit. discriminate Hinit. }
    exists self, w'. split; [reflexivity|].
    destruct (proj1 (RegistryFacts.new_series_is_the_last_of_the_user
                       (env := passing) three_runs (Some runs) (λ _, true)
                       eq_refl) self w' Hinit) as (_ & Hload & Hlog).
    split; [|exact Hlog].
    rewrite Hload. vm_compute in Hinit. injection Hinit as <- _.
    reflexivity.
  - eexists. split.
    + apply (proj2 (RegistryFacts.new_series_is_the_last_of_the_user
                      (env := passing) no_users_dir (Some runs) (λ _, true)
                      eq_refl) 1%Z
               {| series_root := {[ "0000001" := [] ]};
                  directories := directories (fs three_runs);
                  users_dir := None |}).
      * vm_compute. reflexivity.
      * vm_compute. reflexivity.
      * reflexivity.
    + vm_compute. reflexivity.
Defined.

(** *** The manager, on the sample *)

Lemma chain_names_differ : NoDup (series chain).*1.
Proof.
  apply (NoDup_cons_2 "A" ["B"]); [|apply NoDup_singleton].
  intros H. apply list_elem_of_singleton in H. discriminate.
Qed.

Lemma sample_raw_configs_complete (result : pyval) :
  raw_configs_complete (env := collaborators result).
Proof.
  intros tests host modes l [= <-]. constructor; [|constructor].
  split; by eexists.
Qed.

Lemma set_up_links_the_tests_both_ways_witness :
  let self := prepared (H := passing) chain in
  (∀ n, is_Some (test_info self !! n) ↔ n ∈ ["A"; "B"]) ∧
  (∀ a b info_a info_b,
     test_info self !! a = Some info_a → test_info self !! b = Some info_b →
     (b ∈ next info_a ↔ a ∈ prev info_b)).
Proof.
  intros self.
  destruct (SchedulerFacts.set_up_links_the_tests_both_ways (env := passing)
              series_1 chain self) as (Hknown & _ & Hlinks).
  - apply chain_names_differ.
  - vm_compute. reflexivity.
  - split; [exact Hknown|exact Hlinks].
Defined.


Lemma check_and_update_moves_what_is_done_witness :
  let self := (launched (H := passing) chain).1 in
  let w := sleep (sleep (launched (H := passing) chain).2) in
  ∃ self',
    check_and_update (env := passing) self w = Ok self' w ∧
    started self'
      = filter (λ n, ¬ done_now (env := passing) self w n) (started self) ∧
    finished self'
      = finished self
        ++ filter (λ n, done_now (env := passing) self w n) (started self).
Proof.
  intros self w.
  destruct (SchedulerFacts.check_and_update_moves_what_is_done
              (env := passing) self w) as (self' & Hrun & Hst & Hf & _).
  - assert (Hstarted : started self = ["A"]) by (vm_compute; reflexivity).
    intros n Hn. rewrite Hstarted in Hn.
    apply list_elem_of_singleton in Hn as ->. vm_compute. eauto.
  - exists self'. split_and!; [exact Hrun|exact Hst|exact Hf].
Defined.

Lemma all_tests_passed_iff_every_test_passed_witness :
  let self := (after_first_tests (H := passing) chain).1 in
  let w := (after_first_tests (H := passing) chain).2 in
  ∃ b, all_tests_passed (env := passing) self w ["A"] = inr b ∧
       (b = true ↔ ∀ p, p ∈ ["A"] → passed (env := passing) self w p).
Proof.
  intros self w.
  apply (SchedulerFacts.all_tests_passed_iff_every_test_passed
           (env := passing) self w ["A"]).
  intros p Hp. apply list_elem_of_singleton in Hp as ->. vm_compute. eauto.
Defined.

Lemma kick_off_launches_in_file_order_witness :
  let self1 := (launched (H := passing) chain).1 in
  started self1 = ["A"] ∧ trace self1 = [Launched "A"] ∧
  finished self1 = [].
Proof.
  intros self1.
  destruct (SchedulerFacts.kick_off_launches_in_file_order (env := passing)
              series_1 chain (prepared (H := passing) chain) self1
              start (launched (H := passing) chain).2)
    as (Hst & Htr & Hf & _).
  - apply chain_names_differ.
  - vm_compute. reflexivity.
  - vm_compute. reflexivity.
  - split_and!; [exact Hst| |exact Hf]. rewrite Htr, Hst. reflexivity.
Defined.

Lemma independent_tests_are_launched_at_once_witness :
  match SeriesManager_init (env := passing) 0 start series_1 single with
  | Returned self w' =>
      started self = ["A"] ∧ trace self = [Launched "A"] ∧
      finished self = [] ∧ not_started self = [] ∧ now w' = now start
  | Raised _ self _ => Polled ∉ trace self
  | Looping _ _ => False
  end.
Proof.
  apply (SchedulerFacts.independent_tests_are_launched_at_once
           (env := passing) 0 start series_1 single).
  - apply NoDup_singleton.
  - intros n tc Hn. apply list_elem_of_singleton in Hn.
    injection Hn as -> ->. reflexivity.
Defined.

Lemma lists_partition_the_tests_after_a_launch_witness :
  match SeriesManager_init (env := failing) 4 start series_1 chain with
  | Returned self _ | Looping self _ =>
      all_tests self = ["A"; "B"] ∧ partitioned self
  | Raised _ _ _ => True
  end.
Proof.
  apply (SchedulerFacts.lists_partition_the_tests_after_a_launch
           (env := failing) 4 start series_1 chain "A"
           (test_section [] (PyStr "False"))).
  - apply chain_names_differ.
  - left.
  - reflexivity.
Defined.

Lemma no_test_is_decided_twice_witness :
  NoDup (decided (trace (final (SeriesManager_init (env := failing) 4 start
                                  series_1 chain)))).
Proof.
  apply (SchedulerFacts.no_test_is_decided_twice (env := failing)).
  apply chain_names_differ.
Defined.

Lemma constructor_raises_only_from_outside_witness :
  no_fault_run (env := failing)
    (SeriesManager_init (env := failing) 4 start series_1 chain).
Proof.
  apply (SchedulerFacts.constructor_raises_only_from_outside
           (env := failing) (λ n, if decide (n = "A") then 0 else 1)%nat).
  - apply chain_names_differ.
  - apply chain_is_acyclic.
  - apply sample_runs_complete.
  - apply sample_raw_configs_complete.
Defined.

Lemma nothing_is_skipped_when_every_result_is_PASS_witness :
  Skipped "B"
  ∉ trace (final (SeriesManager_init (env := passing) 4 start series_1
                    chain)).
Proof.
  apply (SchedulerFacts.nothing_is_skipped_when_every_result_is_PASS
           (env := passing) 4 start series_1 chain).
  intros k t. reflexivity.
Defined.

Lemma a_turn_only_moves_tests_forward_witness :
  let self := (launched (H := passing) chain).1 in
  let w := (launched (H := passing) chain).2 in
  moved_forward self (state_of (poll (env := passing) self w)) ∧
  now (world_of (poll (env := passing) self w)) = S (now w).
Proof.
  intros self w.
  apply (SchedulerFacts.a_turn_only_moves_tests_forward (env := passing)
           self _ w _).
  vm_compute. reflexivity.
Defined.

End SampleFacts.
